(** * seimaster relayer: JSON-RPC reads, account resolution, UserOperation assembly

    A shallow embedding of [backend/index.js] (the Express relayer) and of
    the [AccountFactory], [MinimalAccount] and [RewardToken] contracts it
    talks to.

    Asynchronous JavaScript is modelled as explicit state passing over a
    [World]: every [await] is a step that consumes the current world and
    yields a completion (a value or a thrown error) with the next world. *)

From Stdlib Require Import ZArith NArith List String Ascii Bool Lia DecimalString.
From stdpp Require Import base option list strings gmap.

Set Warnings "-register-all".
Local Open Scope string_scope.
Local Open Scope list_scope.

(** ** JavaScript values *)

(** Values that come out of [JSON.parse] or go into [res.json].  Numbers are
    the integers (status codes, ids, error codes); objects keep their keys
    in insertion order. *)
Inductive JSON : Type :=
  | JNull
  | JBool (b : bool)
  | JNum (n : Z)
  | JStr (s : string)
  | JArr (xs : list JSON)
  | JObj (kvs : list (string * JSON)).

(** Thrown values: every [throw] in the program and in the libraries it
    calls raises an [Error] object (name and message). *)
Record JsError : Type := mkError { err_name : string; err_message : string }.

Definition Error (msg : string) : JsError := mkError "Error" msg.
Definition ReferenceError (ident : string) : JsError :=
  mkError "ReferenceError" (ident ++ " is not defined").
Definition TypeError (msg : string) : JsError := mkError "TypeError" msg.

(** [String(e)] for an error object: [Error.prototype.toString]. *)
Definition String_of_error (e : JsError) : string :=
  if String.eqb (err_message e) "" then err_name e
  else if String.eqb (err_name e) "" then err_message e
  else err_name e ++ ": " ++ err_message e.

(** Lookup of an own property; [None] is [undefined]. *)
Fixpoint assoc (k : string) (kvs : list (string * JSON)) : option JSON :=
  match kvs with
  | [] => None
  | (k', v) :: rest => if String.eqb k k' then Some v else assoc k rest
  end.

(** [v.k] for the keys this program reads ([result], [error], [message]):
    only objects carry them. *)
Definition prop (v : JSON) (k : string) : option JSON :=
  match v with
  | JObj kvs => assoc k kvs
  | _ => None
  end.

(** ToBoolean. *)
Definition truthy (v : JSON) : bool :=
  match v with
  | JNull => false
  | JBool b => b
  | JNum n => negb (Z.eqb n 0)
  | JStr s => negb (String.eqb s "")
  | JArr _ | JObj _ => true
  end.

Definition truthy_opt (o : option JSON) : bool :=
  match o with
  | None => false
  | Some v => truthy v
  end.

(** Decimal rendering of an integer, as a template literal does. *)
Definition Z_to_string (n : Z) : string := NilZero.string_of_int (Z.to_int n).
Definition nat_to_string (n : nat) : string := NilZero.string_of_uint (Nat.to_uint n).

Fixpoint join (sep : string) (xs : list string) : string :=
  match xs with
  | [] => ""
  | [x] => x
  | x :: rest => x ++ sep ++ join sep rest
  end.

(** ToString. *)
Fixpoint js_to_string (v : JSON) : string :=
  match v with
  | JNull => "null"
  | JBool true => "true"
  | JBool false => "false"
  | JNum n => Z_to_string n
  | JStr s => s
  | JArr xs =>
      join "," (List.map (fun x => match x with JNull => "" | _ => js_to_string x end) xs)
  | JObj _ => "[object Object]"
  end.

(** ** Completions and the asynchronous monad *)

Inductive Completion (A : Type) : Type :=
  | Normal (a : A)
  | Throw (e : JsError).
Arguments Normal {A} a.
Arguments Throw {A} e.

Definition is_throw {A} (c : Completion A) : bool :=
  match c with Throw _ => true | Normal _ => false end.

(** ** Byte strings and addresses *)

(** Hex data ([0x]-prefixed strings in the program) is the byte list it
    denotes: ['0x'] is [[]].  Addresses are their 160-bit value. *)
Abbreviation bytes := (list Byte.byte) (only parsing).
Abbreviation address := N (only parsing).

Definition hex_digit (n : N) : ascii :=
  match n with
  | 0 => "0" | 1 => "1" | 2 => "2" | 3 => "3" | 4 => "4" | 5 => "5" | 6 => "6" | 7 => "7"
  | 8 => "8" | 9 => "9" | 10 => "a" | 11 => "b" | 12 => "c" | 13 => "d" | 14 => "e"
  | _ => "f"
  end%N%char.

Fixpoint hex_body (b : bytes) : string :=
  match b with
  | [] => EmptyString
  | x :: rest =>
      let n := Byte.to_N x in
      String (hex_digit (n / 16)) (String (hex_digit (n mod 16)) (hex_body rest))
  end.

Definition hexlify (b : bytes) : string := "0x" ++ hex_body b.

Definition byte_of_N (n : N) : Byte.byte :=
  match Byte.of_N (n mod 256) with
  | Some b => b
  | None => Byte.x00
  end.

(** Big-endian rendering of [n] on [len] bytes (the low [8*len] bits). *)
Fixpoint be_bytes (len : nat) (n : N) : bytes :=
  match len with
  | O => []
  | S k => be_bytes k (n / 256) ++ [byte_of_N n]
  end.

Definition be_value (b : bytes) : N :=
  fold_left (fun acc x => (acc * 256 + Byte.to_N x)%N) b 0%N.

Fixpoint bytes_eqb (a b : bytes) : bool :=
  match a, b with
  | [], [] => true
  | x :: a', y :: b' => Byte.eqb x y && bytes_eqb a' b'
  | _, _ => false
  end.

Definition show_address (a : address) : string := hexlify (be_bytes 20 a).

(** Strings are the sequence of their UTF-8 code units, so the UTF-8 bytes
    of a string are its characters. *)
Definition toUtf8 (s : string) : bytes := list_byte_of_string s.

(** ** Primitives of the platform

    Hashing and CREATE2 address prediction are done by libraries outside
    the repository (ethers, OpenZeppelin [Clones]); they enter as
    uninterpreted functions. *)
Class Primitives : Type := {
  keccak256 : bytes -> bytes;
  keccak256_length : forall b, length (keccak256 b) = 32%nat;
  (** [Clones.predictDeterministicAddress(implementation, salt, deployer)] *)
  predictDeterministicAddress : address -> bytes -> address -> address;
  predicted_is_address :
    forall impl salt deployer, (predictDeterministicAddress impl salt deployer < 2 ^ 160)%N;
  (** ethers' address parser applied to a user-supplied string *)
  parse_address : string -> option address;
  (** hash of the n-th transaction signed by an account *)
  tx_hash : address -> nat -> bytes;
  (** ethers' [Contract] objects have a method [getAddress()] of their own
      that returns the contract's address; whether [contract.getAddress]
      is that method or the ABI function of the same name depends on the
      library, so it is a parameter *)
  own_getAddress : bool;
}.

(** ** Contract ABI: ethers' [Interface] *)

Inductive AbiType : Type := TAddress | TUint256 | TBytes32 | TBytes | TString.

Inductive AbiValue : Type :=
  | VAddress (a : address)
  | VUint (n : Z)
  | VBytes32 (b : bytes)
  | VBytes (b : bytes)
  | VString (s : string).

Record Fragment : Type := mkFragment {
  f_name : string;
  f_inputs : list AbiType;
  f_outputs : list AbiType;
  (** [view] functions are read with [eth_call]; the others are sent as
      transactions *)
  f_view : bool;
}.

Definition Interface := list Fragment.

Definition type_name (t : AbiType) : string :=
  match t with
  | TAddress => "address"
  | TUint256 => "uint256"
  | TBytes32 => "bytes32"
  | TBytes => "bytes"
  | TString => "string"
  end.

Definition signature (f : Fragment) : string :=
  f_name f ++ "(" ++ join "," (List.map type_name (f_inputs f)) ++ ")".

Definition AbiType_eqb (a b : AbiType) : bool :=
  match a, b with
  | TAddress, TAddress | TUint256, TUint256 | TBytes32, TBytes32
  | TBytes, TBytes | TString, TString => true
  | _, _ => false
  end.

Definition is_dynamic (t : AbiType) : bool :=
  match t with
  | TBytes | TString => true
  | _ => false
  end.

(** A value is accepted for a parameter type when it has the right shape
    and is in range. *)
Definition accepts (t : AbiType) (v : AbiValue) : bool :=
  match t, v with
  | TAddress, VAddress a => (a <? 2 ^ 160)%N
  | TUint256, VUint n => (0 <=? n)%Z && (n <? 2 ^ 256)%Z
  | TBytes32, VBytes32 b => Nat.eqb (length b) 32
  | TBytes, VBytes _ => true
  | TString, VString _ => true
  | _, _ => false
  end.

Fixpoint accepts_all (ts : list AbiType) (vs : list AbiValue) : bool :=
  match ts, vs with
  | [], [] => true
  | t :: ts', v :: vs' => accepts t v && accepts_all ts' vs'
  | _, _ => false
  end.

Definition zero_bytes (n : nat) : bytes := repeat Byte.x00 n.

(** Right padding to a multiple of 32 bytes. *)
Definition pad32 (b : bytes) : bytes :=
  b ++ zero_bytes ((32 - length b mod 32) mod 32).

Definition dyn_payload (v : AbiValue) : bytes :=
  match v with
  | VBytes b => b
  | VString s => toUtf8 s
  | _ => []
  end.

(** The 32-byte head word of a static value. *)
Definition head_word (v : AbiValue) : bytes :=
  match v with
  | VAddress a => be_bytes 32 a
  | VUint n => be_bytes 32 (Z.to_N n)
  | VBytes32 b => b
  | _ => []
  end.

Definition value_is_dynamic (v : AbiValue) : bool :=
  match v with
  | VBytes _ | VString _ => true
  | _ => false
  end.

Definition encode_tail (v : AbiValue) : bytes :=
  be_bytes 32 (N.of_nat (length (dyn_payload v))) ++ pad32 (dyn_payload v).

(** Heads and tails of a tuple; [off] is where the next tail starts. *)
Fixpoint abi_encode_from (off : nat) (vs : list AbiValue) : bytes * bytes :=
  match vs with
  | [] => ([], [])
  | v :: rest =>
      if value_is_dynamic v then
        let t := encode_tail v in
        let '(hs, ts) := abi_encode_from (off + length t) rest in
        (be_bytes 32 (N.of_nat off) ++ hs, t ++ ts)
      else
        let '(hs, ts) := abi_encode_from off rest in
        (head_word v ++ hs, ts)
  end.

Definition abi_encode (vs : list AbiValue) : bytes :=
  let '(hs, ts) := abi_encode_from (32 * length vs) vs in hs ++ ts.

(** [data.slice(start, start + len)], failing when out of range. *)
Definition slice (start len : nat) (data : bytes) : option bytes :=
  if Nat.leb (start + len) (length data)
  then Some (firstn len (skipn start data))
  else None.

Definition padded_length (n : nat) : nat := n + (32 - n mod 32) mod 32.

Definition decode_dynamic (data : bytes) (off : nat) : option bytes :=
  match slice off 32 data with
  | None => None
  | Some w =>
      let len := N.to_nat (be_value w) in
      match slice (off + 32) (padded_length len) data with
      | None => None
      | Some body => Some (firstn len body)
      end
  end.

Definition decode_param (data : bytes) (i : nat) (t : AbiType) : option AbiValue :=
  match slice (32 * i) 32 data with
  | None => None
  | Some w =>
      match t with
      | TAddress =>
          if (be_value w <? 2 ^ 160)%N then Some (VAddress (be_value w)) else None
      | TUint256 => Some (VUint (Z.of_N (be_value w)))
      | TBytes32 => Some (VBytes32 w)
      | TBytes => option_map VBytes (decode_dynamic data (N.to_nat (be_value w)))
      | TString =>
          option_map (fun b => VString (string_of_list_byte b))
                     (decode_dynamic data (N.to_nat (be_value w)))
      end
  end.

Fixpoint abi_decode_from (data : bytes) (i : nat) (ts : list AbiType) : option (list AbiValue) :=
  match ts with
  | [] => Some []
  | t :: rest =>
      match decode_param data i t, abi_decode_from data (S i) rest with
      | Some v, Some vs => Some (v :: vs)
      | _, _ => None
      end
  end.

Definition abi_decode (ts : list AbiType) (data : bytes) : option (list AbiValue) :=
  abi_decode_from data 0 ts.

Definition contains_paren (key : string) : bool :=
  existsb (fun c => Ascii.eqb c "("%char) (list_ascii_of_string key).

(** [iface.getFunction(key)]: by full signature when [key] has a
    parenthesis, by name otherwise (a name shared by several fragments is
    ambiguous and throws); [null] when nothing matches. *)
Definition getFunction (iface : Interface) (key : string) : Completion (option Fragment) :=
  if contains_paren key then
    Normal (List.find (fun f => String.eqb (signature f) key) iface)
  else
    match List.filter (fun f => String.eqb (f_name f) key) iface with
    | [] => Normal None
    | [f] => Normal (Some f)
    | _ => Throw (TypeError ("ambiguous function description: " ++ key))
    end.

(** A call or transaction payload: the function it selects and its
    arguments.  [wire] is its hex encoding. *)
Record Call : Type := mkCall { call_fn : Fragment; call_args : list AbiValue }.

(** The call [iface.encodeFunctionData(key, args)] encodes. *)
Definition encodeCall (iface : Interface) (key : string) (args : list AbiValue)
  : Completion Call :=
  match getFunction iface key with
  | Throw e => Throw e
  | Normal None => Throw (TypeError ("unknown function: " ++ key))
  | Normal (Some f) =>
      if negb (Nat.eqb (length args) (length (f_inputs f)))
      then Throw (Error "types/values length mismatch")
      else if negb (accepts_all (f_inputs f) args)
      then Throw (TypeError "invalid argument")
      else Normal (mkCall f args)
  end.

Section Abi.
Context `{Primitives}.

Definition selector (f : Fragment) : bytes :=
  firstn 4 (keccak256 (toUtf8 (signature f))).

Definition wire (c : Call) : bytes := selector (call_fn c) ++ abi_encode (call_args c).

(** [iface.encodeFunctionData(key, args)] *)
Definition encodeFunctionData (iface : Interface) (key : string) (args : list AbiValue)
  : Completion bytes :=
  match encodeCall iface key args with
  | Throw e => Throw e
  | Normal c => Normal (wire c)
  end.

(** [iface.decodeFunctionResult(key, data)] *)
Definition decodeFunctionResult (iface : Interface) (key : string) (data : bytes)
  : Completion (list AbiValue) :=
  match getFunction iface key with
  | Throw e => Throw e
  | Normal None => Throw (TypeError ("unknown function: " ++ key))
  | Normal (Some f) =>
      match abi_decode (f_outputs f) data with
      | Some vs => Normal vs
      | None => Throw (Error "could not decode result data")
      end
  end.

(** [iface.decodeFunctionData(key, data)]: the inverse of
    [encodeFunctionData]. *)
Definition decodeFunctionData (iface : Interface) (key : string) (data : bytes)
  : Completion (list AbiValue) :=
  match getFunction iface key with
  | Throw e => Throw e
  | Normal None => Throw (TypeError ("unknown function: " ++ key))
  | Normal (Some f) =>
      if negb (bytes_eqb (firstn 4 data) (selector f))
      then Throw (TypeError "data signature does not match function")
      else
        match abi_decode (f_inputs f) (skipn 4 data) with
        | Some vs => Normal vs
        | None => Throw (Error "could not decode function data")
        end
  end.
End Abi.

(** ** The chain: contracts of the repository *)

Record Tx : Type := mkTx { tx_from : address; tx_to : address; tx_call : Call }.

Record Chain : Type := mkChain {
  (** deployed runtime code; no entry means no code *)
  code : gmap N bytes;
  (** [AccountFactory] instances and their immutable [implementation] *)
  factories : gmap N N;
  (** initialised [MinimalAccount] clones and their [owner] *)
  owners : gmap N N;
  (** contracts that are not part of the repository answer read calls
      through their own (opaque) view table *)
  foreign : gmap N (Call -> Completion bytes);
  (** transactions included so far, most recent first; each one is mined
      in a block of its own *)
  mined : list Tx;
}.

(** ** The world outside the process *)

Record HttpRequest : Type := mkRequest {
  req_url : string;
  req_method : string;
  req_params : list JSON;
}.

(** What a [fetch] yields: a transport failure (rejection, or the abort
    after the 8 second guard), or a response with its status and its body
    as [r.json()] parses it ([None] when the body is not JSON). *)
Inductive HttpOutcome : Type :=
  | NetFailure (e : JsError)
  | HttpResponse (status : nat) (body : option JSON).

Record World : Type := mkWorld {
  chain : Chain;
  (** transport fault, if any, hitting the n-th request the ethers provider
      issues *)
  node_env : nat -> option JsError;
  node_reqs : nat;
  (** answer of the network to the n-th [fetch] *)
  http_env : nat -> HttpRequest -> HttpOutcome;
  (** requests issued through [fetch], most recent first *)
  http_log : list HttpRequest;
}.

Definition Async (A : Type) : Type := World -> Completion A * World.

Definition ret {A} (a : A) : Async A := fun w => (Normal a, w).
Definition throw {A} (e : JsError) : Async A := fun w => (Throw e, w).

Definition bind {A B} (m : Async A) (k : A -> Async B) : Async B :=
  fun w =>
    match m w with
    | (Normal a, w') => k a w'
    | (Throw e, w') => (Throw e, w')
    end.

(** [try { m } catch (e) { h e }] *)
Definition try_catch {A} (m : Async A) (h : JsError -> Async A) : Async A :=
  fun w =>
    match m w with
    | (Normal a, w') => (Normal a, w')
    | (Throw e, w') => h e w'
    end.

Definition lift {A} (c : Completion A) : Async A := fun w => (c, w).

Notation "'let*' x ':=' m 'in' k" := (bind m (fun x => k))
  (at level 10, x pattern, m at level 100, k at level 200).

Definition fetch (rq : HttpRequest) : Async (nat * option JSON) :=
  fun w =>
    let w' := mkWorld (chain w) (node_env w) (node_reqs w) (http_env w) (rq :: http_log w) in
    match http_env w (length (http_log w)) rq with
    | NetFailure e => (Throw e, w')
    | HttpResponse st body => (Normal (st, body), w')
    end.

(** One request of the ethers provider or signer against the node. *)
Definition node_request {A} (op : Chain -> Completion A * Chain) : Async A :=
  fun w =>
    match node_env w (node_reqs w) with
    | Some e =>
        (Throw e, mkWorld (chain w) (node_env w) (S (node_reqs w)) (http_env w) (http_log w))
    | None =>
        let '(r, c') := op (chain w) in
        (r, mkWorld c' (node_env w) (S (node_reqs w)) (http_env w) (http_log w))
    end.

(** ** Process configuration *)

(** [process.env] and the build artifacts read at run time.  An address
    variable that is unset or empty is [None]; an artifact that cannot be
    read or parsed is [None]. *)
Record Env : Type := mkEnv {
  READ_RPC_1 : option string;
  READ_RPC_2 : option string;
  AA_FACTORY : option address;
  REWARD_TOKEN : option address;
  PAYMASTER : option address;
  BUNDLER_URL : option string;
  ENTRYPOINT : option address;
  (** address of the wallet built from [RELAYER_PK] *)
  relayer : address;
  artifact_AccountFactory : option Interface;
  artifact_RewardToken : option Interface;
}.

(** Names the module refers to without importing or declaring them are
    unbound: evaluating one throws a [ReferenceError].  [index.js] imports
    [JsonRpcProvider], [Wallet], [formatEther], [parseEther], [Contract],
    [parseUnits], [Interface], [ZeroAddress], [toBeHex] and [getBytes] from
    ethers; it uses [ethers], [keccak256] and [toUtf8Bytes] as well. *)
Record Scope : Type := mkScope {
  binds_ethers : bool;
  binds_keccak256 : bool;
  binds_toUtf8Bytes : bool;
}.

Definition index_js_scope : Scope := mkScope false false false.
Definition repaired_scope : Scope := mkScope true true true.

Definition ident (bound : bool) (name : string) : Async unit :=
  if bound then ret tt else throw (ReferenceError name).

(** ** SAFE RPC HELPERS *)

Definition Boolean_string (o : option string) : bool :=
  match o with
  | Some s => negb (String.eqb s "")
  | None => false
  end.

(** [[process.env.READ_RPC_1, process.env.READ_RPC_2].filter(Boolean)] *)
Definition READS (env : Env) : list string :=
  omap (fun o => if Boolean_string o then o else None) [READ_RPC_1 env; READ_RPC_2 env].

(** [j?.error?.message] *)
Definition error_message (j : JSON) : option JSON :=
  match j with
  | JNull => None
  | _ =>
      match prop j "error" with
      | None | Some JNull => None
      | Some e => prop e "message"
      end
  end.

(** What [rpcFetch] makes of a response. *)
Definition rpc_result (status : nat) (body : option JSON) : Completion JSON :=
  let j := match body with Some j => j | None => JObj [] end in
  match (if truthy j then prop j "result" else None) with
  | Some r => Normal r
  | None =>
      Throw (Error (if truthy_opt (error_message j)
                    then match error_message j with Some m => js_to_string m | None => "" end
                    else "rpc error " ++ nat_to_string status))
  end.

Definition rpcFetch (url method : string) (params : list JSON) : Async JSON :=
  let* r := fetch (mkRequest url method params) in
  lift (rpc_result (fst r) (snd r)).

(** The loop of [rpc], with [lastErr] ([None] is [undefined]). *)
Fixpoint rpc_from (urls : list string) (lastErr : option JsError)
         (method : string) (params : list JSON) : Async JSON :=
  match urls with
  | [] =>
      throw (match lastErr with
             | Some e => e
             | None => Error "all RPCs failed"
             end)
  | url :: rest =>
      try_catch (rpcFetch url method params)
                (fun e => rpc_from rest (Some e) method params)
  end.

Definition rpc (env : Env) (method : string) (params : list JSON) : Async JSON :=
  rpc_from (READS env) None method params.

(** ** The contracts: [AccountFactory.sol] and the clones it deploys *)

Definition AccountFactory_abi : Interface :=
  [ mkFragment "implementation" [] [TAddress] true;
    mkFragment "getAddress" [TString] [TAddress] true;
    mkFragment "createAccount" [TString; TAddress] [TAddress] false ].

Definition getCode (c : Chain) (a : address) : bytes := default [] (code c !! a).

(** [code && code !== '0x'] *)
Definition has_code (b : bytes) : bool :=
  match b with
  | [] => false
  | _ :: _ => true
  end.

Section Contracts.
Context `{Primitives}.

(** [keccak256(abi.encodePacked(userId))] *)
Definition salt_of (userId : string) : bytes := keccak256 (toUtf8 userId).

(** Runtime code of an EIP-1167 clone of [impl], as
    [Clones.cloneDeterministic] deploys it. *)
Definition clone_code (impl : address) : bytes :=
  List.map byte_of_N [0x36; 0x3d; 0x3d; 0x37; 0x3d; 0x3d; 0x3d; 0x36; 0x3d; 0x73]%N
  ++ be_bytes 20 impl
  ++ List.map byte_of_N
       [0x5a; 0xf4; 0x3d; 0x82; 0x80; 0x3e; 0x90; 0x3d; 0x91; 0x60; 0x2b; 0x57; 0xfd; 0x5b;
        0xf3]%N.

(** [AccountFactory.getAddress(userId)] of the factory at [this]. *)
Definition AccountFactory_getAddress (impl this : address) (userId : string) : address :=
  predictDeterministicAddress impl (salt_of userId) this.

(** [MinimalAccount.initialize(_owner)] run by the clone at [account]. *)
Definition MinimalAccount_initialize (c : Chain) (account owner : address)
  : Completion Chain :=
  match owners c !! account with
  | Some _ => Throw (Error "execution reverted: initialized")
  | None =>
      if (owner =? 0)%N then Throw (Error "execution reverted: bad owner")
      else Normal (mkChain (code c) (factories c) (<[account := owner]> (owners c))
                           (foreign c) (mined c))
  end.

(** [AccountFactory.createAccount(userId, owner)] of the factory at
    [this]: clone and initialise unless the account already has code. *)
Definition AccountFactory_createAccount (c : Chain) (impl this : address)
           (userId : string) (owner : address) : Completion (address * Chain) :=
  let salt := salt_of userId in
  let account := predictDeterministicAddress impl salt this in
  if has_code (getCode c account) then Normal (account, c)
  else
    let c1 := mkChain (<[account := clone_code impl]> (code c)) (factories c) (owners c)
                      (foreign c) (mined c) in
    match MinimalAccount_initialize c1 account owner with
    | Throw e => Throw e
    | Normal c2 => Normal (account, c2)
    end.

(** Execution of a read call by the node. *)
Definition eth_call (c : Chain) (to : address) (call : Call) : Completion bytes :=
  match factories c !! to with
  | Some impl =>
      let sig := signature (call_fn call) in
      if String.eqb sig "getAddress(string)" then
        match call_args call with
        | [VString u] => Normal (abi_encode [VAddress (AccountFactory_getAddress impl to u)])
        | _ => Throw (Error "execution reverted")
        end
      else if String.eqb sig "implementation()" then Normal (abi_encode [VAddress impl])
      else if String.eqb sig "createAccount(string,address)" then
        match call_args call with
        | [VString u; VAddress o] =>
            match AccountFactory_createAccount c impl to u o with
            | Normal (a, _) => Normal (abi_encode [VAddress a])
            | Throw e => Throw e
            end
        | _ => Throw (Error "execution reverted")
        end
      else Throw (Error "execution reverted")
  | None =>
      match foreign c !! to with
      | Some view => view call
      | None =>
          if has_code (getCode c to) then Throw (Error "execution reverted")
          else Normal []
      end
  end.

Definition include (c : Chain) (tx : Tx) : Chain :=
  mkChain (code c) (factories c) (owners c) (foreign c) (tx :: mined c).

(** A transaction signed by [from]: it is estimated first, so one that
    would revert is never broadcast; otherwise it is included and its
    hash returned.  Only the factory's state change is modelled. *)
Definition send_tx (from to : address) (call : Call) (c : Chain)
  : Completion bytes * Chain :=
  let hash := tx_hash from (length (mined c)) in
  let tx := mkTx from to call in
  match factories c !! to with
  | Some impl =>
      let sig := signature (call_fn call) in
      if String.eqb sig "createAccount(string,address)" then
        match call_args call with
        | [VString u; VAddress o] =>
            match AccountFactory_createAccount c impl to u o with
            | Normal (_, c') => (Normal hash, include c' tx)
            | Throw e => (Throw e, c)
            end
        | _ => (Throw (Error "execution reverted"), c)
        end
      else if String.eqb sig "getAddress(string)" || String.eqb sig "implementation()"
      then (Normal hash, include c tx)
      else (Throw (Error "execution reverted"), c)
  | None =>
      match foreign c !! to with
      | Some _ => (Normal hash, include c tx)
      | None =>
          if has_code (getCode c to) then (Throw (Error "execution reverted"), c)
          else (Normal hash, include c tx)
      end
  end.

(** ** ethers: provider and [Contract] *)

Definition provider_getCode (a : address) : Async bytes :=
  node_request (fun c => (Normal (getCode c a), c)).

Definition provider_call (to : address) (call : Call) : Async bytes :=
  node_request (fun c => (eth_call c to call, c)).

(** [tx.wait()]: the receipt carries the block number. *)
Definition tx_wait : Async nat :=
  node_request (fun c => (Normal (length (mined c)), c)).

Record Contract : Type := mkContract {
  c_target : address;
  c_abi : Interface;
  (** [Some] when built with the relayer wallet, [None] with the provider *)
  c_signer : option address;
}.

(** What a contract method yields: decoded return values for a read, the
    transaction hash for a state-changing method. *)
Inductive MethodResult : Type :=
  | Returned (vs : list AbiValue)
  | Sent (hash : bytes).

(** The fragment a method call [contract[key](...args)] denotes: the
    signature when [key] is one, else the only fragment of that name and
    arity. *)
Definition resolve_method (abi : Interface) (key : string) (nargs : nat)
  : Completion Fragment :=
  if contains_paren key then
    match List.find (fun f => String.eqb (signature f) key) abi with
    | Some f => Normal f
    | None => Throw (TypeError (key ++ " is not a function"))
    end
  else
    match List.filter (fun f => String.eqb (f_name f) key
                                && Nat.eqb (length (f_inputs f)) nargs) abi with
    | [f] => Normal f
    | [] => Throw (TypeError ("no matching fragment: " ++ key))
    | _ => Throw (TypeError ("ambiguous function description: " ++ key))
    end.

Definition invoke (ct : Contract) (key : string) (args : list AbiValue)
  : Async MethodResult :=
  let* f := lift (resolve_method (c_abi ct) key (length args)) in
  if negb (Nat.eqb (length args) (length (f_inputs f))) then
    throw (Error "types/values length mismatch")
  else if negb (accepts_all (f_inputs f) args) then throw (TypeError "invalid argument")
  else if f_view f then
    let* out := provider_call (c_target ct) (mkCall f args) in
    match abi_decode (f_outputs f) out with
    | Some vs => ret (Returned vs)
    | None => throw (Error "could not decode result data")
    end
  else
    match c_signer ct with
    | None => throw (Error "contract runner does not support sending transactions")
    | Some from =>
        let* h := node_request (send_tx from (c_target ct) (mkCall f args)) in
        ret (Sent h)
    end.

(** A method result used where the program expects an address. *)
Definition as_address (r : MethodResult) : Async address :=
  match r with
  | Returned [VAddress a] => ret a
  | _ => throw (TypeError "invalid address")
  end.

(** A method result used as a transaction ([tx.wait()], [tx.hash]). *)
Definition as_tx (r : MethodResult) : Async bytes :=
  match r with
  | Sent h => ret h
  | Returned _ => throw (TypeError "tx.wait is not a function")
  end.
End Contracts.

(** ** HTTP layer *)

(** An incoming request: its query parameters and the fields of its JSON
    body, each given at most once and as a string. *)
Record Req : Type := mkReq {
  query : list (string * string);
  body : list (string * string);
}.

Record Response : Type := mkResponse { status : nat; payload : JSON }.

Fixpoint lookup_param (k : string) (kvs : list (string * string)) : option string :=
  match kvs with
  | [] => None
  | (k', v) :: rest => if String.eqb k k' then Some v else lookup_param k rest
  end.

(** [String(req.query.k || dflt)] *)
Definition query_or (rq : Req) (k dflt : string) : string :=
  match lookup_param k (query rq) with
  | Some v => if String.eqb v "" then dflt else v
  | None => dflt
  end.

(** An object literal; a field whose value is [undefined] is not
    serialised. *)
Definition obj (fields : list (string * option JSON)) : JSON :=
  JObj (omap (fun kv => match snd kv with
                        | Some v => Some (fst kv, v)
                        | None => None
                        end) fields).

(** [res.json(v)] and [res.status(n).json(v)] *)
Definition res_json (v : JSON) : Response := mkResponse 200 v.
Definition res_status_json (n : nat) (v : JSON) : Response := mkResponse n v.

Definition error_body (msg : string) : JSON := JObj [("error", JStr msg)].

(** [catch (e) { res.status(500).json({ error: String(e) }) }] *)
Definition catch_500 (m : Async Response) : Async Response :=
  try_catch m (fun e => ret (res_status_json 500 (error_body (String_of_error e)))).

Definition json_address (a : address) : JSON := JStr (show_address a).
Definition json_hex (b : bytes) : JSON := JStr (hexlify b).
Definition json_opt_address (o : option address) : JSON :=
  match o with
  | Some a => json_address a
  | None => JNull
  end.

(** ** Hex and decimal parsing *)

Definition hex_val (c : ascii) : option N :=
  let n := N_of_ascii c in
  if (48 <=? n)%N && (n <=? 57)%N then Some (n - 48)%N
  else if (97 <=? n)%N && (n <=? 102)%N then Some (n - 87)%N
  else if (65 <=? n)%N && (n <=? 70)%N then Some (n - 55)%N
  else None.

Fixpoint parse_hex_body (s : string) : option bytes :=
  match s with
  | EmptyString => Some []
  | String a (String b rest) =>
      match hex_val a, hex_val b, parse_hex_body rest with
      | Some x, Some y, Some bs => Some (byte_of_N (x * 16 + y) :: bs)
      | _, _, _ => None
      end
  | String _ EmptyString => None
  end.

(** The bytes of a [0x]-prefixed hex string. *)
Definition parse_hex (s : string) : option bytes :=
  match s with
  | String "0" (String "x" rest) => parse_hex_body rest
  | _ => None
  end.

Definition startsWith_0x (s : string) : bool :=
  match s with
  | String "0" (String "x" _) => true
  | _ => false
  end.

Definition is_digit (c : ascii) : bool :=
  let n := N_of_ascii c in (48 <=? n)%N && (n <=? 57)%N.

Definition digits_value (ds : list ascii) : N :=
  fold_left (fun acc c => (acc * 10 + (N_of_ascii c - 48))%N) ds 0%N.

Fixpoint split_dot (cs : list ascii) : list ascii * option (list ascii) :=
  match cs with
  | [] => ([], None)
  | c :: rest =>
      if Ascii.eqb c "."%char then ([], Some rest)
      else let '(w, f) := split_dot rest in (c :: w, f)
  end.

(** [parseUnits(value, decimals)]: a decimal literal
    [-?[0-9]*\.?[0-9]*] with at least one digit, scaled by
    [10^decimals]; digits beyond [decimals] must be zeros. *)
Definition parseUnits (value : string) (decimals : nat) : Completion Z :=
  let cs := list_ascii_of_string value in
  let '(neg, cs') := match cs with
                     | c :: rest => if Ascii.eqb c "-"%char then (true, rest) else (false, cs)
                     | [] => (false, cs)
                     end in
  let '(whole, fopt) := split_dot cs' in
  let frac := match fopt with Some f => f | None => [] end in
  if negb (forallb is_digit whole && forallb is_digit frac)
     || Nat.eqb (length whole + length frac) 0
  then Throw (TypeError "invalid FixedNumber string value")
  else
    let padded := frac ++ repeat "0"%char (decimals - length frac) in
    if negb (forallb (fun c => Ascii.eqb c "0"%char) (skipn decimals padded))
    then Throw (Error "too many decimals for format")
    else
      let v := Z.of_N (digits_value (whole ++ firstn decimals padded)) in
      let v' := if neg then (- v)%Z else v in
      if ((- 2 ^ 511 <=? v') && (v' <? 2 ^ 511))%Z then Normal v'
      else Throw (Error "overflow").

(** ** UserOperation *)

Record UserOp : Type := mkUserOp {
  sender : address;
  nonce : string;
  callData : bytes;
  callGasLimit : string;
  verificationGasLimit : string;
  preVerificationGas : string;
  maxFeePerGas : string;
  maxPriorityFeePerGas : string;
  paymaster : address;
  paymasterData : bytes;
  signature_ : bytes;
  (** set only for a sender that is not deployed *)
  factory : option address;
  factoryData : option bytes;
}.

Definition UserOp_json (op : UserOp) : JSON :=
  obj [ ("sender", Some (json_address (sender op)));
        ("nonce", Some (JStr (nonce op)));
        ("callData", Some (json_hex (callData op)));
        ("callGasLimit", Some (JStr (callGasLimit op)));
        ("verificationGasLimit", Some (JStr (verificationGasLimit op)));
        ("preVerificationGas", Some (JStr (preVerificationGas op)));
        ("maxFeePerGas", Some (JStr (maxFeePerGas op)));
        ("maxPriorityFeePerGas", Some (JStr (maxPriorityFeePerGas op)));
        ("paymaster", Some (json_address (paymaster op)));
        ("paymasterData", Some (json_hex (paymasterData op)));
        ("signature", Some (json_hex (signature_ op)));
        ("factory", option_map json_address (factory op));
        ("factoryData", option_map json_hex (factoryData op)) ].

(** The value of a hex quantity such as ['0x5208']. *)
Definition hex_quantity (s : string) : option N :=
  match s with
  | String "0" (String "x" rest) =>
      fold_left (fun acc c =>
                   match acc, hex_val c with
                   | Some a, Some d => Some (a * 16 + d)%N
                   | _, _ => None
                   end) (list_ascii_of_string rest) (Some 0%N)
  | _ => None
  end.

(** What [getSenderAndInit] returns. *)
Record SenderInit : Type := mkSenderInit {
  si_sender : address;
  si_deployed : bool;
  si_factoryData : bytes;
  si_usedBytes32 : bool;
}.

(** [loadArtifact(path).abi] *)
Definition loadArtifact (art : option Interface) : Async Interface :=
  match art with
  | Some abi => ret abi
  | None => throw (Error "ENOENT: no such file or directory")
  end.

(** The object literal of the gasless-mint handler, followed by
    [if (!deployed) { userOp.factory = factoryAddr; userOp.factoryData = factoryData; }]. *)
Definition assemble_userOp (sender_ : address) (callData_ : bytes) (paymasterAddr : address)
           (deployed : bool) (factoryAddr : address) (factoryData_ : bytes) : UserOp :=
  let userOp :=
    mkUserOp sender_ "0x0" callData_ "0x5208" "0x989680" "0x186a0" "0x3b9aca00" "0x3b9aca00"
             paymasterAddr [] [] None None in
  if negb deployed then
    mkUserOp (sender userOp) (nonce userOp) (callData userOp) (callGasLimit userOp)
             (verificationGasLimit userOp) (preVerificationGas userOp) (maxFeePerGas userOp)
             (maxPriorityFeePerGas userOp) (paymaster userOp) (paymasterData userOp)
             (signature_ userOp) (Some factoryAddr) (Some factoryData_)
  else userOp.

(** How JavaScript tests a decoded ABI value: addresses and hex data are
    non-empty strings, integers are bigints. *)
Definition abi_truthy (v : AbiValue) : bool :=
  match v with
  | VAddress _ | VBytes32 _ | VBytes _ => true
  | VUint n => negb (Z.eqb n 0)
  | VString s => negb (String.eqb s "")
  end.

(** Serialising a decoded ABI value with [res.json]: a bigint cannot be
    serialised; [undefined] ([None]) is left out. *)
Definition abi_json (o : option AbiValue) : Completion (option JSON) :=
  match o with
  | None => Normal None
  | Some (VAddress a) => Normal (Some (json_address a))
  | Some (VUint _) => Throw (TypeError "Do not know how to serialize a BigInt")
  | Some (VBytes32 b) | Some (VBytes b) => Normal (Some (json_hex b))
  | Some (VString s) => Normal (Some (JStr s))
  end.

Section Handlers.
Context `{Primitives}.

(** [factory.getAddress(userId)] on a [Contract] object. *)
Definition contract_getAddress (ct : Contract) (userId : string) : Async MethodResult :=
  if own_getAddress then ret (Returned [VAddress (c_target ct)])
  else invoke ct "getAddress" [VString userId].

Definition accountFactoryContract (env : Env) (addr : address) : Async Contract :=
  let* abi := loadArtifact (artifact_AccountFactory env) in
  ret (mkContract addr abi None).

(** The interface built on the fly in the [bytes32] fallback. *)
Definition bytes32_iface : Interface :=
  [ mkFragment "getAddress" [TBytes32] [TAddress] true;
    mkFragment "createAccount" [TBytes32] [TAddress] false ].

(** 1) Try string signature: the body of the [try] block. *)
Definition resolve_by_string (factory_ : Contract) (userId : string) : Async SenderInit :=
  let* r := contract_getAddress factory_ userId in
  let* sender_ := as_address r in
  let* code_ := provider_getCode sender_ in
  let deployed := has_code code_ in
  let* factoryData_ :=
    (if negb deployed
     then lift (encodeFunctionData (c_abi factory_) "createAccount" [VString userId])
     else ret []) in
  ret (mkSenderInit sender_ deployed factoryData_ false).

(** 2) Fallback to bytes32 signature: the body of the [catch] block. *)
Definition resolve_by_bytes32 (sc : Scope) (factory_ : Contract) (factoryAddr : address)
           (userId : string) : Async SenderInit :=
  let* _ := ident (binds_ethers sc) "ethers" in
  let salt := keccak256 (toUtf8 userId) in
  let* found := lift (getFunction (c_abi factory_) "getAddress(bytes32)") in
  let* iface :=
    (match found with
     | Some _ => ret (c_abi factory_)
     | None => let* _ := ident (binds_ethers sc) "ethers" in ret bytes32_iface
     end) in
  let* data := lift (encodeCall iface "getAddress(bytes32)" [VBytes32 salt]) in
  let* result := provider_call factoryAddr data in
  let* vs := lift (decodeFunctionResult iface "getAddress(bytes32)" result) in
  let* sender_ := as_address (Returned (firstn 1 vs)) in
  let* code_ := provider_getCode sender_ in
  let deployed := has_code code_ in
  let* factoryData_ :=
    (if negb deployed
     then lift (encodeFunctionData iface "createAccount(bytes32)" [VBytes32 salt])
     else ret []) in
  ret (mkSenderInit sender_ deployed factoryData_ true).

Definition getSenderAndInit (sc : Scope) (env : Env) (factoryAddr : address)
           (userId : string) : Async SenderInit :=
  let* factory_ := accountFactoryContract env factoryAddr in
  try_catch (resolve_by_string factory_ userId)
            (fun _ => resolve_by_bytes32 sc factory_ factoryAddr userId).

(** *** GET /api/aa/gasless-mint/send *)

Definition accountAbi : Interface :=
  [ mkFragment "execute" [TAddress; TUint256; TBytes] [] false ].

(** The lines under [// encode mint call]. *)
Definition encode_mint_call (sc : Scope) (env : Env) (tokenAddr : address)
           (receiver amountStr : string) : Async bytes :=
  let* tokenAbi := loadArtifact (artifact_RewardToken env) in
  let* _ := ident (binds_ethers sc) "ethers" in
  let* amount := lift (parseUnits amountStr 18) in
  let* f := lift (getFunction tokenAbi "mintTo") in
  let* _ := (match f with
             | None => throw (TypeError "unknown function: mintTo")
             | Some f' =>
                 if Nat.eqb (length (f_inputs f')) 2 then ret tt
                 else throw (Error "types/values length mismatch")
             end) in
  let* to := (match parse_address receiver with
              | Some a => ret a
              | None => throw (TypeError "invalid address")
              end) in
  let* innerCall := lift (encodeFunctionData tokenAbi "mintTo" [VAddress to; VUint amount]) in
  let* _ := ident (binds_ethers sc) "ethers" in
  lift (encodeFunctionData accountAbi "execute"
                           [VAddress tokenAddr; VUint 0; VBytes innerCall]).

(** From [const reqBody] to the end of the [try] block. *)
Definition submit_userOp (bundlerUrl : string) (entryPoint : address) (userOp : UserOp)
           (receiver amountStr : string) : Async Response :=
  let* resp := fetch (mkRequest bundlerUrl "eth_sendUserOperation"
                                [UserOp_json userOp; json_address entryPoint]) in
  let* json := (match snd resp with
                | Some j => ret j
                | None => throw (mkError "SyntaxError" "Unexpected token in JSON")
                end) in
  match json with
  | JNull => throw (TypeError "Cannot read properties of null (reading 'error')")
  | _ =>
      if truthy_opt (prop json "error") then
        ret (res_status_json 400
               (obj [ ("error", Some (JStr "Bundler rejected"));
                      ("details", prop json "error");
                      ("sentUserOp", Some (UserOp_json userOp)) ]))
      else
        ret (res_json
               (obj [ ("ok", Some (JBool true));
                      ("userOpHash", prop json "result");
                      ("sender", Some (json_address (sender userOp)));
                      ("receiver", Some (JStr receiver));
                      ("amount", Some (JStr amountStr)) ]))
  end.

Definition gasless_mint_send (sc : Scope) (env : Env) (rq : Req) : Async Response :=
  catch_500
    (let user := query_or rq "user" "" in
     let receiver := query_or rq "to" "" in
     let amountStr := query_or rq "amount" "10" in
     if String.eqb user "" then ret (res_status_json 400 (error_body "missing ?user="))
     else if negb (startsWith_0x receiver)
     then ret (res_status_json 400 (error_body "bad ?to="))
     else
       match AA_FACTORY env, REWARD_TOKEN env, PAYMASTER env, ENTRYPOINT env with
       | Some factoryAddr, Some tokenAddr, Some paymasterAddr, Some entryPoint =>
           if negb (Boolean_string (BUNDLER_URL env))
           then ret (res_status_json 400 (error_body "missing env vars"))
           else
             let bundlerUrl := default "" (BUNDLER_URL env) in
             let* si := getSenderAndInit sc env factoryAddr user in
             let* callData_ := encode_mint_call sc env tokenAddr receiver amountStr in
             let userOp := assemble_userOp (si_sender si) callData_ paymasterAddr
                                           (si_deployed si) factoryAddr
                                           (si_factoryData si) in
             submit_userOp bundlerUrl entryPoint userOp receiver amountStr
       | _, _, _, _ => ret (res_status_json 400 (error_body "missing env vars"))
       end).

(** *** GET /api/aa/address *)

(** The local [safeCall]: an [eth_call] through the multi-endpoint
    reader, [null] when it fails. *)
Definition safeCall (env : Env) (to : address) (data : Call) : Async (option JSON) :=
  try_catch
    (let* r := rpc env "eth_call"
                   [JObj [("to", json_address to); ("data", json_hex (wire data))];
                    JStr "latest"] in
     ret (Some r))
    (fun _ => ret None).

(** [iface.decodeFunctionResult(key, out)[0]] for an [out] that came
    back from JSON. *)
Definition decode_first (iface : Interface) (key : string) (out : JSON)
  : Completion (option AbiValue) :=
  match out with
  | JStr s =>
      match parse_hex s with
      | Some data =>
          match decodeFunctionResult iface key data with
          | Normal vs => Normal (head vs)
          | Throw e => Throw e
          end
      | None => Throw (TypeError "invalid BytesLike value")
      end
  | _ => Throw (TypeError "invalid BytesLike value")
  end.

Definition value_truthy (o : option AbiValue) : bool :=
  match o with
  | Some v => abi_truthy v
  | None => false
  end.

Definition altIf : Interface := [ mkFragment "getAddress" [TBytes32] [TAddress] true ].

Definition both_reverted : string :=
  "Factory reverted for both signatures (string/bytes32). Check ABI or AA_FACTORY.".

(** Step 3 of [aa_address]: the factory's [implementation()], [null]
    when anything fails; the value is serialised with the response. *)
Definition read_implementation (env : Env) (facIf : Interface) (factoryAddr : address)
  : Async (Completion (option JSON)) :=
  try_catch
    (let* implData := lift (encodeCall facIf "implementation" []) in
     let* implOut := rpc env "eth_call"
                         [JObj [("to", json_address factoryAddr);
                                ("data", json_hex (wire implData))];
                          JStr "latest"] in
     let* v := lift (decode_first facIf "implementation" implOut) in
     ret (abi_json v))
    (fun _ => ret (Normal (Some JNull))).

Definition aa_address (sc : Scope) (env : Env) (rq : Req) : Async Response :=
  catch_500
    (let userId := query_or rq "user" "" in
     if String.eqb userId "" then
       ret (res_status_json 400 (error_body "missing ?user=<string>"))
     else
       match AA_FACTORY env with
       | None => ret (res_status_json 400 (error_body "AA_FACTORY not set"))
       | Some factoryAddr =>
           let* facIf := loadArtifact (artifact_AccountFactory env) in
           (* 1) Try getAddress(string) *)
           let* data := lift (encodeCall facIf "getAddress" [VString userId]) in
           let* out := safeCall env factoryAddr data in
           let smartAccount1 :=
             if truthy_opt out then
               match decode_first facIf "getAddress" (default JNull out) with
               | Normal v => v
               | Throw _ => None
               end
             else None in
           (* 2) If that failed, try getAddress(bytes32) with keccak256(userId) *)
           let* smartAccount :=
             (if negb (value_truthy smartAccount1) then
                let* _ := ident (binds_keccak256 sc) "keccak256" in
                let* _ := ident (binds_toUtf8Bytes sc) "toUtf8Bytes" in
                let salt32 := keccak256 (toUtf8 userId) in
                let* data2 := lift (encodeCall altIf "getAddress" [VBytes32 salt32]) in
                let* out2 := safeCall env factoryAddr data2 in
                if truthy_opt out2 then
                  match decode_first altIf "getAddress" (default JNull out2) with
                  | Normal v => ret v
                  | Throw _ => ret smartAccount1
                  end
                else ret smartAccount1
              else ret smartAccount1) in
           (* 3) Also return implementation *)
           let* implementation := read_implementation env facIf factoryAddr in
           if negb (value_truthy smartAccount) then
             ret (res_status_json 500
                    (obj [ ("error", Some (JStr both_reverted));
                           ("factory", Some (json_address factoryAddr)) ]))
           else
             let* implementation_ := lift implementation in
             let* smartAccount_ := lift (abi_json smartAccount) in
             ret (res_json
                    (obj [ ("userId", Some (JStr userId));
                           ("factory", Some (json_address factoryAddr));
                           ("implementation", implementation_);
                           ("smartAccount", smartAccount_) ]))
       end).

(** *** GET /api/aa/create *)

Definition aa_create (env : Env) (rq : Req) : Async Response :=
  catch_500
    (let user := query_or rq "user" "" in
     if String.eqb user "" then ret (res_status_json 400 (error_body "missing ?user="))
     else
       match AA_FACTORY env with
       | None => ret (res_status_json 400 (error_body "AA_FACTORY not set"))
       | Some FACTORY =>
           let* abi := loadArtifact (artifact_AccountFactory env) in
           let factory_ := mkContract FACTORY abi (Some (relayer env)) in
           let* r := invoke factory_ "getAddress(string)" [VString user] in
           let* sender_ := as_address r in
           let* code_ := provider_getCode sender_ in
           if has_code code_ then
             ret (res_json
                    (obj [ ("ok", Some (JBool true));
                           ("user", Some (JStr user));
                           ("smartAccount", Some (json_address sender_));
                           ("alreadyDeployed", Some (JBool true)) ]))
           else
             let owner := relayer env in
             let* t := invoke factory_ "createAccount" [VString user; VAddress owner] in
             let* txh := as_tx t in
             let* _ := tx_wait in
             let* codeAfter := provider_getCode sender_ in
             let deployed := has_code codeAfter in
             ret (res_json
                    (obj [ ("ok", Some (JBool true));
                           ("user", Some (JStr user));
                           ("smartAccount", Some (json_address sender_));
                           ("deployed", Some (JBool deployed));
                           ("txHash", Some (json_hex txh)) ]))
       end).

(** *** POST /api/aa/deploy *)

(** [String((req.query.k || req.body?.k || '').toString())] *)
Definition query_or_body (rq : Req) (k : string) : string :=
  let q := query_or rq k "" in
  if String.eqb q "" then default "" (lookup_param k (body rq)) else q.

Definition aa_deploy (env : Env) (rq : Req) : Async Response :=
  catch_500
    (let userId := query_or_body rq "user" in
     if String.eqb userId "" then
       ret (res_status_json 400 (error_body "missing ?user=<string>"))
     else
       let ownerStr := query_or_body rq "owner" in
       match AA_FACTORY env with
       | None => ret (res_status_json 400 (error_body "AA_FACTORY not set"))
       | Some factoryAddr =>
           let* abi := loadArtifact (artifact_AccountFactory env) in
           let factory_ := mkContract factoryAddr abi (Some (relayer env)) in
           let* predicted := invoke factory_ "getAddress(string)" [VString userId] in
           let* _ := lift (resolve_method abi "createAccount(string,address)" 2) in
           let* owner :=
             (if String.eqb ownerStr "" then ret (relayer env)
              else match parse_address ownerStr with
                   | Some a => ret a
                   | None => throw (TypeError "invalid address")
                   end) in
           let* t := invoke factory_ "createAccount(string,address)"
                            [VString userId; VAddress owner] in
           let* txh := as_tx t in
           let* blockNumber := tx_wait in
           let* predicted_ := as_address predicted in
           let* code_ := provider_getCode predicted_ in
           let deployed := has_code code_ in
           ret (res_json
                  (obj [ ("userId", Some (JStr userId));
                         ("factory", Some (json_address factoryAddr));
                         ("predicted", Some (json_address predicted_));
                         ("owner", Some (if String.eqb ownerStr "" then json_address owner
                                         else JStr ownerStr));
                         ("txHash", Some (json_hex txh));
                         ("deployed", Some (JBool deployed));
                         ("receiptBlock", Some (JStr (nat_to_string blockNumber))) ]))
       end).
End Handlers.

(** *** GET /api/4337/preflight *)

(** [bundlerResp?.result ?? null] *)
Definition result_or_null (bundlerResp : JSON) : JSON :=
  match prop bundlerResp "result" with
  | None | Some JNull => JNull
  | Some v => v
  end.

Definition preflight (env : Env) : Async Response :=
  catch_500
    (match ENTRYPOINT env with
     | None => ret (res_status_json 400 (error_body "ENTRYPOINT not set"))
     | Some entrypoint =>
         if negb (Boolean_string (BUNDLER_URL env))
         then ret (res_status_json 400 (error_body "BUNDLER_URL not set"))
         else
           let bundlerUrl := default "" (BUNDLER_URL env) in
           let* code_ := provider_getCode entrypoint in
           let epOk := has_code code_ in
           let* r := fetch (mkRequest bundlerUrl "web3_clientVersion" []) in
           let* bundlerResp :=
             (match snd r with
              | Some j => ret j
              | None => throw (mkError "SyntaxError" "Unexpected token in JSON")
              end) in
           ret (res_json
                  (obj [ ("entrypoint", Some (json_address entrypoint));
                         ("entrypointHasCode", Some (JBool epOk));
                         ("bundlerUrl", Some (JStr bundlerUrl));
                         ("bundlerClientVersion", Some (result_or_null bundlerResp)) ]))
     end).

(** ** The token: [RewardToken.sol]

    The functions the contract declares, over its storage and the
    [ERC20] and [Ownable] state it inherits.  Events and the token's name
    and symbol are not modelled; [withdrawETH], which hands control to its
    recipient, is left out.  Where Solidity reverts without a reason
    string (a custom error, ether sent to a function that is not payable,
    calldata the decoder rejects) the reason names the check. *)

Definition uint256_max : N := (2 ^ 256 - 1)%N.

Record Token : Type := mkToken {
  (** [Ownable._owner] *)
  token_owner : address;
  pricePerTokenWei : N;
  minterAllowance : gmap N N;
  (** [ERC20._balances] and [ERC20._totalSupply] *)
  balances : gmap N N;
  totalSupply : N;
  (** [address(this).balance] *)
  token_ether : N;
}.

(** A mapping reads zero where nothing was written. *)
Definition mapping_get (m : gmap N N) (k : N) : N := default 0%N (m !! k).

(** [msg.sender] and [msg.value] *)
Record Msg : Type := mkMsg { msg_sender : address; msg_value : N }.

Definition revert {A} (reason : string) : Completion A :=
  Throw (Error ("execution reverted: " ++ reason)).

(** Arithmetic overflow outside [unchecked]. *)
Definition panic_overflow {A} : Completion A :=
  Throw (Error "execution reverted: panic 0x11").

(** The constructor: [Ownable] rejects the zero address; otherwise the
    price is zero and nothing is minted. *)
Definition Token_constructor (initialOwner : address) : Completion Token :=
  if (initialOwner =? 0)%N then revert "OwnableInvalidOwner"
  else Normal (mkToken initialOwner 0 ∅ ∅ 0 0).

(** [ERC20._mint(to, amount)]: the supply grows under overflow checking,
    the balance inside [unchecked]. *)
Definition ERC20_mint (t : Token) (to : address) (amount : N) : Completion Token :=
  if (to =? 0)%N then revert "ERC20InvalidReceiver"
  else if (uint256_max <? totalSupply t + amount)%N then panic_overflow
  else Normal (mkToken (token_owner t) (pricePerTokenWei t) (minterAllowance t)
                       (<[to := ((mapping_get (balances t) to + amount) mod 2 ^ 256)%N]>
                          (balances t))
                       (totalSupply t + amount) (token_ether t)).

(** A function that is not [payable] rejects ether. *)
Definition nonpayable (m : Msg) (body : Completion Token) : Completion Token :=
  if (msg_value m =? 0)%N then body else revert "non-payable function".

(** [modifier onlyOwner] *)
Definition onlyOwner (t : Token) (m : Msg) (body : Completion Token) : Completion Token :=
  if (msg_sender m =? token_owner t)%N then body else revert "OwnableUnauthorizedAccount".

Definition setPricePerTokenWei (t : Token) (m : Msg) (newPrice : N) : Completion Token :=
  nonpayable m
    (onlyOwner t m
       (Normal (mkToken (token_owner t) newPrice (minterAllowance t) (balances t)
                        (totalSupply t) (token_ether t)))).

Definition setMinterAllowance (t : Token) (m : Msg) (minter : address) (allowance : N)
  : Completion Token :=
  nonpayable m
    (onlyOwner t m
       (Normal (mkToken (token_owner t) (pricePerTokenWei t)
                        (<[minter := allowance]> (minterAllowance t)) (balances t)
                        (totalSupply t) (token_ether t)))).

(** [buy(to, amount)], payable: the ether sent stays with the token. *)
Definition buy (t : Token) (m : Msg) (to : address) (amount : N) : Completion Token :=
  if (to =? 0)%N then revert "bad to"
  else if negb (0 <? amount)%N then revert "amount>0"
  else if (uint256_max <? pricePerTokenWei t * amount)%N then panic_overflow
  else
    let required := (pricePerTokenWei t * amount)%N in
    if negb (msg_value m =? required)%N then revert "wrong ETH"
    else
      match ERC20_mint t to amount with
      | Throw e => Throw e
      | Normal t' =>
          Normal (mkToken (token_owner t') (pricePerTokenWei t') (minterAllowance t')
                          (balances t') (totalSupply t') (token_ether t' + msg_value m))
      end.

Definition mintTo (t : Token) (m : Msg) (to : address) (amount : N) : Completion Token :=
  nonpayable m
    (if (to =? 0)%N then revert "bad to"
     else if negb (0 <? amount)%N then revert "amount>0"
     else
       let a := mapping_get (minterAllowance t) (msg_sender m) in
       if negb (0 <? a)%N then revert "not minter"
       else if negb (a =? uint256_max)%N then
         if negb (amount <=? a)%N then revert "allowance"
         else
           ERC20_mint (mkToken (token_owner t) (pricePerTokenWei t)
                               (<[msg_sender m := (a - amount)%N]> (minterAllowance t))
                               (balances t) (totalSupply t) (token_ether t))
                      to amount
       else ERC20_mint t to amount).

(** The calls a transaction can make to the functions above; the ABI
    decoder rejects an argument outside its type. *)
Inductive TokenCall : Type :=
  | SetPricePerTokenWei (newPrice : N)
  | SetMinterAllowance (minter : address) (allowance : N)
  | Buy (to : address) (amount : N)
  | MintTo (to : address) (amount : N).

Definition is_address (a : N) : bool := (a <? 2 ^ 160)%N.
Definition is_uint256 (n : N) : bool := (n <=? uint256_max)%N.

Definition well_typed (c : TokenCall) : bool :=
  match c with
  | SetPricePerTokenWei p => is_uint256 p
  | SetMinterAllowance a n => is_address a && is_uint256 n
  | Buy a n | MintTo a n => is_address a && is_uint256 n
  end.

Definition Token_call (t : Token) (m : Msg) (c : TokenCall) : Completion Token :=
  if negb (well_typed c) then revert "invalid calldata"
  else
    match c with
    | SetPricePerTokenWei p => setPricePerTokenWei t m p
    | SetMinterAllowance a n => setMinterAllowance t m a n
    | Buy a n => buy t m a n
    | MintTo a n => mintTo t m a n
    end.

(** A transaction that reverts leaves the storage as it was. *)
Definition Token_transact (t : Token) (tx : Msg * TokenCall) : Token :=
  match Token_call t (fst tx) (snd tx) with
  | Normal t' => t'
  | Throw _ => t
  end.

Definition Token_run (t : Token) (txs : list (Msg * TokenCall)) : Token :=
  fold_left Token_transact txs t.

(** ** The account: [MinimalAccount.execute]

    [execute(to, value, data)] run by the clone at [account] for the
    caller [sender]; [inner] is what [to.call{value: value}(data)]
    yields.  An account that was never initialised has the zero address as
    its owner. *)

Definition MinimalAccount_owner (c : Chain) (account : address) : address :=
  default 0%N (owners c !! account).

Definition MinimalAccount_execute (c : Chain) (account sender : address)
           (inner : Completion bytes) : Completion bytes :=
  if negb (sender =? MinimalAccount_owner c account)%N then revert "not owner"
  else
    match inner with
    | Normal ret => Normal ret
    | Throw _ => revert "exec failed"
    end.

(** ** The token handlers

    The [/api/token/...] routes talk to the [RewardToken] at
    [REWARD_TOKEN].  Their world is the world of the other routes together
    with that contract's storage and the ether of the relayer; gas is not
    modelled. *)

Record TokenWorld : Type := mkTokenWorld {
  tw_world : World;
  tw_token : Token;
  tw_relayer_ether : N;
}.

Definition TAsync (A : Type) : Type := TokenWorld -> Completion A * TokenWorld.

Definition tret {A} (a : A) : TAsync A := fun tw => (Normal a, tw).
Definition tthrow {A} (e : JsError) : TAsync A := fun tw => (Throw e, tw).
Definition tlift {A} (c : Completion A) : TAsync A := fun tw => (c, tw).

Definition tbind {A B} (m : TAsync A) (k : A -> TAsync B) : TAsync B :=
  fun tw =>
    match m tw with
    | (Normal a, tw') => k a tw'
    | (Throw e, tw') => (Throw e, tw')
    end.

Notation "'let+' x ':=' m 'in' k" := (tbind m (fun x => k))
  (at level 10, x pattern, m at level 100, k at level 200).

(** A computation of the other routes, run in the token world. *)
Definition of_world {A} (m : Async A) : TAsync A :=
  fun tw =>
    let '(r, w') := m (tw_world tw) in
    (r, mkTokenWorld w' (tw_token tw) (tw_relayer_ether tw)).

(** [catch (e) { res.status(500).json({ error: String(e) }) }] *)
Definition tcatch_500 (m : TAsync Response) : TAsync Response :=
  fun tw =>
    match m tw with
    | (Normal r, tw') => (Normal r, tw')
    | (Throw e, tw') => (Normal (res_status_json 500 (error_body (String_of_error e))), tw')
    end.

(** One request of the provider or signer that concerns the token. *)
Definition token_request {A} (op : TokenWorld -> Completion A * TokenWorld) : TAsync A :=
  fun tw =>
    let w := tw_world tw in
    let asked (x : TokenWorld) :=
      mkTokenWorld (mkWorld (chain (tw_world x)) (node_env w) (S (node_reqs w)) (http_env w)
                            (http_log w))
                   (tw_token x) (tw_relayer_ether x) in
    match node_env w (node_reqs w) with
    | Some e => (Throw e, asked tw)
    | None => let '(r, tw') := op tw in (r, asked tw')
    end.

(** The call a fragment and its arguments denote on the contract. *)
Definition TokenCall_of (f : Fragment) (args : list AbiValue) : option TokenCall :=
  let sig := signature f in
  if String.eqb sig "setPricePerTokenWei(uint256)" then
    match args with
    | [VUint p] => Some (SetPricePerTokenWei (Z.to_N p))
    | _ => None
    end
  else if String.eqb sig "setMinterAllowance(address,uint256)" then
    match args with
    | [VAddress a; VUint n] => Some (SetMinterAllowance a (Z.to_N n))
    | _ => None
    end
  else if String.eqb sig "buy(address,uint256)" then
    match args with
    | [VAddress a; VUint n] => Some (Buy a (Z.to_N n))
    | _ => None
    end
  else if String.eqb sig "mintTo(address,uint256)" then
    match args with
    | [VAddress a; VUint n] => Some (MintTo a (Z.to_N n))
    | _ => None
    end
  else None.

(** The contract's answer to a read call. *)
Definition Token_view (t : Token) (f : Fragment) (args : list AbiValue)
  : Completion (list AbiValue) :=
  let sig := signature f in
  if String.eqb sig "pricePerTokenWei()" then Normal [VUint (Z.of_N (pricePerTokenWei t))]
  else if String.eqb sig "minterAllowance(address)" then
    match args with
    | [VAddress a] => Normal [VUint (Z.of_N (mapping_get (minterAllowance t) a))]
    | _ => revert "invalid calldata"
    end
  else revert "unknown function".

Section TokenHandlers.
Context `{Primitives}.

(** A transaction from [from] carrying [value] wei: estimated first, so
    one that would revert, or that the sender cannot pay for, is never
    broadcast. *)
Definition token_send (from tokenAddr : address) (value : N) (f : Fragment)
           (args : list AbiValue) (tw : TokenWorld) : Completion bytes * TokenWorld :=
  let w := tw_world tw in
  let c := chain w in
  if (tw_relayer_ether tw <? value)%N
  then (Throw (Error "insufficient funds for intrinsic transaction cost"), tw)
  else
    match TokenCall_of f args with
    | None => (Throw (Error "execution reverted"), tw)
    | Some call =>
        match Token_call (tw_token tw) (mkMsg from value) call with
        | Throw e => (Throw e, tw)
        | Normal t' =>
            (Normal (tx_hash from (length (mined c))),
             mkTokenWorld
               (mkWorld (include c (mkTx from tokenAddr (mkCall f args)))
                        (node_env w) (node_reqs w) (http_env w) (http_log w))
               t' (tw_relayer_ether tw - value)%N)
        end
    end.

(** [token[key](...args, { value })] on a [Contract] built with the
    relayer wallet. *)
Definition token_invoke (abi : Interface) (from tokenAddr : address) (value : N)
           (key : string) (args : list AbiValue) : TAsync MethodResult :=
  let+ f := tlift (resolve_method abi key (length args)) in
  if negb (Nat.eqb (length args) (length (f_inputs f))) then
    tthrow (Error "types/values length mismatch")
  else if negb (accepts_all (f_inputs f) args) then tthrow (TypeError "invalid argument")
  else if f_view f then
    let+ vs := token_request (fun tw => (Token_view (tw_token tw) f args, tw)) in
    tret (Returned vs)
  else
    let+ h := token_request (token_send from tokenAddr value f args) in
    tret (Sent h).

(** [current !== MAX] *)
Definition is_not_MAX (r : MethodResult) : bool :=
  match r with
  | Returned [VUint z] => negb (Z.eqb z (2 ^ 256 - 1))
  | _ => true
  end.

(** A string used where the contract expects an address. *)
Definition address_argument (s : string) : TAsync address :=
  match parse_address s with
  | Some a => tret a
  | None => tthrow (TypeError "invalid address")
  end.

(** *** GET /api/token/mint *)

Definition token_mint (env : Env) (rq : Req) : TAsync Response :=
  tcatch_500
    (match REWARD_TOKEN env with
     | None => tret (res_status_json 400 (error_body "REWARD_TOKEN not set"))
     | Some tokenAddr =>
         let to := query_or rq "wallet" "" in
         let amountStr := query_or rq "amount" "10" in
         if negb (startsWith_0x to) then tret (res_status_json 400 (error_body "bad wallet"))
         else
           let+ abi := of_world (loadArtifact (artifact_RewardToken env)) in
           let relayerAddr := relayer env in
           let+ current := token_invoke abi relayerAddr tokenAddr 0 "minterAllowance"
                                        [VAddress relayerAddr] in
           let+ _ :=
             (if is_not_MAX current then
                let+ txA := token_invoke abi relayerAddr tokenAddr 0 "setMinterAllowance"
                                         [VAddress relayerAddr; VUint (2 ^ 256 - 1)] in
                let+ _ := of_world (as_tx txA) in
                let+ _ := of_world tx_wait in
                tret tt
              else tret tt) in
           let+ amount := tlift (parseUnits amountStr 18) in
           let+ _ := tlift (resolve_method abi "mintTo" 2) in
           let+ toAddr := address_argument to in
           let+ tx := token_invoke abi relayerAddr tokenAddr 0 "mintTo"
                                   [VAddress toAddr; VUint amount] in
           let+ txh := of_world (as_tx tx) in
           let+ _ := of_world tx_wait in
           tret (res_json
                   (obj [ ("status", Some (JStr "✅ minted"));
                          ("to", Some (JStr to));
                          ("amount", Some (JStr amountStr));
                          ("txHash", Some (json_hex txh)) ]))
     end).

(** *** GET /api/token/buy *)

(** [BigInt(s)] for a string [s]; [None] when it throws. *)
Variable BigInt_of_string : string -> option Z.

(** A method result used as a bigint operand. *)
Definition as_bigint (r : MethodResult) : TAsync Z :=
  match r with
  | Returned [VUint z] => tret z
  | _ => tthrow (TypeError "Cannot mix BigInt and other types, use explicit conversions")
  end.

Definition token_buy (env : Env) (rq : Req) : TAsync Response :=
  tcatch_500
    (match REWARD_TOKEN env with
     | None => tret (res_status_json 400 (error_body "REWARD_TOKEN not set"))
     | Some tokenAddr =>
         let to := query_or rq "wallet" "" in
         match BigInt_of_string (query_or rq "amount" "10") with
         | None => tthrow (mkError "SyntaxError" "Cannot convert to a BigInt")
         | Some amount =>
             if negb (startsWith_0x to)
             then tret (res_status_json 400 (error_body "bad wallet"))
             else
               let+ abi := of_world (loadArtifact (artifact_RewardToken env)) in
               let relayerAddr := relayer env in
               let+ p := token_invoke abi relayerAddr tokenAddr 0 "pricePerTokenWei" [] in
               let+ price := as_bigint p in
               let value := (price * amount)%Z in
               let+ _ := tlift (resolve_method abi "buy" 2) in
               let+ toAddr := address_argument to in
               let+ tx := token_invoke abi relayerAddr tokenAddr (Z.to_N value) "buy"
                                       [VAddress toAddr; VUint amount] in
               let+ txh := of_world (as_tx tx) in
               let+ _ := of_world tx_wait in
               tret (res_json
                       (obj [ ("status", Some (JStr "✅ bought"));
                              ("to", Some (JStr to));
                              ("amount", Some (JStr (Z_to_string amount)));
                              ("paidWei", Some (JStr (Z_to_string value)));
                              ("txHash", Some (json_hex txh)) ]))
         end
     end).

(** *** GET /api/token/set-price and GET /api/token/set-minter *)

(** ethers' [getBigInt] on a string argument; [None] when it throws. *)
Variable getBigInt : string -> option Z.

Definition uint_argument (s : string) : TAsync Z :=
  match getBigInt s with
  | Some z => tret z
  | None => tthrow (TypeError "invalid BigNumberish string")
  end.

(** [req.query.k] when it is a non-empty string. *)
Definition query_given (rq : Req) (k : string) : option string :=
  match lookup_param k (query rq) with
  | Some v => if String.eqb v "" then None else Some v
  | None => None
  end.

Definition token_set_price (env : Env) (rq : Req) : TAsync Response :=
  tcatch_500
    (match REWARD_TOKEN env with
     | None => tret (res_status_json 400 (error_body "REWARD_TOKEN not set"))
     | Some tokenAddr =>
         match query_given rq "wei" with
         | None => tret (res_status_json 400 (error_body "missing wei"))
         | Some wei =>
             let+ abi := of_world (loadArtifact (artifact_RewardToken env)) in
             let+ _ := tlift (resolve_method abi "setPricePerTokenWei" 1) in
             let+ newPrice := uint_argument wei in
             let+ tx := token_invoke abi (relayer env) tokenAddr 0 "setPricePerTokenWei"
                                     [VUint newPrice] in
             let+ txh := of_world (as_tx tx) in
             let+ _ := of_world tx_wait in
             tret (res_json
                     (obj [ ("status", Some (JStr "✅ price updated"));
                            ("wei", Some (JStr wei));
                            ("tx", Some (json_hex txh)) ]))
         end
     end).

Definition token_set_minter (env : Env) (rq : Req) : TAsync Response :=
  tcatch_500
    (match REWARD_TOKEN env with
     | None => tret (res_status_json 400 (error_body "REWARD_TOKEN not set"))
     | Some tokenAddr =>
         match query_given rq "wallet", query_given rq "allowance" with
         | Some wallet, Some allowance =>
             let+ abi := of_world (loadArtifact (artifact_RewardToken env)) in
             let+ _ := tlift (resolve_method abi "setMinterAllowance" 2) in
             let+ minter := address_argument wallet in
             let+ n := uint_argument allowance in
             let+ tx := token_invoke abi (relayer env) tokenAddr 0 "setMinterAllowance"
                                     [VAddress minter; VUint n] in
             let+ txh := of_world (as_tx tx) in
             let+ _ := of_world tx_wait in
             tret (res_json
                     (obj [ ("status", Some (JStr "✅ minter added"));
                            ("wallet", Some (JStr wallet));
                            ("allowance", Some (JStr allowance));
                            ("tx", Some (json_hex txh)) ]))
         | _, _ => tret (res_status_json 400 (error_body "missing wallet or allowance"))
         end
     end).
End TokenHandlers.

(** ** Observations

    Vocabulary used to state what a run did. *)

(** The world after the requests [rqs] have been issued, oldest first. *)
Definition attempted (w : World) (rqs : list HttpRequest) : World :=
  mkWorld (chain w) (node_env w) (node_reqs w) (http_env w) (rev rqs ++ http_log w).

(** What the [k]-th [rpcFetch] issued from [w] yields when it goes to [url]. *)
Definition answer (w : World) (k : nat) (url method : string) (params : list JSON)
  : Completion JSON :=
  match http_env w (length (http_log w) + k) (mkRequest url method params) with
  | NetFailure e => Throw e
  | HttpResponse st b => rpc_result st b
  end.

Definition requests (method : string) (params : list JSON) (urls : list string)
  : list HttpRequest :=
  List.map (fun u => mkRequest u method params) urls.

(** The value of [lastErr] after the endpoints [urls] have all failed. *)
Fixpoint last_failure (w : World) (urls : list string) (method : string)
         (params : list JSON) (last : option JsError) : option JsError :=
  match urls with
  | [] => last
  | u :: rest =>
      match answer w 0 u method params with
      | Throw e => last_failure (attempted w [mkRequest u method params]) rest method params
                                (Some e)
      | Normal _ => last
      end
  end.

Definition all_fail (w : World) (urls : list string) (method : string) (params : list JSON)
  : Prop :=
  forall i url, urls !! i = Some url -> is_throw (answer w i url method params) = true.

(** The world after one more provider request that left the chain as [c]. *)
Definition served (w : World) (c : Chain) : World :=
  mkWorld c (node_env w) (S (node_reqs w)) (http_env w) (http_log w).

(** Computations that only read the chain. *)
Definition reads_only {A} (m : Async A) : Prop :=
  forall w r w', m w = (r, w') -> chain w' = chain w.

Definition getAddress_fragment : Fragment := mkFragment "getAddress" [TString] [TAddress] true.

Definition createAccount_fragment : Fragment :=
  mkFragment "createAccount" [TString; TAddress] [TAddress] false.

Definition getAddress_bytes32_fragment : Fragment :=
  mkFragment "getAddress" [TBytes32] [TAddress] true.


Section Observations.
Context `{Primitives}.


(** The address the resolver settles on for a factory of this
    repository. *)
Definition resolved_sender (impl factoryAddr : address) (userId : string) : address :=
  if own_getAddress then factoryAddr
  else AccountFactory_getAddress impl factoryAddr userId.

(** The value the first step of [aa_address] leaves in [smartAccount]. *)
Definition primary_account (facIf : Interface) (out : option JSON) : option AbiValue :=
  if truthy_opt out then
    match decode_first facIf "getAddress" (default JNull out) with
    | Normal v => v
    | Throw _ => None
    end
  else None.

(** The value [smartAccount] holds after the second step of [aa_address]. *)
Definition secondary_account (primary : option AbiValue) (out2 : option JSON)
  : option AbiValue :=
  if truthy_opt out2 then
    match decode_first altIf "getAddress" (default JNull out2) with
    | Normal v => v
    | Throw _ => primary
    end
  else primary.

End Observations.

(** Computations every run of which relates the world before to the world
    after by [R]. *)
Definition preserves (R : World -> World -> Prop) {A} (m : Async A) : Prop :=
  forall w r w', m w = (r, w') -> R w w'.

(** Nothing but provider requests happened: same chain, same [fetch]
    traffic. *)
Definition only_node_reads (w w' : World) : Prop :=
  chain w' = chain w /\ http_log w' = http_log w /\ http_env w' = http_env w /\
  node_env w' = node_env w.

(** Nothing but [fetch] requests happened: same chain, no provider
    request. *)
Definition only_fetches (w w' : World) : Prop :=
  chain w' = chain w /\ node_reqs w' = node_reqs w /\ http_env w' = http_env w /\
  node_env w' = node_env w.

(** Computations whose responses all have a status satisfying [P]. *)
Definition answers (P : nat -> Prop) (m : Async Response) : Prop :=
  forall w r w', m w = (Normal r, w') -> P (status r).

(** Every initialised account is a deployed clone with a non-zero owner:
    what [createAccount] establishes, as a property of a chain state. *)
Definition accounts_have_code (c : Chain) : Prop :=
  forall a o, owners c !! a = Some o -> has_code (getCode c a) = true /\ o <> 0%N.

(** [c'] is [c] with more history: the same factories and foreign
    contracts, transactions only added, no owner changed or removed, no
    deployed code changed or removed. *)
Definition chain_extends (c c' : Chain) : Prop :=
  factories c' = factories c /\ foreign c' = foreign c /\
  (exists txs, mined c' = txs ++ mined c) /\
  (forall a o, owners c !! a = Some o -> owners c' !! a = Some o) /\
  (forall a, has_code (getCode c a) = true -> getCode c' a = getCode c a).

(** The same, for what a run of the process leaves behind. *)
Definition history_grows (w w' : World) : Prop :=
  chain_extends (chain w) (chain w') /\
  (accounts_have_code (chain w) -> accounts_have_code (chain w')).

(** A configuration variable that is not set. *)
Definition unset {A} (o : option A) : bool :=
  match o with
  | Some _ => false
  | None => true
  end.

(** A handler that validates before it acts: it always answers; when the
    request is [rejected] the answer is a 400 and nothing was requested
    from the node or the network; otherwise the answer is 200 or 500. *)
Definition validates (handler : Async Response) (rejected : bool) : Prop :=
  forall w, exists r w',
    handler w = (Normal r, w') /\
    if rejected then status r = 400%nat /\ w' = w
    else status r = 200%nat \/ status r = 500%nat.

(** The node answers the next [n] provider requests. *)
Definition node_healthy (n : nat) (w : World) : Prop :=
  forall k, (k < n)%nat -> node_env w (k + node_reqs w) = None.

(** Nothing but [fetch] requests happened, each of them a [method] call
    to one of [urls]. *)
Definition fetched_from (urls : list string) (method : string) (w w' : World) : Prop :=
  only_fetches w w' /\
  exists rqs, http_log w' = rqs ++ http_log w /\
              Forall (fun rq => In (req_url rq) urls /\ req_method rq = method) rqs.

(** The checks [GET /api/aa/gasless-mint/send] makes before it does
    anything. *)
Definition gasless_rejected (env : Env) (rq : Req) : bool :=
  String.eqb (query_or rq "user" "") "" || negb (startsWith_0x (query_or rq "to" ""))
  || unset (AA_FACTORY env) || unset (REWARD_TOKEN env) || unset (PAYMASTER env)
  || negb (Boolean_string (BUNDLER_URL env)) || unset (ENTRYPOINT env).

(** Sum of the balances a token records. *)
Definition sum_balances (b : gmap N N) : N :=
  map_fold (fun _ v acc => (v + acc)%N) 0%N b.

(** The supply is what the holders hold, and fits in a word. *)
Definition supply_ok (t : Token) : Prop :=
  sum_balances (balances t) = totalSupply t /\ (totalSupply t <= uint256_max)%N.

(** Computations that send the node at most [n] requests through the
    provider. *)
Definition asks_at_most {A} (n : nat) (m : Async A) : Prop :=
  forall w r w', m w = (r, w') -> (node_reqs w' <= node_reqs w + n)%nat.

(** The token world after one more provider request that changed
    nothing. *)
Definition tw_asked (tw : TokenWorld) : TokenWorld :=
  mkTokenWorld (served (tw_world tw) (chain (tw_world tw))) (tw_token tw)
               (tw_relayer_ether tw).

(** The token world after the transaction [tx], carrying [value] wei, has
    been included and left the token as [t']. *)
Definition tw_sent (tw : TokenWorld) (tx : Tx) (t' : Token) (value : N) : TokenWorld :=
  mkTokenWorld (served (tw_world tw) (include (chain (tw_world tw)) tx)) t'
               (tw_relayer_ether tw - value)%N.

(** The token with [minter]'s allowance raised to the maximum. *)
Definition unlimited (t : Token) (minter : address) : Token :=
  mkToken (token_owner t) (pricePerTokenWei t)
          (<[minter := uint256_max]> (minterAllowance t)) (balances t) (totalSupply t)
          (token_ether t).

(** A token handler that validates before it acts: it always answers;
    when the request is [rejected] the answer is a 400 and nothing was
    asked of the node; otherwise the answer is 200 or 500. *)
Definition tvalidates (handler : TAsync Response) (rejected : bool) : Prop :=
  forall tw, exists r tw',
    handler tw = (Normal r, tw') /\
    if rejected then status r = 400%nat /\ tw' = tw
    else status r = 200%nat \/ status r = 500%nat.

(** The accounts and factories of the chain are those of [tw]. *)
Definition same_accounts (tw tw' : TokenWorld) : Prop :=
  code (chain (tw_world tw')) = code (chain (tw_world tw)) /\
  owners (chain (tw_world tw')) = owners (chain (tw_world tw)) /\
  factories (chain (tw_world tw')) = factories (chain (tw_world tw)) /\
  http_log (tw_world tw') = http_log (tw_world tw).

(** The analogues of [preserves] and [answers] in the token world. *)
Definition tpreserves (R : TokenWorld -> TokenWorld -> Prop) {A} (m : TAsync A) : Prop :=
  forall tw r tw', m tw = (r, tw') -> R tw tw'.

Definition tanswers (P : nat -> Prop) (m : TAsync Response) : Prop :=
  forall tw r tw', m tw = (Normal r, tw') -> P (status r).

(** Nothing was sent: the token, the relayer's ether and the transaction
    history are as before. *)
Definition nothing_sent (tw tw' : TokenWorld) : Prop :=
  tw_token tw' = tw_token tw /\ tw_relayer_ether tw' = tw_relayer_ether tw /\
  mined (chain (tw_world tw')) = mined (chain (tw_world tw)).

(** A run that kept to the token: the accounts are untouched and the
    token's supply is still the sum of its balances if it was. *)
Definition keeps_to_token (tw tw' : TokenWorld) : Prop :=
  same_accounts tw tw' /\ (supply_ok (tw_token tw) -> supply_ok (tw_token tw')).

(** ** Fixtures

    A concrete platform and concrete worlds, used to run the model. *)

Lemma be_bytes_length len : forall n, length (be_bytes len n) = len.
Proof.
  induction len as [|k IH]; intros n; simpl; [reflexivity|].
  rewrite length_app, IH. simpl. lia.
Qed.

Lemma pow160_nonzero : (2 ^ 160 <> 0)%N.
Proof. apply N.pow_nonzero. discriminate. Qed.

Definition fixture_parse_address (s : string) : option address :=
  match parse_hex s with
  | Some b => if Nat.eqb (length b) 20 then Some (be_value b) else None
  | None => None
  end.

(** A stand-in platform: the hash folds its input into 32 bytes. *)
Definition fixture_platform (own : bool) : Primitives :=
  {| keccak256 := fun b => be_bytes 32 (be_value b * 31 + 7);
     keccak256_length := fun b => be_bytes_length 32 _;
     predictDeterministicAddress :=
       fun impl salt deployer => ((impl + be_value salt + deployer) mod 2 ^ 160)%N;
     predicted_is_address :=
       fun impl salt deployer => N.mod_lt (impl + be_value salt + deployer) (2 ^ 160) pow160_nonzero;
     parse_address := fixture_parse_address;
     tx_hash := fun from n => be_bytes 32 (from * 65536 + N.of_nat n);
     own_getAddress := own |}.

Definition empty_chain : Chain := mkChain ∅ ∅ ∅ ∅ [].

(** A world with a healthy node and the given network answers. *)
Definition world_of (c : Chain) (http : nat -> HttpRequest -> HttpOutcome) : World :=
  mkWorld c (fun _ => None) 0 http [].

Definition reply_result (r : JSON) : HttpOutcome :=
  HttpResponse 200 (Some (JObj [("jsonrpc", JStr "2.0"); ("id", JNum 1); ("result", r)])).

Definition reply_error (code : Z) (msg : string) : HttpOutcome :=
  HttpResponse 200
    (Some (JObj [("jsonrpc", JStr "2.0"); ("id", JNum 1);
                 ("error", JObj [("code", JNum code); ("message", JStr msg)])])).

(** Endpoint [a] is down, endpoint [b] answers. *)
Definition flaky_http (_ : nat) (rq : HttpRequest) : HttpOutcome :=
  if String.eqb (req_url rq) "http://a" then NetFailure (TypeError "fetch failed")
  else if String.eqb (req_url rq) "http://b" then reply_result (JStr "0x2a")
  else reply_error (-32000) "header not found".

(** The functions [RewardToken.sol] declares itself. *)
Definition RewardToken_abi : Interface :=
  [ mkFragment "pricePerTokenWei" [] [TUint256] true;
    mkFragment "minterAllowance" [TAddress] [TUint256] true;
    mkFragment "setPricePerTokenWei" [TUint256] [] false;
    mkFragment "setMinterAllowance" [TAddress; TUint256] [] false;
    mkFragment "withdrawETH" [TAddress; TUint256] [] false;
    mkFragment "buy" [TAddress; TUint256] [] false;
    mkFragment "mintTo" [TAddress; TUint256] [] false ].

Definition fixture_env : Env :=
  mkEnv (Some "http://a") (Some "http://b")
        (Some 0xFAC70)%N (Some 0x70CE)%N (Some 0x9A7)%N
        (Some "http://bundler") (Some 0xE9)%N 0x4E1A%N
        (Some AccountFactory_abi) (Some RewardToken_abi).

(** The same process with no read endpoint configured. *)
Definition fixture_env_no_reads : Env :=
  mkEnv None (Some "")
        (Some 0xFAC70)%N (Some 0x70CE)%N (Some 0x9A7)%N
        (Some "http://bundler") (Some 0xE9)%N 0x4E1A%N
        (Some AccountFactory_abi) (Some RewardToken_abi).

(** An artifact whose [createAccount] takes the user id alone. *)
Definition one_argument_factory_abi : Interface :=
  [ mkFragment "getAddress" [TString] [TAddress] true;
    mkFragment "createAccount" [TString] [TAddress] false ].

Definition fixture_env_one_argument : Env :=
  mkEnv (Some "http://a") (Some "http://b")
        (Some 0xFAC70)%N (Some 0x70CE)%N (Some 0x9A7)%N
        (Some "http://bundler") (Some 0xE9)%N 0x4E1A%N
        (Some one_argument_factory_abi) (Some RewardToken_abi).

(** A chain with an [AccountFactory] at [0xFAC70] and no account yet. *)
Definition fixture_chain : Chain :=
  mkChain {[ 0xFAC70%N := [Byte.x60; Byte.x80; Byte.x60; Byte.x40] ]}
          {[ 0xFAC70%N := 0x1A9%N ]} ∅ ∅ [].

Definition alice_request : Req :=
  mkReq [("user", "alice"); ("to", "0x00000000000000000000000000000000000000aa");
         ("amount", "10")] [].

(** A bundler that rejects every operation. *)
Definition rejecting_bundler (_ : nat) (_ : HttpRequest) : HttpOutcome :=
  HttpResponse 200
    (Some (JObj [("jsonrpc", JStr "2.0"); ("id", JNum 1);
                 ("error", JObj [("message", JStr "insufficient paymaster balance")])])).

(** A bundler that accepts every operation. *)
Definition accepting_bundler (_ : nat) (_ : HttpRequest) : HttpOutcome :=
  reply_result (JStr "0x5e11").

(** The call data of the fixture request under the repaired scope. *)
Definition fixture_callData : bytes :=
  Eval vm_compute in
    match fst (@encode_mint_call (fixture_platform false) repaired_scope fixture_env 0x70CE%N
                                 "0x00000000000000000000000000000000000000aa" "10"
                                 (world_of fixture_chain accepting_bundler)) with
    | Normal b => b
    | Throw _ => []
    end.

Definition fixture_innerCall : bytes :=
  Eval vm_compute in
    match @decodeFunctionData (fixture_platform false) accountAbi "execute" fixture_callData with
    | Normal [_; _; VBytes inner] => inner
    | _ => []
    end.

(** Read endpoints that answer every call with the word of [a]. *)
Definition word_http (a : address) (_ : nat) (_ : HttpRequest) : HttpOutcome :=
  reply_result (JStr (hexlify (be_bytes 32 a))).

(** A bundler that answers a [web3_clientVersion] question with an error. *)
Definition unhelpful_bundler (_ : nat) (_ : HttpRequest) : HttpOutcome :=
  HttpResponse 404
    (Some (JObj [("jsonrpc", JStr "2.0"); ("id", JNum 1);
                 ("error", JObj [("message", JStr "method not found")])])).

(** A token owned by the relayer, at 5 wei apiece, with one limited
    minter. *)
Definition fixture_token : Token :=
  mkToken 0x4E1A%N 5 {[ 0xB0B%N := 100%N ]} ∅ 0 0.

(** The fixture world with that token and a relayer holding one ether. *)
Definition fixture_token_world : TokenWorld :=
  mkTokenWorld (world_of fixture_chain flaky_http) fixture_token (10 ^ 18).

(** The same process run with the limited minter's key. *)
Definition fixture_env_minter : Env :=
  mkEnv (Some "http://a") (Some "http://b")
        (Some 0xFAC70)%N (Some 0x70CE)%N (Some 0x9A7)%N
        (Some "http://bundler") (Some 0xE9)%N 0xB0B%N
        (Some AccountFactory_abi) (Some RewardToken_abi).

(** A [BigInt] that reads unsigned decimal literals. *)
Definition fixture_BigInt (s : string) : option Z :=
  let cs := list_ascii_of_string s in
  if forallb is_digit cs && negb (Nat.eqb (length cs) 0)
  then Some (Z.of_N (digits_value cs))
  else None.

Definition mint_request : Req :=
  mkReq [("wallet", "0x00000000000000000000000000000000000000aa"); ("amount", "2")] [].

(** * Properties *)

(** ** JSON-RPC client *)

Lemma rpcFetch_run url method params w :
  rpcFetch url method params w =
  (answer w 0 url method params, attempted w [mkRequest url method params]).
Proof.
  unfold rpcFetch, bind, fetch, answer, attempted, lift.
  rewrite Nat.add_0_r.
  destruct (http_env w (length (http_log w)) (mkRequest url method params)); reflexivity.
Qed.

Lemma answer_shift w rq k url method params :
  answer (attempted w [rq]) k url method params = answer w (S k) url method params.
Proof.
  unfold answer, attempted. simpl.
  replace (S (length (http_log w) + k)) with (length (http_log w) + S k)%nat by lia.
  reflexivity.
Qed.

Lemma attempted_app w xs ys : attempted (attempted w xs) ys = attempted w (xs ++ ys).
Proof.
  unfold attempted. simpl. rewrite rev_app_distr, <- app_assoc. reflexivity.
Qed.

(** C6: on a response, [rpcFetch] returns the [result] field of the parsed
    body whenever it is defined; otherwise it throws an [Error] whose
    message is the server's [error.message] when there is one, else
    ["rpc error <status>"]; a body that is not JSON counts as [{}] and so
    yields the latter. *)
Theorem rpcFetch_result_or_error url method params w st body :
  http_env w (length (http_log w)) (mkRequest url method params) = HttpResponse st body ->
  let j := default (JObj []) body in
  let out := fst (rpcFetch url method params w) in
  (forall r, prop j "result" = Some r -> out = Normal r) /\
  (prop j "result" = None ->
   forall m, error_message j = Some m -> truthy m = true ->
             out = Throw (Error (js_to_string m))) /\
  (prop j "result" = None -> truthy_opt (error_message j) = false ->
   out = Throw (Error ("rpc error " ++ nat_to_string st))) /\
  (body = None -> out = Throw (Error ("rpc error " ++ nat_to_string st))).
Proof.
  intros Hresp j out.
  assert (Hout : out = rpc_result st body).
  { unfold out. rewrite rpcFetch_run. unfold answer. simpl.
    rewrite Nat.add_0_r, Hresp. reflexivity. }
  assert (Hj : rpc_result st body =
               match (if truthy j then prop j "result" else None) with
               | Some r => Normal r
               | None =>
                   Throw (Error (if truthy_opt (error_message j)
                                 then match error_message j with
                                      | Some m => js_to_string m
                                      | None => ""
                                      end
                                 else "rpc error " ++ nat_to_string st))
               end).
  { unfold rpc_result, j. destruct body; reflexivity. }
  rewrite Hout, Hj. clear Hout Hj.
  repeat split.
  - intros r Hr. destruct j; simpl in Hr; try discriminate. simpl. rewrite Hr. reflexivity.
  - intros Hnone m Hm Ht. rewrite Hnone, Hm. simpl. rewrite Ht.
    destruct (truthy j); reflexivity.
  - intros Hnone Hf. rewrite Hnone, Hf. destruct (truthy j); reflexivity.
  - intros Hb. unfold j. rewrite Hb. reflexivity.
Qed.

Lemma rpcFetch_result_or_error_witness :
  let ok := world_of empty_chain (fun _ _ => reply_result (JStr "0x1")) in
  let ko := world_of empty_chain (fun _ _ => reply_error (-32000) "header not found") in
  let bad := world_of empty_chain (fun _ _ => HttpResponse 502 None) in
  fst (rpcFetch "http://a" "eth_blockNumber" [] ok) = Normal (JStr "0x1") /\
  fst (rpcFetch "http://a" "eth_blockNumber" [] ko) = Throw (Error "header not found") /\
  fst (rpcFetch "http://a" "eth_blockNumber" [] bad) = Throw (Error "rpc error 502").
Proof.
  intros ok ko bad. split; [|split].
  - apply (proj1 (rpcFetch_result_or_error "http://a" "eth_blockNumber" [] ok _ _ eq_refl)).
    reflexivity.
  - apply (proj1 (proj2 (rpcFetch_result_or_error "http://a" "eth_blockNumber" [] ko _ _
                           eq_refl)) eq_refl (JStr "header not found")); reflexivity.
  - apply (proj2 (proj2 (proj2 (rpcFetch_result_or_error "http://a" "eth_blockNumber" [] bad
                                  _ _ eq_refl)))).
    reflexivity.
Defined.

(** ** Multi-endpoint reader *)

Lemma all_fail_tail w u urls method params :
  all_fail w (u :: urls) method params ->
  all_fail (attempted w [mkRequest u method params]) urls method params.
Proof.
  intros Hall i url Hi. rewrite answer_shift. apply (Hall (S i) url). exact Hi.
Qed.

Lemma rpc_from_failures pre :
  forall rest last method params w,
    all_fail w pre method params ->
    rpc_from (pre ++ rest) last method params w =
    rpc_from rest (last_failure w pre method params last) method params
             (attempted w (requests method params pre)).
Proof.
  induction pre as [|u pre IH]; intros rest last method params w Hall.
  - simpl. unfold attempted. simpl. destruct w; reflexivity.
  - simpl. unfold try_catch at 1. rewrite rpcFetch_run.
    pose proof (Hall 0%nat u eq_refl) as H0.
    destruct (answer w 0 u method params) as [r|e] eqn:Ha; [discriminate|].
    rewrite (IH rest (Some e) method params _ (all_fail_tail _ _ _ _ _ Hall)).
    rewrite attempted_app. reflexivity.
Qed.

Lemma last_failure_snoc pre :
  forall w u method params last e,
    all_fail w pre method params ->
    answer w (length pre) u method params = Throw e ->
    last_failure w (pre ++ [u]) method params last = Some e.
Proof.
  induction pre as [|p pre IH]; intros w u method params last e Hall Hu.
  - simpl in *. rewrite Hu. reflexivity.
  - simpl. pose proof (Hall 0%nat p eq_refl) as H0.
    destruct (answer w 0 p method params) as [r|e0] eqn:Ha; [discriminate|].
    apply IH.
    + apply all_fail_tail. exact Hall.
    + rewrite answer_shift. exact Hu.
Qed.

Lemma answer_attempted w rqs k url method params :
  answer (attempted w rqs) k url method params = answer w (length rqs + k) url method params.
Proof.
  unfold answer, attempted. simpl.
  rewrite length_app, length_rev.
  replace (length rqs + length (http_log w) + k)%nat
    with (length (http_log w) + (length rqs + k))%nat by lia.
  reflexivity.
Qed.

(** C2: the reader tries the endpoints in their configured order.  The
    first endpoint whose call succeeds gives the result and none after it
    is contacted; when only the last of N answers, exactly N requests are
    made; when all of N >= 1 fail, the error of the last one is thrown. *)
Theorem rpc_first_success_in_order (urls : list string) method params w :
  (forall env, READS env = urls ->
               rpc env method params w = rpc_from urls None method params w) /\
  (forall pre u post r,
      urls = pre ++ u :: post ->
      all_fail w pre method params ->
      answer w (length pre) u method params = Normal r ->
      rpc_from urls None method params w =
      (Normal r, attempted w (requests method params (pre ++ [u])))) /\
  (forall pre u r,
      urls = pre ++ [u] ->
      all_fail w pre method params ->
      answer w (length pre) u method params = Normal r ->
      fst (rpc_from urls None method params w) = Normal r /\
      http_log (snd (rpc_from urls None method params w)) =
        rev (requests method params urls) ++ http_log w /\
      length (http_log (snd (rpc_from urls None method params w))) =
        (length urls + length (http_log w))%nat) /\
  (forall pre u e,
      urls = pre ++ [u] ->
      all_fail w pre method params ->
      answer w (length pre) u method params = Throw e ->
      rpc_from urls None method params w =
      (Throw e, attempted w (requests method params urls))).
Proof.
  assert (Hfirst : forall pre u post r,
             urls = pre ++ u :: post ->
             all_fail w pre method params ->
             answer w (length pre) u method params = Normal r ->
             rpc_from urls None method params w =
             (Normal r, attempted w (requests method params (pre ++ [u])))).
  { intros pre u post r -> Hall Hu.
    rewrite (rpc_from_failures pre (u :: post) None method params w Hall).
    simpl. unfold try_catch. rewrite rpcFetch_run.
    rewrite answer_attempted. unfold requests at 1. rewrite length_map, Nat.add_0_r, Hu.
    rewrite attempted_app. unfold requests. rewrite map_app. reflexivity. }
  split; [intros env <-; reflexivity|].
  split; [exact Hfirst|]. split.
  - intros pre u r Hurls Hall Hu.
    rewrite (Hfirst pre u [] r Hurls Hall Hu). subst urls. simpl.
    repeat split. rewrite length_app, length_rev. unfold requests. rewrite length_map.
    reflexivity.
  - intros pre u e -> Hall Hu.
    assert (Hall' : all_fail w (pre ++ [u]) method params).
    { intros i url Hi. destruct (decide (i < length pre)%nat) as [Hlt|Hge].
      - apply Hall. rewrite lookup_app_l in Hi by exact Hlt. exact Hi.
      - rewrite lookup_app_r in Hi by lia.
        destruct (i - length pre)%nat as [|k] eqn:Hk; simpl in Hi; [|discriminate].
        injection Hi as <-. replace i with (length pre) by lia. rewrite Hu. reflexivity. }
    pose proof (rpc_from_failures (pre ++ [u]) [] None method params w Hall') as Hrun.
    rewrite app_nil_r in Hrun. rewrite Hrun. simpl. unfold throw.
    rewrite (last_failure_snoc pre w u method params None e Hall Hu). reflexivity.
Qed.

Lemma rpc_first_success_in_order_witness :
  let w := world_of empty_chain flaky_http in
  rpc fixture_env "eth_chainId" [] w =
    (Normal (JStr "0x2a"),
     attempted w (requests "eth_chainId" [] ["http://a"; "http://b"])) /\
  length (http_log (snd (rpc_from ["http://a"; "http://b"] None "eth_chainId" [] w))) = 2%nat /\
  rpc_from ["http://a"; "http://c"] None "eth_chainId" [] w =
    (Throw (Error "header not found"),
     attempted w (requests "eth_chainId" [] ["http://a"; "http://c"])).
Proof.
  intros w.
  assert (Ha : all_fail w ["http://a"] "eth_chainId" []).
  { intros [|[|i]] url Hi; simpl in Hi; try discriminate. injection Hi as <-. reflexivity. }
  pose proof (rpc_first_success_in_order ["http://a"; "http://b"] "eth_chainId" [] w)
    as (Henv & Hfirst & Hlast & _).
  pose proof (rpc_first_success_in_order ["http://a"; "http://c"] "eth_chainId" [] w)
    as (_ & _ & _ & Hfail).
  split; [|split].
  - rewrite (Henv fixture_env eq_refl).
    exact (Hfirst ["http://a"] "http://b" [] (JStr "0x2a") eq_refl Ha eq_refl).
  - exact (proj2 (proj2 (Hlast ["http://a"] "http://b" (JStr "0x2a") eq_refl Ha eq_refl))).
  - exact (Hfail ["http://a"] "http://c" (Error "header not found") eq_refl Ha eq_refl).
Defined.

(** C10: with no read endpoint configured the reader contacts nobody (the
    world is unchanged) and throws ["all RPCs failed"]. *)
Theorem rpc_no_endpoints env method params w :
  Boolean_string (READ_RPC_1 env) = false ->
  Boolean_string (READ_RPC_2 env) = false ->
  READS env = [] /\
  rpc env method params w = (Throw (Error "all RPCs failed"), w).
Proof.
  intros H1 H2.
  assert (HR : READS env = []).
  { unfold READS. simpl. rewrite H1, H2. reflexivity. }
  split; [exact HR|]. unfold rpc. rewrite HR. reflexivity.
Qed.

Lemma rpc_no_endpoints_witness :
  let w := world_of empty_chain flaky_http in
  READS fixture_env_no_reads = [] /\
  rpc fixture_env_no_reads "eth_call" [JStr "latest"] w =
    (Throw (Error "all RPCs failed"), w).
Proof.
  intros w. apply (rpc_no_endpoints fixture_env_no_reads "eth_call" [JStr "latest"] w);
    reflexivity.
Defined.

(** ** Reasoning about asynchronous code *)

Lemma bind_Normal_inv {A B} (m : Async A) (k : A -> Async B) w b w' :
  bind m k w = (Normal b, w') ->
  exists a w1, m w = (Normal a, w1) /\ k a w1 = (Normal b, w').
Proof.
  unfold bind. destruct (m w) as [[a|e] w1]; intros Hk; [eauto | discriminate].
Qed.

Lemma lift_Normal_inv {A} (c : Completion A) w a w' :
  lift c w = (Normal a, w') -> c = Normal a /\ w' = w.
Proof. unfold lift. intros [= -> ->]. split; reflexivity. Qed.

Lemma ret_inv {A} (x : A) w a w' : ret x w = (Normal a, w') -> a = x /\ w' = w.
Proof. unfold ret. intros [= -> ->]. split; reflexivity. Qed.

Lemma try_catch_Normal_inv {A} (m : Async A) h w a w' :
  try_catch m h w = (Normal a, w') ->
  m w = (Normal a, w') \/ exists e w1, m w = (Throw e, w1) /\ h e w1 = (Normal a, w').
Proof.
  unfold try_catch. destruct (m w) as [[x|e] w1]; intros Hk.
  - left. exact Hk.
  - right. eauto.
Qed.

Lemma bind_step {A B} (m : Async A) (k : A -> Async B) w a w1 :
  m w = (Normal a, w1) -> bind m k w = k a w1.
Proof. unfold bind. intros ->. reflexivity. Qed.

Lemma bind_ret_l {A B} (a : A) (k : A -> Async B) : bind (ret a) k = k a.
Proof. reflexivity. Qed.

Lemma bind_lift_l {A B} (a : A) (k : A -> Async B) : bind (lift (Normal a)) k = k a.
Proof. reflexivity. Qed.

Lemma bind_assoc_run {A B C} (m : Async A) (k : A -> Async B) (h : B -> Async C) w :
  bind (bind m k) h w = bind m (fun a => bind (k a) h) w.
Proof. unfold bind. destruct (m w) as [[a|e] w1]; reflexivity. Qed.

Ltac inv_async :=
  repeat match goal with
    | H : bind _ _ _ = (Normal _, _) |- _ =>
        let a := fresh "a" in let w1 := fresh "w" in
        let H1 := fresh "Hstep" in let H2 := fresh "Hrest" in
        apply bind_Normal_inv in H; destruct H as (a & w1 & H1 & H2)
    | H : lift _ _ = (Normal _, _) |- _ =>
        apply lift_Normal_inv in H; destruct H as [H ->]
    | H : ret _ _ = (Normal _, _) |- _ =>
        apply ret_inv in H; destruct H as [-> ->]
    | H : throw _ _ = (Normal _, _) |- _ => discriminate H
    end.

(** ** UserOperation builder *)

(** C8: whatever the sender, call data, paymaster and deployment state,
    the assembled operation carries the fixed gas and fee figures, the
    nonce ['0x0'] (zero) and the empty signature ['0x']. *)
Theorem userOp_placeholders sender_ callData_ paymasterAddr deployed factoryAddr factoryData_ :
  let op := assemble_userOp sender_ callData_ paymasterAddr deployed factoryAddr
                            factoryData_ in
  nonce op = "0x0" /\ hex_quantity (nonce op) = Some 0%N /\
  signature_ op = [] /\ paymasterData op = [] /\
  hex_quantity (callGasLimit op) = Some 21000%N /\
  hex_quantity (verificationGasLimit op) = Some 10000000%N /\
  hex_quantity (preVerificationGas op) = Some 100000%N /\
  hex_quantity (maxFeePerGas op) = Some 1000000000%N /\
  hex_quantity (maxPriorityFeePerGas op) = Some 1000000000%N /\
  sender op = sender_ /\ callData op = callData_ /\ paymaster op = paymasterAddr.
Proof.
  destruct deployed; cbv zeta; unfold assemble_userOp; simpl;
    repeat split; reflexivity.
Qed.

Section Builder.
Context `{Primitives}.

Lemma selector_length f : length (selector f) = 4%nat.
Proof.
  unfold selector. rewrite length_firstn, keccak256_length. reflexivity.
Qed.






End Builder.


(** ** Bundler submitter *)

(** C5: when the bundler's reply carries an [error] object the client
    gets status 400 with that object under [details] and the whole
    operation under [sentUserOp]; when it carries a [result] and no error
    the client gets the result as [userOpHash]. *)
Theorem submit_userOp_outcome bundlerUrl entryPoint userOp receiver amountStr w st json :
  http_env w (length (http_log w))
           (mkRequest bundlerUrl "eth_sendUserOperation"
                      [UserOp_json userOp; json_address entryPoint])
  = HttpResponse st (Some json) ->
  let out := fst (catch_500 (submit_userOp bundlerUrl entryPoint userOp receiver amountStr) w) in
  (forall err,
      prop json "error" = Some (JObj err) ->
      out = Normal (res_status_json 400
                      (JObj [ ("error", JStr "Bundler rejected");
                              ("details", JObj err);
                              ("sentUserOp", UserOp_json userOp) ]))) /\
  (forall h,
      prop json "result" = Some h ->
      truthy_opt (prop json "error") = false ->
      exists rest,
        out = Normal (res_json (JObj (("ok", JBool true) :: ("userOpHash", h) :: rest))) /\
        rest = [ ("sender", json_address (sender userOp));
                 ("receiver", JStr receiver);
                 ("amount", JStr amountStr) ]).
Proof.
  intros Hresp out.
  unfold out, catch_500, try_catch, submit_userOp, bind, fetch. rewrite Hresp.
  cbn [fst snd]. split.
  - intros err Herr. destruct json; simpl in Herr; try discriminate.
    unfold ret. cbn [prop]. rewrite Herr. reflexivity.
  - intros h Hh Hne. destruct json; simpl in Hh; try discriminate.
    unfold ret. cbn [prop] in *. rewrite Hne, Hh. eexists. split; reflexivity.
Qed.

Lemma submit_userOp_outcome_witness :
  let op := assemble_userOp 0xACC0%N [] 0x9A7%N true 0xFAC70%N [] in
  fst (catch_500 (submit_userOp "http://bundler" 0xE9%N op "0xaa" "10")
                 (world_of empty_chain rejecting_bundler)) =
    Normal (res_status_json 400
              (JObj [ ("error", JStr "Bundler rejected");
                      ("details", JObj [("message", JStr "insufficient paymaster balance")]);
                      ("sentUserOp", UserOp_json op) ])) /\
  exists rest,
    fst (catch_500 (submit_userOp "http://bundler" 0xE9%N op "0xaa" "10")
                   (world_of empty_chain accepting_bundler)) =
      Normal (res_json (JObj (("ok", JBool true) :: ("userOpHash", JStr "0x5e11") :: rest))).
Proof.
  intros op. split.
  - apply (proj1 (submit_userOp_outcome "http://bundler" 0xE9%N op "0xaa" "10"
                    (world_of empty_chain rejecting_bundler) _ _ eq_refl)).
    reflexivity.
  - destruct (proj2 (submit_userOp_outcome "http://bundler" 0xE9%N op "0xaa" "10"
                       (world_of empty_chain accepting_bundler) _ _ eq_refl)
                    (JStr "0x5e11") eq_refl eq_refl) as (rest & Hout & _).
    exists rest. exact Hout.
Defined.

(** ** Words on the wire *)

Lemma byte_of_N_value n : Byte.to_N (byte_of_N n) = (n mod 256)%N.
Proof.
  unfold byte_of_N.
  assert (Hlt : (n mod 256 < 256)%N) by (apply N.mod_lt; discriminate).
  destruct (Byte.of_N (n mod 256)) as [b|] eqn:Hb.
  - apply Byte.to_of_N in Hb. exact Hb.
  - apply Byte.of_N_None_iff in Hb. lia.
Qed.

Lemma be_value_snoc b x : be_value (b ++ [x]) = (be_value b * 256 + Byte.to_N x)%N.
Proof. unfold be_value. rewrite fold_left_app. reflexivity. Qed.

Lemma be_value_be_bytes len : forall n, be_value (be_bytes len n) = (n mod 256 ^ N.of_nat len)%N.
Proof.
  induction len as [|k IH]; intros n.
  - simpl. rewrite N.mod_1_r. reflexivity.
  - cbn [be_bytes]. rewrite be_value_snoc, IH, byte_of_N_value.
    rewrite Nat2N.inj_succ, N.pow_succ_r'.
    rewrite (N.Div0.mod_mul_r n 256 (256 ^ N.of_nat k)). lia.
Qed.

Lemma be_value_word n : (n < 2 ^ 256)%N -> be_value (be_bytes 32 n) = n.
Proof.
  intros Hn. rewrite be_value_be_bytes. apply N.mod_small.
  change (256 ^ N.of_nat 32)%N with (2 ^ 256)%N. exact Hn.
Qed.

Lemma firstn_all_length {A} (l : list A) n : length l = n -> firstn n l = l.
Proof. intros <-. apply firstn_all. Qed.

Lemma abi_encode_address a : abi_encode [VAddress a] = be_bytes 32 a.
Proof.
  unfold abi_encode. cbn [abi_encode_from value_is_dynamic head_word].
  rewrite !app_nil_r. reflexivity.
Qed.

Lemma slice_whole (d : bytes) n : length d = n -> slice 0 n d = Some d.
Proof.
  intros Hn. unfold slice. cbn [Nat.add skipn].
  rewrite Hn, Nat.leb_refl, <- Hn, firstn_all. reflexivity.
Qed.

Lemma decode_param_word_0 a t :
  decode_param (be_bytes 32 a) 0 t =
  match t with
  | TAddress =>
      if (be_value (be_bytes 32 a) <? 2 ^ 160)%N
      then Some (VAddress (be_value (be_bytes 32 a))) else None
  | TUint256 => Some (VUint (Z.of_N (be_value (be_bytes 32 a))))
  | TBytes32 => Some (VBytes32 (be_bytes 32 a))
  | TBytes =>
      option_map VBytes (decode_dynamic (be_bytes 32 a) (N.to_nat (be_value (be_bytes 32 a))))
  | TString =>
      option_map (fun b => VString (string_of_list_byte b))
                 (decode_dynamic (be_bytes 32 a) (N.to_nat (be_value (be_bytes 32 a))))
  end.
Proof.
  unfold decode_param. change (32 * 0)%nat with 0%nat.
  rewrite (slice_whole _ 32 (be_bytes_length 32 a)). reflexivity.
Qed.

(** Decoding the return data of a function that returns one address. *)
Lemma decode_address_word a :
  (a < 2 ^ 160)%N -> abi_decode [TAddress] (abi_encode [VAddress a]) = Some [VAddress a].
Proof.
  intros Ha. rewrite abi_encode_address. unfold abi_decode. cbn [abi_decode_from].
  rewrite decode_param_word_0.
  rewrite be_value_word by (eapply N.lt_trans; [exact Ha | reflexivity]).
  apply N.ltb_lt in Ha. rewrite Ha. reflexivity.
Qed.

(** Return data of one word decodes to one address only as [[TAddress]]. *)
Lemma decode_one_address outs a v :
  (a < 2 ^ 160)%N ->
  abi_decode outs (abi_encode [VAddress a]) = Some [VAddress v] -> v = a.
Proof.
  intros Ha. rewrite abi_encode_address. unfold abi_decode.
  destruct outs as [|t [|t' outs]]; cbn [abi_decode_from].
  - discriminate.
  - rewrite decode_param_word_0.
    rewrite be_value_word by (eapply N.lt_trans; [exact Ha | reflexivity]).
    destruct t.
    + destruct (a <? 2 ^ 160)%N; [intros [= <-]; reflexivity | discriminate].
    + discriminate.
    + discriminate.
    + destruct (decode_dynamic (be_bytes 32 a) (N.to_nat a)); discriminate.
    + destruct (decode_dynamic (be_bytes 32 a) (N.to_nat a)); discriminate.
  - destruct (decode_param (be_bytes 32 a) 0 t); [|discriminate].
    destruct (decode_param (be_bytes 32 a) 1 t');
      [|discriminate].
    destruct (abi_decode_from (be_bytes 32 a) 2 outs); discriminate.
Qed.

(** ** Node requests *)

Lemma node_request_run {A} (op : Chain -> Completion A * Chain) w :
  node_request op w =
  match node_env w (node_reqs w) with
  | Some e => (Throw e, served w (chain w))
  | None => (fst (op (chain w)), served w (snd (op (chain w))))
  end.
Proof.
  unfold node_request, served. destruct (node_env w (node_reqs w)); [reflexivity|].
  destruct (op (chain w)); reflexivity.
Qed.

Lemma reads_only_ret {A} (a : A) : reads_only (ret a).
Proof. intros w r w' [= _ <-]. reflexivity. Qed.

Lemma reads_only_throw {A} e : reads_only (@throw A e).
Proof. intros w r w' [= _ <-]. reflexivity. Qed.

Lemma reads_only_lift {A} (c : Completion A) : reads_only (lift c).
Proof. intros w r w' [= _ <-]. reflexivity. Qed.

Lemma reads_only_ident b name : reads_only (ident b name).
Proof. unfold ident. destruct b; [apply reads_only_ret | apply reads_only_throw]. Qed.

Lemma reads_only_bind {A B} (m : Async A) (k : A -> Async B) :
  reads_only m -> (forall a, reads_only (k a)) -> reads_only (bind m k).
Proof.
  intros Hm Hk w r w'. unfold bind.
  destruct (m w) as [[a|e] w1] eqn:Hmw; intros Hrun.
  - rewrite (Hk a _ _ _ Hrun). eapply Hm; eauto.
  - injection Hrun as _ <-. eapply Hm; eauto.
Qed.

Lemma reads_only_try_catch {A} (m : Async A) h :
  reads_only m -> (forall e, reads_only (h e)) -> reads_only (try_catch m h).
Proof.
  intros Hm Hh w r w'. unfold try_catch.
  destruct (m w) as [[a|e] w1] eqn:Hmw; intros Hrun.
  - injection Hrun as _ <-. eapply Hm; eauto.
  - rewrite (Hh e _ _ _ Hrun). eapply Hm; eauto.
Qed.

Lemma reads_only_node_read {A} (f : Chain -> Completion A) :
  reads_only (node_request (fun c => (f c, c))).
Proof.
  intros w r w'. rewrite node_request_run.
  destruct (node_env w (node_reqs w)); intros [= _ <-]; reflexivity.
Qed.

Lemma reads_only_fetch rq : reads_only (fetch rq).
Proof.
  intros w r w'. unfold fetch.
  destruct (http_env w (length (http_log w)) rq); intros [= _ <-]; reflexivity.
Qed.

Lemma reads_only_loadArtifact art : reads_only (loadArtifact art).
Proof. destruct art; [apply reads_only_ret | apply reads_only_throw]. Qed.

Lemma accepts_one_string ts u : accepts_all ts [VString u] = true -> ts = [TString].
Proof.
  destruct ts as [|t [|t' ts]]; simpl; try discriminate.
  - destruct t; simpl; try discriminate. reflexivity.
  - rewrite andb_false_r. discriminate.
Qed.

Lemma resolve_method_by_name abi key n f :
  contains_paren key = false ->
  resolve_method abi key n = Normal f ->
  f_name f = key /\ length (f_inputs f) = n.
Proof.
  unfold resolve_method. intros ->.
  destruct (List.filter _ abi) as [|g [|g' rest]] eqn:Hfilter; try discriminate.
  intros [= <-].
  assert (Hin : In g (List.filter
                        (fun f => String.eqb (f_name f) key
                                  && Nat.eqb (length (f_inputs f)) n) abi)).
  { rewrite Hfilter. left. reflexivity. }
  apply filter_In in Hin as [_ Hp]. apply andb_true_iff in Hp as [Hn Hl].
  apply String.eqb_eq in Hn. apply Nat.eqb_eq in Hl. split; assumption.
Qed.

Lemma getFunction_by_signature iface key f :
  contains_paren key = true ->
  getFunction iface key = Normal (Some f) -> signature f = key.
Proof.
  unfold getFunction. intros ->. intros [= Hfind].
  apply find_some in Hfind as [_ Heq]. apply String.eqb_eq in Heq. exact Heq.
Qed.

Lemma encodeCall_fn iface key args c :
  encodeCall iface key args = Normal c ->
  getFunction iface key = Normal (Some (call_fn c)) /\ call_args c = args.
Proof.
  unfold encodeCall. destruct (getFunction iface key) as [[f|]|e]; try discriminate.
  destruct (negb _); [discriminate|]. destruct (negb _); [discriminate|].
  intros [= <-]. split; reflexivity.
Qed.

(** ** Account resolver *)

Section Resolver.
Context `{Primitives}.

Lemma node_request_Normal_inv {A} (op : Chain -> Completion A * Chain) w a w' :
  node_request op w = (Normal a, w') ->
  node_env w (node_reqs w) = None /\
  fst (op (chain w)) = Normal a /\ w' = served w (snd (op (chain w))).
Proof.
  rewrite node_request_run. destruct (node_env w (node_reqs w)); [discriminate|].
  intros [= Ha <-]. repeat split. exact Ha.
Qed.

Lemma provider_call_inv to call w out w' :
  provider_call to call w = (Normal out, w') ->
  eth_call (chain w) to call = Normal out /\ w' = served w (chain w).
Proof.
  unfold provider_call. intros Hrun.
  apply node_request_Normal_inv in Hrun as (_ & Hout & ->). simpl in *. split; trivial.
Qed.


Lemma invoke_Normal_inv ct key args w r w' :
  invoke ct key args w = (Normal r, w') ->
  exists f,
    resolve_method (c_abi ct) key (length args) = Normal f /\
    accepts_all (f_inputs f) args = true /\
    ((f_view f = true /\
      exists out vs,
        provider_call (c_target ct) (mkCall f args) w = (Normal out, w') /\
        abi_decode (f_outputs f) out = Some vs /\ r = Returned vs) \/
     (f_view f = false /\
      exists from h,
        c_signer ct = Some from /\
        node_request (send_tx from (c_target ct) (mkCall f args)) w = (Normal h, w') /\
        r = Sent h)).
Proof.
  unfold invoke. intros Hrun. inv_async. exists a. split; [exact Hstep|].
  destruct (negb (length args =? length (f_inputs a))%nat); [discriminate|].
  destruct (accepts_all (f_inputs a) args) eqn:Hacc; [|discriminate]. simpl in Hrest.
  split; [reflexivity|].
  destruct (f_view a) eqn:Hview.
  - left. split; [reflexivity|]. inv_async.
    destruct (abi_decode (f_outputs a) a0) as [vs|] eqn:Hdec; [|discriminate].
    inv_async. eauto.
  - right. split; [reflexivity|].
    destruct (c_signer ct) as [from|]; [|discriminate]. inv_async. eauto 6.
Qed.

Lemma reads_only_invoke ct key args :
  c_signer ct = None -> reads_only (invoke ct key args).
Proof.
  intros Hsigner. unfold invoke. apply reads_only_bind; [apply reads_only_lift|].
  intros f. destruct (negb _); [apply reads_only_throw|].
  destruct (negb _); [apply reads_only_throw|].
  destruct (f_view f).
  - apply reads_only_bind; [apply reads_only_node_read|].
    intros out. destruct (abi_decode _ out); [apply reads_only_ret | apply reads_only_throw].
  - rewrite Hsigner. apply reads_only_throw.
Qed.

Lemma reads_only_as_address r : reads_only (as_address r).
Proof.
  destruct r as [[|[] [|]]|]; simpl; try apply reads_only_throw. apply reads_only_ret.
Qed.

Lemma reads_only_resolve_by_string ct userId :
  c_signer ct = None -> reads_only (resolve_by_string ct userId).
Proof.
  intros Hsigner. unfold resolve_by_string.
  apply reads_only_bind.
  { unfold contract_getAddress. destruct own_getAddress;
      [apply reads_only_ret | apply reads_only_invoke; exact Hsigner]. }
  intros r. apply reads_only_bind; [apply reads_only_as_address|].
  intros a. apply reads_only_bind; [apply reads_only_node_read|].
  intros c. apply reads_only_bind; [|intros; apply reads_only_ret].
  destruct (negb _); [apply reads_only_lift | apply reads_only_ret].
Qed.

(** The factory of this repository answers [getAddress(string)] with the
    predicted clone address. *)
Lemma factory_answers_getAddress c to impl f u :
  factories c !! to = Some impl ->
  signature f = "getAddress(string)" ->
  eth_call c to (mkCall f [VString u]) =
  Normal (abi_encode [VAddress (AccountFactory_getAddress impl to u)]).
Proof.
  intros Hf Hsig. unfold eth_call. rewrite Hf. cbn [call_fn call_args].
  rewrite Hsig. reflexivity.
Qed.

(** ... and reverts on [getAddress(bytes32)], which it does not have. *)
Lemma factory_rejects_bytes32 c to impl f args :
  factories c !! to = Some impl ->
  signature f = "getAddress(bytes32)" ->
  eth_call c to (mkCall f args) = Throw (Error "execution reverted").
Proof.
  intros Hf Hsig. unfold eth_call. rewrite Hf. cbn [call_fn call_args].
  rewrite Hsig. reflexivity.
Qed.

Lemma as_address_inv r w a w' :
  as_address r w = (Normal a, w') -> r = Returned [VAddress a] /\ w' = w.
Proof.
  destruct r as [[|[] [|]]|]; simpl; try discriminate.
  intros Hrun. inv_async. split; reflexivity.
Qed.

Lemma contract_getAddress_value ct u w r w' impl a w'' :
  c_signer ct = None ->
  factories (chain w) !! c_target ct = Some impl ->
  contract_getAddress ct u w = (Normal r, w') ->
  as_address r w' = (Normal a, w'') ->
  a = resolved_sender impl (c_target ct) u.
Proof.
  intros Hsigner Hfac Hget Has. apply as_address_inv in Has as [-> ->].
  unfold contract_getAddress, resolved_sender in *.
  destruct own_getAddress.
  - inv_async. injection Hget as ->. reflexivity.
  - apply invoke_Normal_inv in Hget as (f & Hres & Hacc & [(Hview & out & vs & Hcall & Hdec & Hr)
                                                         | (_ & from & h & Hs & _)]).
    + injection Hr as <-.
      apply resolve_method_by_name in Hres as [Hname _]; [|reflexivity].
      apply accepts_one_string in Hacc.
      assert (Hsig : signature f = "getAddress(string)").
      { unfold signature. rewrite Hname, Hacc. reflexivity. }
      apply provider_call_inv in Hcall as [Hout _].
      rewrite (factory_answers_getAddress _ _ _ _ _ Hfac Hsig) in Hout.
      injection Hout as <-.
      eapply decode_one_address; [apply predicted_is_address | exact Hdec].
    + rewrite Hsigner in Hs. discriminate.
Qed.
End Resolver.

Section Determinism.
Context `{Primitives}.

Lemma resolve_by_string_sender ct u w si w' impl :
  c_signer ct = None ->
  factories (chain w) !! c_target ct = Some impl ->
  resolve_by_string ct u w = (Normal si, w') ->
  si_sender si = resolved_sender impl (c_target ct) u.
Proof.
  intros Hsigner Hfac. unfold resolve_by_string. intros Hrun.
  apply bind_Normal_inv in Hrun as (r & w1 & Hget & Hrun).
  apply bind_Normal_inv in Hrun as (a & w2 & Has & Hrun).
  pose proof (contract_getAddress_value _ _ _ _ _ _ _ _ Hsigner Hfac Hget Has) as ->.
  inv_async. reflexivity.
Qed.

(** Against a factory of this repository the [bytes32] fallback cannot
    succeed: the contract has no such function. *)
Lemma resolve_by_bytes32_fails sc ct factoryAddr u w si w' impl :
  factories (chain w) !! factoryAddr = Some impl ->
  resolve_by_bytes32 sc ct factoryAddr u w = (Normal si, w') -> False.
Proof.
  intros Hfac. unfold resolve_by_bytes32. intros Hrun.
  apply bind_Normal_inv in Hrun as (x & w1 & Hid & Hrun).
  assert (w1 = w) as ->.
  { unfold ident in Hid. destruct (binds_ethers sc); [|discriminate].
    apply ret_inv in Hid as [_ ->]. reflexivity. }
  apply bind_Normal_inv in Hrun as (found & w2 & Hfound & Hrun).
  apply lift_Normal_inv in Hfound as [Hfound ->].
  apply bind_Normal_inv in Hrun as (iface & w3 & Hif & Hrun).
  assert (w3 = w) as ->.
  { destruct found.
    - apply ret_inv in Hif as [_ ->]. reflexivity.
    - apply bind_Normal_inv in Hif as (y & w4 & Hid2 & Hif).
      unfold ident in Hid2. destruct (binds_ethers sc); [|discriminate].
      apply ret_inv in Hid2 as [_ ->]. apply ret_inv in Hif as [_ ->]. reflexivity. }
  apply bind_Normal_inv in Hrun as (data & w5 & Hdata & Hrun).
  apply lift_Normal_inv in Hdata as [Hdata ->].
  apply bind_Normal_inv in Hrun as (result & w6 & Hcall & _).
  apply provider_call_inv in Hcall as [Hout _].
  apply encodeCall_fn in Hdata as [Hfn _].
  apply getFunction_by_signature in Hfn; [|reflexivity].
  destruct data as [f args]. cbn [call_fn] in Hfn.
  rewrite (factory_rejects_bytes32 _ _ _ _ _ Hfac Hfn) in Hout. discriminate.
Qed.

Lemma getSenderAndInit_sender sc env factoryAddr userId w si w' impl :
  factories (chain w) !! factoryAddr = Some impl ->
  getSenderAndInit sc env factoryAddr userId w = (Normal si, w') ->
  si_sender si = resolved_sender impl factoryAddr userId.
Proof.
  intros Hfac. unfold getSenderAndInit, accountFactoryContract. intros Hrun.
  apply bind_Normal_inv in Hrun as (ct & w1 & Hct & Hrun).
  apply bind_Normal_inv in Hct as (abi & w2 & Habi & Hct).
  assert (w2 = w) as ->.
  { unfold loadArtifact in Habi. destruct (artifact_AccountFactory env); [|discriminate].
    apply ret_inv in Habi as [_ ->]. reflexivity. }
  apply ret_inv in Hct as [-> ->].
  apply try_catch_Normal_inv in Hrun as [Hs | (e & w3 & Hs & Hb)].
  - apply (resolve_by_string_sender (mkContract factoryAddr abi None) _ _ _ _ impl
                                    eq_refl Hfac Hs).
  - exfalso. eapply (resolve_by_bytes32_fails sc _ factoryAddr userId w3); [|exact Hb].
    rewrite (reads_only_resolve_by_string (mkContract factoryAddr abi None) _ eq_refl
                                          _ _ _ Hs).
    exact Hfac.
Qed.

(** C9: against a factory of this repository, any two resolutions of the
    same user id give the same sender, whatever code the two chain states
    hold (in particular whether the account is deployed); the sender is
    a function of the implementation, the factory and the user id. *)
Theorem resolver_sender_deterministic sc env factoryAddr impl userId w1 w2 s1 s2 w1' w2' :
  factories (chain w1) !! factoryAddr = Some impl ->
  factories (chain w2) !! factoryAddr = Some impl ->
  getSenderAndInit sc env factoryAddr userId w1 = (Normal s1, w1') ->
  getSenderAndInit sc env factoryAddr userId w2 = (Normal s2, w2') ->
  si_sender s1 = si_sender s2 /\
  si_sender s1 = resolved_sender impl factoryAddr userId.
Proof.
  intros Hf1 Hf2 Hr1 Hr2.
  rewrite (getSenderAndInit_sender _ _ _ _ _ _ _ _ Hf1 Hr1).
  rewrite (getSenderAndInit_sender _ _ _ _ _ _ _ _ Hf2 Hr2).
  split; reflexivity.
Qed.
End Determinism.

Lemma resolver_sender_deterministic_witness :
  let P := fixture_platform false in
  let w1 := world_of fixture_chain flaky_http in
  let w2 := snd (@aa_create P fixture_env alice_request w1) in
  exists s1 s2,
    fst (@getSenderAndInit P index_js_scope fixture_env_one_argument 0xFAC70%N "alice" w1)
      = Normal s1 /\
    fst (@getSenderAndInit P index_js_scope fixture_env_one_argument 0xFAC70%N "alice" w2)
      = Normal s2 /\
    si_deployed s1 = false /\ si_deployed s2 = true /\
    si_sender s1 = si_sender s2.
Proof.
  intros P w1 w2.
  destruct (@getSenderAndInit P index_js_scope fixture_env_one_argument 0xFAC70%N "alice" w1)
    as [[s1|e1] w1'] eqn:Hr1; [|vm_compute in Hr1; discriminate Hr1].
  destruct (@getSenderAndInit P index_js_scope fixture_env_one_argument 0xFAC70%N "alice" w2)
    as [[s2|e2] w2'] eqn:Hr2; [|vm_compute in Hr2; discriminate Hr2].
  exists s1, s2. cbn [fst].
  assert (Hf1 : factories (chain w1) !! 0xFAC70%N = Some 0x1A9%N) by reflexivity.
  assert (Hf2 : factories (chain w2) !! 0xFAC70%N = Some 0x1A9%N) by (vm_compute; reflexivity).
  pose proof (@resolver_sender_deterministic P index_js_scope fixture_env_one_argument
                0xFAC70%N 0x1A9%N "alice" w1 w2 s1 s2 w1' w2' Hf1 Hf2 Hr1 Hr2) as [Hsame _].
  repeat split; try reflexivity; try exact Hsame.
  - vm_compute in Hr1. injection Hr1 as <- _. reflexivity.
  - vm_compute in Hr2. injection Hr2 as <- _. reflexivity.
Defined.

(** ** Deployment initiator *)

Section Deployment.
Context `{Primitives}.

Lemma invoke_getAddress_string_run signer t impl u w :
  factories (chain w) !! t = Some impl ->
  invoke (mkContract t AccountFactory_abi signer) "getAddress(string)" [VString u] w =
  match node_env w (node_reqs w) with
  | Some e => (Throw e, served w (chain w))
  | None => (Normal (Returned [VAddress (AccountFactory_getAddress impl t u)]),
             served w (chain w))
  end.
Proof.
  intros Hfac. unfold invoke. cbn [c_abi c_target c_signer].
  change (resolve_method AccountFactory_abi "getAddress(string)" (length [VString u]))
    with (Normal getAddress_fragment).
  unfold bind, lift. cbn [negb Nat.eqb length f_inputs getAddress_fragment accepts_all
                            accepts andb f_view f_outputs].
  unfold provider_call. rewrite node_request_run.
  destruct (node_env w (node_reqs w)); [reflexivity|]. cbn [fst snd].
  rewrite (factory_answers_getAddress _ _ _ getAddress_fragment u Hfac eq_refl).
  rewrite decode_address_word by apply predicted_is_address. reflexivity.
Qed.

Lemma invoke_createAccount_run key from t impl u o w :
  key = "createAccount" \/ key = "createAccount(string,address)" ->
  factories (chain w) !! t = Some impl ->
  (o < 2 ^ 160)%N ->
  invoke (mkContract t AccountFactory_abi (Some from)) key [VString u; VAddress o] w =
  match node_env w (node_reqs w) with
  | Some e => (Throw e, served w (chain w))
  | None =>
      match AccountFactory_createAccount (chain w) impl t u o with
      | Normal (_, c') =>
          (Normal (Sent (tx_hash from (length (mined (chain w))))),
           served w (include c' (mkTx from t (mkCall createAccount_fragment
                                                     [VString u; VAddress o]))))
      | Throw e => (Throw e, served w (chain w))
      end
  end.
Proof.
  intros Hkey Hfac Ho. apply N.ltb_lt in Ho. unfold invoke. cbn [c_abi c_target c_signer].
  assert (Hres : resolve_method AccountFactory_abi key (length [VString u; VAddress o])
                 = Normal createAccount_fragment).
  { destruct Hkey as [-> | ->]; reflexivity. }
  rewrite Hres. unfold bind, lift.
  cbn [negb Nat.eqb length f_inputs createAccount_fragment accepts_all accepts andb f_view].
  rewrite Ho. cbn [negb andb].
  rewrite node_request_run. destruct (node_env w (node_reqs w)); [reflexivity|].
  unfold send_tx. rewrite Hfac. cbn [call_fn call_args].
  change (signature createAccount_fragment) with "createAccount(string,address)".
  cbn [String.eqb Ascii.eqb Bool.eqb].
  destruct (AccountFactory_createAccount (chain w) impl t u o) as [[a c']|e]; reflexivity.
Qed.

Lemma clone_has_code impl : has_code (clone_code impl) = true.
Proof. reflexivity. Qed.

(** What a successful [createAccount] leaves behind. *)
Lemma createAccount_effect c impl t u o a c' :
  AccountFactory_createAccount c impl t u o = Normal (a, c') ->
  a = AccountFactory_getAddress impl t u /\
  has_code (getCode c' a) = true /\
  factories c' = factories c /\
  mined c' = mined c /\
  (has_code (getCode c a) = true -> c' = c).
Proof.
  unfold AccountFactory_createAccount, AccountFactory_getAddress.
  set (acct := predictDeterministicAddress impl (salt_of u) t).
  destruct (has_code (getCode c acct)) eqn:Hcode.
  - intros [= <- <-]. repeat split; try reflexivity. exact Hcode.
  - unfold MinimalAccount_initialize. cbn [owners code factories foreign mined].
    destruct (owners c !! acct); [discriminate|].
    destruct (o =? 0)%N; [discriminate|].
    intros [= <- <-]. repeat split; try reflexivity.
    + unfold getCode. cbn [code]. rewrite lookup_insert_eq. apply clone_has_code.
    + rewrite Hcode. discriminate.
Qed.
End Deployment.

Lemma catch_500_ok (m : Async Response) w r w' :
  catch_500 m w = (Normal r, w') -> status r = 200%nat -> m w = (Normal r, w').
Proof.
  unfold catch_500, try_catch. destruct (m w) as [[a|e] w1]; [trivial|].
  intros [= <- <-] Hst. discriminate Hst.
Qed.

Section Idempotence.
Context `{Primitives}.



Lemma invoke_createAccount_out_of_range key from t u o w :
  key = "createAccount" \/ key = "createAccount(string,address)" ->
  (2 ^ 160 <= o)%N ->
  invoke (mkContract t AccountFactory_abi (Some from)) key [VString u; VAddress o] w =
  (Throw (TypeError "invalid argument"), w).
Proof.
  intros Hkey Ho. apply N.ltb_ge in Ho. unfold invoke. cbn [c_abi c_target c_signer].
  assert (Hres : resolve_method AccountFactory_abi key (length [VString u; VAddress o])
                 = Normal createAccount_fragment).
  { destruct Hkey as [-> | ->]; reflexivity. }
  rewrite Hres. unfold bind, lift.
  cbn [negb Nat.eqb length f_inputs createAccount_fragment accepts_all accepts andb f_view].
  rewrite Ho. reflexivity.
Qed.

Lemma getCode_include c tx a : getCode (include c tx) a = getCode c a.
Proof. reflexivity. Qed.


End Idempotence.




(** ** Names the module never binds *)

Section Unbound.
Context `{Primitives}.

Lemma aa_address_unbound env rq w FACTORY facIf data out w1 :
  String.eqb (query_or rq "user" "") "" = false ->
  AA_FACTORY env = Some FACTORY ->
  artifact_AccountFactory env = Some facIf ->
  encodeCall facIf "getAddress" [VString (query_or rq "user" "")] = Normal data ->
  safeCall env FACTORY data w = (Normal out, w1) ->
  value_truthy (primary_account facIf out) = false ->
  aa_address index_js_scope env rq w =
  (Normal (res_status_json 500 (error_body "ReferenceError: keccak256 is not defined")), w1).
Proof.
  intros Huser Hfac Hart Hdata Hsafe Hfalsy.
  unfold aa_address. rewrite Huser, Hfac, Hart.
  unfold catch_500, try_catch, loadArtifact. unfold bind at 1, ret at 1.
  unfold bind at 1. rewrite Hdata. unfold lift at 1.
  unfold bind at 1. rewrite Hsafe.
  unfold bind at 1. fold (primary_account facIf out). rewrite Hfalsy.
  reflexivity.
Qed.

Lemma getSenderAndInit_unbound env factoryAddr userId w abi e w1 :
  artifact_AccountFactory env = Some abi ->
  resolve_by_string (mkContract factoryAddr abi None) userId w = (Throw e, w1) ->
  getSenderAndInit index_js_scope env factoryAddr userId w =
  (Throw (ReferenceError "ethers"), w1).
Proof.
  intros Hart Hs. unfold getSenderAndInit, accountFactoryContract. rewrite Hart.
  unfold loadArtifact, bind, ret, try_catch. rewrite Hs. reflexivity.
Qed.

(** C4, on the code: when the primary read gives nothing usable, neither
    resolver reaches the [bytes32] variant.  [GET /api/aa/address] stops at
    [keccak256(toUtf8Bytes(userId))] and answers 500 with the
    [ReferenceError] text; [getSenderAndInit] stops at [ethers.id(userId)]
    and throws.  No salt is derived, no second read is issued, and the
    error names neither the factory nor the variants tried. *)
Theorem bytes32_fallback_unreachable env rq w FACTORY facIf data out w1 :
  String.eqb (query_or rq "user" "") "" = false ->
  AA_FACTORY env = Some FACTORY ->
  artifact_AccountFactory env = Some facIf ->
  encodeCall facIf "getAddress" [VString (query_or rq "user" "")] = Normal data ->
  safeCall env FACTORY data w = (Normal out, w1) ->
  value_truthy (primary_account facIf out) = false ->
  aa_address index_js_scope env rq w =
    (Normal (res_status_json 500 (error_body "ReferenceError: keccak256 is not defined")),
     w1) /\
  prop (error_body "ReferenceError: keccak256 is not defined") "factory" = None /\
  forall userId w0 e w2,
    resolve_by_string (mkContract FACTORY facIf None) userId w0 = (Throw e, w2) ->
    getSenderAndInit index_js_scope env FACTORY userId w0 =
    (Throw (ReferenceError "ethers"), w2).
Proof.
  intros Huser Hfac Hart Hdata Hsafe Hfalsy. split; [|split].
  - eapply aa_address_unbound; eauto.
  - reflexivity.
  - intros userId w0 e w2 Hs. eapply getSenderAndInit_unbound; eauto.
Qed.

Lemma ident_unbound name w : ident false name w = (Throw (ReferenceError name), w).
Proof. reflexivity. Qed.

Lemma encode_mint_call_throws env tokenAddr receiver amountStr w :
  encode_mint_call index_js_scope env tokenAddr receiver amountStr w =
  (Throw (match artifact_RewardToken env with
          | Some _ => ReferenceError "ethers"
          | None => Error "ENOENT: no such file or directory"
          end), w).
Proof.
  unfold encode_mint_call, loadArtifact. destruct (artifact_RewardToken env); reflexivity.
Qed.

(** C7, on the code: the lines that should encode the mint call throw
    for every input ([new ethers.Interface] refers to the unbound name
    [ethers]), so no [callData] is produced; the handler answers 400 or
    500 and never 200. *)
Theorem gasless_mint_builds_no_callData env rq w :
  (forall tokenAddr receiver amountStr w0,
      exists e,
        encode_mint_call index_js_scope env tokenAddr receiver amountStr w0 = (Throw e, w0) /\
        (artifact_RewardToken env <> None -> e = ReferenceError "ethers")) /\
  (exists resp,
      fst (gasless_mint_send index_js_scope env rq w) = Normal resp /\
      (status resp = 400%nat \/ status resp = 500%nat)).
Proof.
  split.
  - intros tokenAddr receiver amountStr w0. rewrite encode_mint_call_throws.
    eexists. split; [reflexivity|].
    destruct (artifact_RewardToken env); [reflexivity | congruence].
  - unfold gasless_mint_send, catch_500, try_catch.
    destruct (String.eqb (query_or rq "user" "") ""); [simpl; eauto|].
    destruct (negb (startsWith_0x (query_or rq "to" ""))); [simpl; eauto|].
    destruct (AA_FACTORY env) as [factoryAddr|]; [|simpl; eauto].
    destruct (REWARD_TOKEN env) as [tokenAddr|]; [|simpl; eauto].
    destruct (PAYMASTER env) as [paymasterAddr|]; [|simpl; eauto].
    destruct (ENTRYPOINT env) as [entryPoint|]; [|simpl; eauto].
    destruct (negb (Boolean_string (BUNDLER_URL env))); [simpl; eauto|].
    unfold bind at 1.
    destruct (getSenderAndInit index_js_scope env factoryAddr (query_or rq "user" "") w)
      as [[si|e] w1]; [|simpl; eauto].
    unfold bind at 1. rewrite encode_mint_call_throws. simpl. eauto.
Qed.
End Unbound.

Lemma bytes32_fallback_unreachable_witness :
  let P := fixture_platform false in
  let w := world_of fixture_chain flaky_http in
  fst (@aa_address P index_js_scope fixture_env_no_reads alice_request w) =
    Normal (res_status_json 500 (error_body "ReferenceError: keccak256 is not defined")) /\
  fst (@getSenderAndInit P index_js_scope fixture_env_no_reads 0xFAC70%N "alice" w) =
    Throw (ReferenceError "ethers").
Proof.
  intros P w.
  pose proof (@bytes32_fallback_unreachable P fixture_env_no_reads alice_request w 0xFAC70%N
                AccountFactory_abi (mkCall getAddress_fragment [VString "alice"]) None w
                eq_refl eq_refl eq_refl eq_refl eq_refl eq_refl) as (Haddr & _ & Hsender).
  split.
  - rewrite Haddr. reflexivity.
  - destruct (@resolve_by_string P (mkContract 0xFAC70%N AccountFactory_abi None) "alice" w)
      as [[si|e] w2] eqn:Hs; [vm_compute in Hs; discriminate Hs|].
    rewrite (Hsender "alice" w e w2 Hs). reflexivity.
Defined.

(** The failing request of C7, run: the resolver returns (here the
    contract object answers [getAddress] itself), the mint call is never
    encoded, and the client gets the [ReferenceError] text with status 500;
    nothing is sent to the bundler. *)
Example gasless_mint_send_fails :
  let run := @gasless_mint_send (fixture_platform true) index_js_scope fixture_env alice_request
                                (world_of fixture_chain accepting_bundler) in
  fst run = Normal (res_status_json 500 (error_body "ReferenceError: ethers is not defined")) /\
  http_log (snd run) = [].
Proof. vm_compute. split; reflexivity. Qed.

(** The same request for a sender that resolves as not deployed (the
    artifact's [createAccount] takes the user id alone): the encoding lines
    throw all the same. *)
Example gasless_mint_send_fails_after_resolving :
  let P := fixture_platform false in
  let w := world_of fixture_chain accepting_bundler in
  let run := @gasless_mint_send P index_js_scope fixture_env_one_argument alice_request w in
  (exists si, fst (@getSenderAndInit P index_js_scope fixture_env_one_argument 0xFAC70%N
                                     "alice" w) = Normal si /\ si_deployed si = false) /\
  fst run = Normal (res_status_json 500 (error_body "ReferenceError: ethers is not defined")) /\
  http_log (snd run) = [].
Proof.
  intros P w run. split; [|split].
  - eexists. split; [vm_compute; reflexivity | reflexivity].
  - vm_compute. reflexivity.
  - vm_compute. reflexivity.
Qed.

(** The same request when the tried artifact is the compiled factory and
    the account is not deployed: the resolver itself throws. *)
Example gasless_mint_send_fails_undeployed :
  fst (@gasless_mint_send (fixture_platform false) index_js_scope fixture_env alice_request
                          (world_of fixture_chain accepting_bundler)) =
  Normal (res_status_json 500 (error_body "ReferenceError: ethers is not defined")).
Proof. vm_compute. reflexivity. Qed.

(** ** With the names bound: what the encoding lines would produce *)

Lemma slice_app_skip (a d : bytes) m k n :
  length a = m -> slice (m + k) n (a ++ d) = slice k n d.
Proof.
  intros <-. unfold slice. rewrite length_app.
  replace (length a + k + n <=? length a + length d)%nat with (k + n <=? length d)%nat.
  2:{ destruct (Nat.leb_spec (k + n) (length d)), (Nat.leb_spec (length a + k + n)
                                                                 (length a + length d));
      try reflexivity; lia. }
  replace (skipn (length a + k) (a ++ d)) with (skipn k d); [reflexivity|].
  induction a as [|x a IH]; [reflexivity | exact IH].
Qed.

Lemma slice_head (b d : bytes) n : length b = n -> slice 0 n (b ++ d) = Some b.
Proof.
  intros Hn. unfold slice. cbn [Nat.add skipn]. rewrite length_app.
  replace (n <=? length b + length d)%nat with true
    by (symmetry; apply Nat.leb_le; lia).
  rewrite skipn_O, firstn_app, <- Hn, firstn_all, Nat.sub_diag. cbn [firstn].
  rewrite app_nil_r. reflexivity.
Qed.

Lemma bytes_eqb_refl (b : bytes) : bytes_eqb b b = true.
Proof.
  induction b as [|x b IH]; [reflexivity|]. cbn [bytes_eqb].
  rewrite IH, andb_true_r. apply Byte.byte_dec_lb. reflexivity.
Qed.

Lemma pad32_length (b : bytes) : length (pad32 b) = padded_length (length b).
Proof. unfold pad32, padded_length, zero_bytes. rewrite length_app, repeat_length. reflexivity. Qed.

Lemma abi_encode_execute t inner :
  abi_encode [VAddress t; VUint 0; VBytes inner] =
  be_bytes 32 t ++ be_bytes 32 0 ++ be_bytes 32 96
  ++ be_bytes 32 (N.of_nat (length inner)) ++ pad32 inner.
Proof.
  unfold abi_encode.
  cbn [abi_encode_from value_is_dynamic head_word encode_tail dyn_payload Z.to_N].
  change (N.of_nat (32 * length [VAddress t; VUint 0; VBytes inner])) with 96%N.
  rewrite !app_nil_r, <- !app_assoc. reflexivity.
Qed.

Lemma abi_encode_mintTo r amount :
  abi_encode [VAddress r; VUint amount] = be_bytes 32 r ++ be_bytes 32 (Z.to_N amount).
Proof.
  unfold abi_encode. cbn [abi_encode_from value_is_dynamic head_word].
  rewrite !app_nil_r. reflexivity.
Qed.

Lemma decode_execute_args t inner :
  (t < 2 ^ 160)%N ->
  (N.of_nat (length inner) < 2 ^ 256)%N ->
  abi_decode [TAddress; TUint256; TBytes] (abi_encode [VAddress t; VUint 0; VBytes inner]) =
  Some [VAddress t; VUint 0; VBytes inner].
Proof.
  intros Ht Hlen. rewrite abi_encode_execute.
  set (W0 := be_bytes 32 t). set (W1 := be_bytes 32 0). set (W2 := be_bytes 32 96).
  set (L := be_bytes 32 (N.of_nat (length inner))).
  assert (H0 : length W0 = 32%nat) by apply be_bytes_length.
  assert (H1 : length W1 = 32%nat) by apply be_bytes_length.
  assert (H2 : length W2 = 32%nat) by apply be_bytes_length.
  assert (HL : length L = 32%nat) by apply be_bytes_length.
  assert (V0 : be_value W0 = t)
    by (apply be_value_word; eapply N.lt_trans; [exact Ht | reflexivity]).
  assert (V1 : be_value W1 = 0%N) by (apply be_value_word; reflexivity).
  assert (V2 : be_value W2 = 96%N) by (apply be_value_word; reflexivity).
  assert (VL : be_value L = N.of_nat (length inner)) by (apply be_value_word; exact Hlen).
  unfold abi_decode. cbn [abi_decode_from]. unfold decode_param.
  change (32 * 0)%nat with 0%nat. change (32 * 1)%nat with (32 + 0)%nat.
  change (32 * 2)%nat with (32 + (32 + 0))%nat.
  rewrite (slice_head W0 _ 32 H0).
  rewrite (slice_app_skip W0 _ 32 0 32 H0), (slice_head W1 _ 32 H1).
  rewrite (slice_app_skip W0 _ 32 _ 32 H0), (slice_app_skip W1 _ 32 0 32 H1),
    (slice_head W2 _ 32 H2).
  rewrite V0, V1, V2.
  apply N.ltb_lt in Ht. rewrite Ht.
  change (N.to_nat 96) with (32 + (32 + (32 + 0)))%nat.
  unfold decode_dynamic.
  rewrite (slice_app_skip W0 _ 32 _ 32 H0), (slice_app_skip W1 _ 32 _ 32 H1),
    (slice_app_skip W2 _ 32 0 32 H2), (slice_head L _ 32 HL).
  rewrite VL, Nat2N.id.
  change (32 + (32 + (32 + 0)) + 32)%nat with (32 + (32 + (32 + (32 + 0))))%nat.
  rewrite (slice_app_skip W0 _ 32 _ _ H0), (slice_app_skip W1 _ 32 _ _ H1),
    (slice_app_skip W2 _ 32 _ _ H2), (slice_app_skip L _ 32 0 _ HL).
  rewrite (slice_whole _ _ (pad32_length inner)).
  unfold pad32. rewrite firstn_app, firstn_all, Nat.sub_diag. cbn [firstn option_map].
  rewrite app_nil_r. reflexivity.
Qed.

Lemma decode_mintTo_args r amount :
  (r < 2 ^ 160)%N ->
  (0 <= amount < 2 ^ 256)%Z ->
  abi_decode [TAddress; TUint256] (abi_encode [VAddress r; VUint amount]) =
  Some [VAddress r; VUint amount].
Proof.
  intros Hr Ha. rewrite abi_encode_mintTo.
  set (W0 := be_bytes 32 r). set (W1 := be_bytes 32 (Z.to_N amount)).
  assert (H0 : length W0 = 32%nat) by apply be_bytes_length.
  assert (H1 : length W1 = 32%nat) by apply be_bytes_length.
  unfold abi_decode. cbn [abi_decode_from]. unfold decode_param.
  change (32 * 0)%nat with 0%nat. change (32 * 1)%nat with (32 + 0)%nat.
  assert (V0 : be_value W0 = r)
    by (apply be_value_word; eapply N.lt_trans; [exact Hr | reflexivity]).
  assert (V1 : be_value W1 = Z.to_N amount).
  { apply be_value_word. change (2 ^ 256)%N with (Z.to_N (2 ^ 256)).
    apply Z2N.inj_lt; lia. }
  rewrite (slice_head W0 _ 32 H0).
  rewrite (slice_app_skip W0 _ 32 0 32 H0), (slice_whole W1 32 H1).
  rewrite V0, V1.
  apply N.ltb_lt in Hr. rewrite Hr.
  rewrite Z2N.id by lia. reflexivity.
Qed.

Section Repaired.
Context `{Primitives}.

Lemma decodeFunctionData_wire iface key f args :
  getFunction iface key = Normal (Some f) ->
  abi_decode (f_inputs f) (abi_encode args) = Some args ->
  decodeFunctionData iface key (selector f ++ abi_encode args) = Normal args.
Proof.
  intros Hf Hdec. unfold decodeFunctionData. rewrite Hf.
  pose proof (selector_length f) as Hlen.
  rewrite firstn_app, Hlen, Nat.sub_diag, (firstn_all_length _ _ Hlen). cbn [firstn].
  rewrite app_nil_r, bytes_eqb_refl. cbn [negb].
  rewrite skipn_app, Hlen, Nat.sub_diag, skipn_all2 by lia. rewrite skipn_O. cbn [app].
  rewrite Hdec. reflexivity.
Qed.

Lemma accepts_address_uint ts a n :
  accepts_all ts [VAddress a; VUint n] = true ->
  ts = [TAddress; TUint256] /\ (a < 2 ^ 160)%N /\ (0 <= n < 2 ^ 256)%Z.
Proof.
  destruct ts as [|t [|t' [|t'' ts]]]; cbn [accepts_all]; try discriminate.
  - rewrite andb_false_r. discriminate.
  - destruct t; cbn [accepts]; try discriminate.
    destruct t'; cbn [accepts]; rewrite ?andb_false_r; try discriminate.
    rewrite andb_true_r. intros Hacc.
    apply andb_true_iff in Hacc as [Ha Hn]. apply andb_true_iff in Hn as [Hn0 Hn1].
    apply N.ltb_lt in Ha. apply Z.leb_le in Hn0. apply Z.ltb_lt in Hn1.
    repeat split; assumption.
  - rewrite !andb_false_r. discriminate.
Qed.

Lemma encodeFunctionData_inv iface key args data :
  encodeFunctionData iface key args = Normal data ->
  exists f, getFunction iface key = Normal (Some f) /\
            accepts_all (f_inputs f) args = true /\
            data = selector f ++ abi_encode args.
Proof.
  unfold encodeFunctionData, encodeCall.
  destruct (getFunction iface key) as [[f|]|e]; try discriminate.
  destruct (negb (length args =? length (f_inputs f))%nat); [discriminate|].
  destruct (accepts_all (f_inputs f) args) eqn:Hacc; [|discriminate].
  cbn [negb]. intros [= <-]. exists f. split; [reflexivity|]. split; [exact Hacc|].
  reflexivity.
Qed.

(** Had [ethers] been bound, the call data the builder produces would
    decode, through [execute] and then [mintTo], to the token address, the
    value 0, the recipient and the parsed amount. *)
Lemma repaired_callData_round_trip env tokenAddr receiver amountStr w callData_ w' :
  encode_mint_call repaired_scope env tokenAddr receiver amountStr w = (Normal callData_, w') ->
  exists tokenAbi recipient amount inner,
    artifact_RewardToken env = Some tokenAbi /\
    parse_address receiver = Some recipient /\
    parseUnits amountStr 18 = Normal amount /\
    decodeFunctionData accountAbi "execute" callData_ =
      Normal [VAddress tokenAddr; VUint 0; VBytes inner] /\
    decodeFunctionData tokenAbi "mintTo" inner = Normal [VAddress recipient; VUint amount].
Proof.
  unfold encode_mint_call. intros Hrun.
  apply bind_Normal_inv in Hrun as (tokenAbi & w1 & Hart & Hrun).
  destruct (artifact_RewardToken env) as [abi|] eqn:Habi; [|discriminate].
  apply ret_inv in Hart as [-> ->].
  apply bind_Normal_inv in Hrun as (x & w2 & Hid & Hrun). apply ret_inv in Hid as [_ ->].
  apply bind_Normal_inv in Hrun as (amount & w3 & Hamt & Hrun).
  apply lift_Normal_inv in Hamt as [Hamt ->].
  apply bind_Normal_inv in Hrun as (fo & w4 & Hf & Hrun).
  apply lift_Normal_inv in Hf as [Hf ->].
  apply bind_Normal_inv in Hrun as (y & w5 & Hchk & Hrun).
  assert (w5 = w) as ->.
  { destruct fo as [f'|]; [|discriminate].
    destruct (length (f_inputs f') =? 2)%nat; [|discriminate].
    apply ret_inv in Hchk as [_ ->]. reflexivity. }
  apply bind_Normal_inv in Hrun as (recipient & w6 & Hto & Hrun).
  destruct (parse_address receiver) as [r|] eqn:Hparse; [|discriminate].
  apply ret_inv in Hto as [-> ->].
  apply bind_Normal_inv in Hrun as (inner & w7 & Hinner & Hrun).
  apply lift_Normal_inv in Hinner as [Hinner ->].
  apply bind_Normal_inv in Hrun as (z & w8 & Hid2 & Hrun). apply ret_inv in Hid2 as [_ ->].
  apply lift_Normal_inv in Hrun as [Hcd ->].
  apply encodeFunctionData_inv in Hinner as (f & Hgf & Hacc & ->).
  apply accepts_address_uint in Hacc as (Hins & Hr & Hn).
  apply encodeFunctionData_inv in Hcd as (g & Hgg & Hacc2 & ->).
  change (getFunction accountAbi "execute")
    with (Normal (Some (mkFragment "execute" [TAddress; TUint256; TBytes] [] false))) in Hgg.
  injection Hgg as <-.
  cbn [accepts_all accepts f_inputs] in Hacc2.
  apply andb_true_iff in Hacc2 as [Ht _]. apply N.ltb_lt in Ht.
  exists abi, r, amount, (selector f ++ abi_encode [VAddress r; VUint amount]).
  split; [reflexivity|]. split; [reflexivity|]. split; [exact Hamt|]. split.
  - apply decodeFunctionData_wire; [reflexivity|]. cbn [f_inputs].
    apply decode_execute_args; [exact Ht|].
    rewrite length_app, selector_length, abi_encode_mintTo, length_app, !be_bytes_length.
    reflexivity.
  - apply decodeFunctionData_wire; [exact Hgf|]. rewrite Hins.
    apply decode_mintTo_args; assumption.
Qed.
End Repaired.

(** The amount ["10"] is ten tokens of 18 decimals. *)
Example parseUnits_10 : parseUnits "10" 18 = Normal (10 * 10 ^ 18)%Z.
Proof. vm_compute. reflexivity. Qed.

Example repaired_callData_round_trip_run :
  let P := fixture_platform false in
  fst (@encode_mint_call P repaired_scope fixture_env 0x70CE%N
                         "0x00000000000000000000000000000000000000aa" "10"
                         (world_of fixture_chain accepting_bundler)) = Normal fixture_callData /\
  @decodeFunctionData P accountAbi "execute" fixture_callData =
    Normal [VAddress 0x70CE%N; VUint 0; VBytes fixture_innerCall] /\
  @decodeFunctionData P RewardToken_abi "mintTo" fixture_innerCall =
    Normal [VAddress 0xaa%N; VUint (10 * 10 ^ 18)].
Proof.
  intros P. split; [vm_compute; reflexivity|]. split; vm_compute; reflexivity.
Qed.

Section RepairedResolver.
Context `{Primitives}.

Lemma encodeCall_bytes32 userId :
  encodeCall altIf "getAddress" [VBytes32 (keccak256 (toUtf8 userId))] =
  Normal (mkCall getAddress_bytes32_fragment [VBytes32 (keccak256 (toUtf8 userId))]).
Proof.
  unfold encodeCall.
  change (getFunction altIf "getAddress") with (Normal (Some getAddress_bytes32_fragment)).
  cbn [length f_inputs getAddress_bytes32_fragment Nat.eqb negb accepts_all accepts].
  rewrite keccak256_length. reflexivity.
Qed.

(** Had [keccak256] and [toUtf8Bytes] been bound, [GET /api/aa/address]
    would do what C4 says: hash the UTF-8 bytes of the user id into a
    32-byte salt, read [getAddress(bytes32)] with it and decode the answer;
    with both variants failing it would answer 500 naming the factory and
    the two signatures. *)
Lemma repaired_address_fallback env rq w FACTORY facIf data out w1 out2 w2 impl w3 :
  String.eqb (query_or rq "user" "") "" = false ->
  AA_FACTORY env = Some FACTORY ->
  artifact_AccountFactory env = Some facIf ->
  encodeCall facIf "getAddress" [VString (query_or rq "user" "")] = Normal data ->
  safeCall env FACTORY data w = (Normal out, w1) ->
  value_truthy (primary_account facIf out) = false ->
  safeCall env FACTORY
           (mkCall getAddress_bytes32_fragment
                   [VBytes32 (keccak256 (toUtf8 (query_or rq "user" "")))]) w1
    = (Normal out2, w2) ->
  read_implementation env facIf FACTORY w2 = (Normal impl, w3) ->
  length (keccak256 (toUtf8 (query_or rq "user" ""))) = 32%nat /\
  (value_truthy (secondary_account (primary_account facIf out) out2) = false ->
   aa_address repaired_scope env rq w =
   (Normal (res_status_json 500
              (JObj [("error", JStr both_reverted); ("factory", json_address FACTORY)])),
    w3)) /\
  (forall a i,
      secondary_account (primary_account facIf out) out2 = Some (VAddress a) ->
      impl = Normal i ->
      aa_address repaired_scope env rq w =
      (Normal (res_json
                 (obj [ ("userId", Some (JStr (query_or rq "user" "")));
                        ("factory", Some (json_address FACTORY));
                        ("implementation", i);
                        ("smartAccount", Some (json_address a)) ])),
       w3)).
Proof.
  intros Huser Hfac Hart Hdata Hsafe Hfalsy Hsafe2 Himpl.
  split; [apply keccak256_length|].
  assert (Hrun : aa_address repaired_scope env rq w =
                 catch_500
                   (let smartAccount :=
                      secondary_account (primary_account facIf out) out2 in
                    if negb (value_truthy smartAccount) then
                      ret (res_status_json 500
                             (obj [ ("error", Some (JStr both_reverted));
                                    ("factory", Some (json_address FACTORY)) ]))
                    else
                      let* implementation_ := lift impl in
                      let* smartAccount_ := lift (abi_json smartAccount) in
                      ret (res_json
                             (obj [ ("userId", Some (JStr (query_or rq "user" "")));
                                    ("factory", Some (json_address FACTORY));
                                    ("implementation", implementation_);
                                    ("smartAccount", smartAccount_) ]))) w3).
  { unfold aa_address. rewrite Huser, Hfac, Hart.
    unfold catch_500, try_catch, loadArtifact.
    rewrite bind_ret_l, Hdata, bind_lift_l, (bind_step _ _ _ _ _ Hsafe).
    fold (primary_account facIf out). rewrite Hfalsy.
    cbn [negb repaired_scope binds_keccak256 binds_toUtf8Bytes ident].
    rewrite !bind_ret_l, encodeCall_bytes32, bind_lift_l.
    rewrite bind_assoc_run, (bind_step _ _ _ _ _ Hsafe2).
    assert (Hsec : forall B (K : option AbiValue -> Async B),
               bind (if truthy_opt out2
                     then match decode_first altIf "getAddress" (default JNull out2) with
                          | Normal v => ret v
                          | Throw _ => ret (primary_account facIf out)
                          end
                     else ret (primary_account facIf out)) K w2
               = K (secondary_account (primary_account facIf out) out2) w2).
    { intros B K. unfold secondary_account.
      destruct (truthy_opt out2);
        [destruct (decode_first altIf "getAddress" (default JNull out2))|]; reflexivity. }
    rewrite Hsec, (bind_step _ _ _ _ _ Himpl). reflexivity. }
  rewrite Hrun. clear Hrun. split.
  - intros Hf2. unfold catch_500, try_catch. cbv zeta. rewrite Hf2. reflexivity.
  - intros a i Hsec ->. unfold catch_500, try_catch. cbv zeta. rewrite Hsec. reflexivity.
Qed.
End RepairedResolver.

(** * More of the relayer *)

(** ** The reader, whatever the endpoints do *)

Lemma all_fail_nil w method params : all_fail w [] method params.
Proof. intros i url Hi. destruct i; discriminate Hi. Qed.

Lemma all_fail_cons w u urls method params :
  is_throw (answer w 0 u method params) = true ->
  all_fail (attempted w [mkRequest u method params]) urls method params ->
  all_fail w (u :: urls) method params.
Proof.
  intros H0 Hrest [|i] url Hi.
  - injection Hi as <-. exact H0.
  - rewrite <- (answer_shift w (mkRequest u method params)). apply Hrest. exact Hi.
Qed.

(** The shape of every run of the loop: a prefix of the list is contacted;
    a result comes from the last endpoint contacted, the ones before it
    having failed; an error comes only after the whole list has failed. *)
Lemma rpc_from_shape urls :
  forall last method params w,
  exists k,
    (k <= length urls)%nat /\
    snd (rpc_from urls last method params w)
      = attempted w (requests method params (firstn k urls)) /\
    match fst (rpc_from urls last method params w) with
    | Normal r =>
        exists j u, k = S j /\ urls !! j = Some u /\
                    answer w j u method params = Normal r /\
                    all_fail w (firstn j urls) method params
    | Throw e => k = length urls /\ all_fail w urls method params
    end.
Proof.
  induction urls as [|u urls IH]; intros last method params w.
  - exists 0%nat. cbn. split; [lia|]. split.
    + unfold attempted. destruct w; reflexivity.
    + split; [reflexivity | apply all_fail_nil].
  - cbn [rpc_from]. unfold try_catch. rewrite rpcFetch_run.
    destruct (answer w 0 u method params) as [r|e] eqn:Ha.
    + exists 1%nat. cbn [fst snd length firstn]. split; [lia|]. split; [reflexivity|].
      exists 0%nat, u. repeat split; [exact Ha | apply all_fail_nil].
    + destruct (IH (Some e) method params (attempted w [mkRequest u method params]))
        as (k & Hk & Hlog & Hres).
      exists (S k). cbn [length firstn]. split; [lia|]. split.
      * rewrite Hlog, attempted_app. reflexivity.
      * destruct (fst (rpc_from urls (Some e) method params
                                (attempted w [mkRequest u method params]))) as [r|e'].
        -- destruct Hres as (j & u' & -> & Hu' & Hans & Hall).
           exists (S j), u'. split; [reflexivity|]. split; [exact Hu'|]. split.
           ++ rewrite <- (answer_shift w (mkRequest u method params)). exact Hans.
           ++ cbn [firstn]. apply all_fail_cons; [rewrite Ha; reflexivity | exact Hall].
        -- destruct Hres as [-> Hall]. split; [reflexivity|].
           apply all_fail_cons; [rewrite Ha; reflexivity | exact Hall].
Qed.

(** X1: the converse of the fallback order.  When [rpc] throws, every
    configured endpoint was contacted once, in order, and every one failed;
    when it returns, the result is the answer of the last endpoint it
    contacted and all the endpoints before that one failed. *)
Theorem rpc_outcome_explained env method params w :
  (forall e w',
      rpc env method params w = (Throw e, w') ->
      all_fail w (READS env) method params /\
      w' = attempted w (requests method params (READS env))) /\
  (forall r w',
      rpc env method params w = (Normal r, w') ->
      exists j u,
        READS env !! j = Some u /\
        answer w j u method params = Normal r /\
        all_fail w (firstn j (READS env)) method params /\
        w' = attempted w (requests method params (firstn (S j) (READS env)))).
Proof.
  unfold rpc.
  destruct (rpc_from_shape (READS env) None method params w) as (k & Hk & Hlog & Hres).
  split.
  - intros e w' Hrun. rewrite Hrun in Hlog, Hres. cbn [fst snd] in *.
    destruct Hres as [-> Hall]. split; [exact Hall|].
    rewrite Hlog, firstn_all. reflexivity.
  - intros r w' Hrun. rewrite Hrun in Hlog, Hres. cbn [fst snd] in *.
    destruct Hres as (j & u & -> & Hu & Hans & Hall).
    exists j, u. repeat split; assumption.
Qed.

Lemma rpc_outcome_explained_witness :
  let w := world_of empty_chain flaky_http in
  (exists j u, READS fixture_env !! j = Some u /\
               answer w j u "eth_chainId" [] = Normal (JStr "0x2a") /\
               all_fail w (firstn j (READS fixture_env)) "eth_chainId" []) /\
  all_fail (world_of empty_chain (fun _ _ => NetFailure (TypeError "fetch failed")))
           (READS fixture_env) "eth_chainId" [].
Proof.
  intros w. split.
  - destruct (rpc fixture_env "eth_chainId" [] w) as [[r|e] w'] eqn:Hrun;
      [|vm_compute in Hrun; discriminate Hrun].
    assert (r = JStr "0x2a") as -> by (vm_compute in Hrun; congruence).
    destruct (proj2 (rpc_outcome_explained fixture_env "eth_chainId" [] w) _ _ Hrun)
      as (j & u & Hu & Hans & Hall & _).
    exists j, u. repeat split; assumption.
  - set (w0 := world_of empty_chain (fun _ _ => NetFailure (TypeError "fetch failed"))).
    destruct (rpc fixture_env "eth_chainId" [] w0) as [[r|e] w'] eqn:Hrun;
      [vm_compute in Hrun; discriminate Hrun|].
    exact (proj1 (proj1 (rpc_outcome_explained fixture_env "eth_chainId" [] w0) _ _ Hrun)).
Defined.

Lemma READS_cases env :
  READS env =
  (if Boolean_string (READ_RPC_1 env) then [default "" (READ_RPC_1 env)] else [])
  ++ (if Boolean_string (READ_RPC_2 env) then [default "" (READ_RPC_2 env)] else []).
Proof.
  unfold READS, Boolean_string.
  destruct (READ_RPC_1 env) as [u1|], (READ_RPC_2 env) as [u2|];
    cbn -[String.eqb];
    try generalize (String.eqb u1 ""); try generalize (String.eqb u2 ""); intros;
    repeat match goal with b : bool |- _ => destruct b end; reflexivity.
Qed.

(** X2: the endpoint list holds the configured read URLs that are set and
    not empty, first one first, so at most two; and one [rpc] call makes
    at most two requests, all through [fetch]: the chain and the provider
    are left alone. *)
Theorem rpc_makes_at_most_two_requests env method params w :
  (length (READS env) <= 2)%nat /\
  (forall u, In u (READS env) ->
             u <> "" /\ (READ_RPC_1 env = Some u \/ READ_RPC_2 env = Some u)) /\
  (Boolean_string (READ_RPC_1 env) = true ->
   head (READS env) = READ_RPC_1 env) /\
  (length (http_log (snd (rpc env method params w))) <= length (http_log w) + 2)%nat /\
  chain (snd (rpc env method params w)) = chain w /\
  node_reqs (snd (rpc env method params w)) = node_reqs w.
Proof.
  assert (Hlen : (length (READS env) <= 2)%nat).
  { rewrite READS_cases.
    destruct (Boolean_string (READ_RPC_1 env)), (Boolean_string (READ_RPC_2 env));
      cbn; lia. }
  split; [exact Hlen|]. split; [|split].
  - intros u Hin. rewrite READS_cases in Hin.
    unfold Boolean_string in Hin.
    destruct (READ_RPC_1 env) as [u1|], (READ_RPC_2 env) as [u2|];
      try destruct (String.eqb u1 "") eqn:E1; try destruct (String.eqb u2 "") eqn:E2;
      cbn -[String.eqb] in Hin;
      repeat match goal with
        | H : _ \/ _ |- _ => destruct H
        | H : False |- _ => destruct H
        end; subst;
      (split; [apply String.eqb_neq; assumption | auto]).
  - intros H1. rewrite READS_cases, H1. unfold Boolean_string in H1.
    destruct (READ_RPC_1 env); [reflexivity | discriminate].
  - unfold rpc.
    destruct (rpc_from_shape (READS env) None method params w) as (k & Hk & Hlog & _).
    rewrite Hlog. unfold attempted, requests. cbn [http_log chain node_reqs].
    rewrite length_app, length_rev, length_map, length_firstn. repeat split. lia.
Qed.

(** ** The factory contract on its own *)

Section Factory.
Context `{Primitives}.

Lemma createAccount_when_deployed c impl this u o :
  has_code (getCode c (AccountFactory_getAddress impl this u)) = true ->
  AccountFactory_createAccount c impl this u o
  = Normal (AccountFactory_getAddress impl this u, c).
Proof.
  unfold AccountFactory_createAccount, AccountFactory_getAddress. intros ->. reflexivity.
Qed.

Lemma createAccount_fresh c impl this u o :
  has_code (getCode c (AccountFactory_getAddress impl this u)) = false ->
  AccountFactory_createAccount c impl this u o =
  match owners c !! AccountFactory_getAddress impl this u with
  | Some _ => Throw (Error "execution reverted: initialized")
  | None =>
      if (o =? 0)%N then Throw (Error "execution reverted: bad owner")
      else Normal (AccountFactory_getAddress impl this u,
                   mkChain (<[AccountFactory_getAddress impl this u := clone_code impl]> (code c))
                           (factories c)
                           (<[AccountFactory_getAddress impl this u := o]> (owners c))
                           (foreign c) (mined c))
  end.
Proof.
  unfold AccountFactory_createAccount, AccountFactory_getAddress. intros ->.
  unfold MinimalAccount_initialize. cbn [owners code factories foreign mined].
  destruct (owners c !! _); [reflexivity|]. destruct (o =? 0)%N; reflexivity.
Qed.

(** X3: [createAccount] is idempotent and the first caller's owner stays.
    A successful call returns the address [getAddress] predicts and leaves
    it with code; on a fresh address the code is the clone of the
    implementation and the owner the one passed.  Any later call for the
    same user id, with any owner (the zero address included), succeeds,
    returns the same address and changes nothing. *)
Theorem createAccount_keeps_first_owner c impl this u o a c' :
  AccountFactory_createAccount c impl this u o = Normal (a, c') ->
  a = AccountFactory_getAddress impl this u /\
  has_code (getCode c' a) = true /\
  (has_code (getCode c a) = false ->
   getCode c' a = clone_code impl /\ owners c' !! a = Some o /\ o <> 0%N) /\
  (forall o2, AccountFactory_createAccount c' impl this u o2 = Normal (a, c')).
Proof.
  intros Hrun.
  destruct (has_code (getCode c (AccountFactory_getAddress impl this u))) eqn:Hcode.
  - rewrite (createAccount_when_deployed _ _ _ _ _ Hcode) in Hrun.
    injection Hrun as <- <-. split; [reflexivity|]. split; [exact Hcode|].
    split; [rewrite Hcode; discriminate|].
    intros o2. apply createAccount_when_deployed. exact Hcode.
  - rewrite (createAccount_fresh _ _ _ _ _ Hcode) in Hrun.
    destruct (owners c !! _); [discriminate|].
    destruct (o =? 0)%N eqn:Ho; [discriminate|]. apply N.eqb_neq in Ho.
    injection Hrun as <- <-.
    assert (Hc : getCode
                   (mkChain (<[AccountFactory_getAddress impl this u := clone_code impl]> (code c))
                            (factories c)
                            (<[AccountFactory_getAddress impl this u := o]> (owners c))
                            (foreign c) (mined c))
                   (AccountFactory_getAddress impl this u) = clone_code impl).
    { unfold getCode. cbn [code]. rewrite lookup_insert_eq. reflexivity. }
    split; [reflexivity|]. split; [rewrite Hc; apply clone_has_code|]. split.
    + intros _. split; [exact Hc|]. split; [|exact Ho].
      cbn [owners]. apply lookup_insert_eq.
    + intros o2. apply createAccount_when_deployed. rewrite Hc. apply clone_has_code.
Qed.

(** X4: [createAccount] touches one account only.  The factories, the
    foreign contracts and the transaction history are as before, and so
    are the code and the owner of every address other than the one
    returned. *)
Theorem createAccount_touches_one_account c impl this u o a c' :
  AccountFactory_createAccount c impl this u o = Normal (a, c') ->
  factories c' = factories c /\ foreign c' = foreign c /\ mined c' = mined c /\
  forall b, b <> a -> code c' !! b = code c !! b /\ owners c' !! b = owners c !! b.
Proof.
  intros Hrun.
  destruct (has_code (getCode c (AccountFactory_getAddress impl this u))) eqn:Hcode.
  - rewrite (createAccount_when_deployed _ _ _ _ _ Hcode) in Hrun.
    injection Hrun as <- <-. repeat split; reflexivity.
  - rewrite (createAccount_fresh _ _ _ _ _ Hcode) in Hrun.
    destruct (owners c !! _); [discriminate|].
    destruct (o =? 0)%N; [discriminate|]. injection Hrun as <- <-.
    cbn [factories foreign mined code owners]. repeat split.
    + apply lookup_insert_ne. congruence.
    + apply lookup_insert_ne. congruence.
Qed.

Lemma createAccount_extends c impl this u o a c' :
  AccountFactory_createAccount c impl this u o = Normal (a, c') ->
  chain_extends c c' /\ (accounts_have_code c -> accounts_have_code c').
Proof.
  intros Hrun.
  destruct (has_code (getCode c (AccountFactory_getAddress impl this u))) eqn:Hcode.
  - rewrite (createAccount_when_deployed _ _ _ _ _ Hcode) in Hrun.
    injection Hrun as <- <-. split; [|trivial].
    repeat split; try reflexivity; [exists []; reflexivity | trivial].
  - rewrite (createAccount_fresh _ _ _ _ _ Hcode) in Hrun.
    destruct (owners c !! _) eqn:Hown; [discriminate|].
    destruct (o =? 0)%N eqn:Ho; [discriminate|]. apply N.eqb_neq in Ho.
    injection Hrun as <- <-. split.
    + unfold chain_extends. cbn [factories foreign mined code owners].
      split; [reflexivity|]. split; [reflexivity|]. split; [exists []; reflexivity|]. split.
      * intros b ob Hb. rewrite lookup_insert_ne; [exact Hb|]. congruence.
      * intros b Hb. unfold getCode. cbn [code].
        rewrite lookup_insert_ne; [reflexivity|]. intros <-. congruence.
    + intros Hinv b ob. cbn [owners]. unfold getCode. cbn [code].
      destruct (decide (AccountFactory_getAddress impl this u = b)) as [<-|Hne].
      * rewrite !lookup_insert_eq. intros [= <-]. split; [apply clone_has_code | exact Ho].
      * rewrite !lookup_insert_ne by exact Hne. apply Hinv.
Qed.

(** X5: when [createAccount] reverts.  On a chain where every initialised
    account has code, the call reverts exactly when the predicted address
    has no code yet and the owner passed is the zero address; and a
    successful call keeps the chain that way. *)
Theorem createAccount_reverts_on_zero_owner_only c impl this u o :
  accounts_have_code c ->
  (is_throw (AccountFactory_createAccount c impl this u o) = true <->
   has_code (getCode c (AccountFactory_getAddress impl this u)) = false /\ o = 0%N) /\
  (forall a c', AccountFactory_createAccount c impl this u o = Normal (a, c') ->
                accounts_have_code c').
Proof.
  intros Hinv. split.
  - destruct (has_code (getCode c (AccountFactory_getAddress impl this u))) eqn:Hcode.
    + rewrite (createAccount_when_deployed _ _ _ _ _ Hcode). cbn.
      split; [discriminate | intros [? _]; discriminate].
    + rewrite (createAccount_fresh _ _ _ _ _ Hcode).
      destruct (owners c !! _) as [o'|] eqn:Hown.
      { destruct (Hinv _ _ Hown) as [Hc _]. congruence. }
      destruct (o =? 0)%N eqn:Ho; cbn.
      * apply N.eqb_eq in Ho. split; auto.
      * apply N.eqb_neq in Ho. split; [discriminate | intros [_ ?]; contradiction].
  - intros a c' Hrun. apply (createAccount_extends _ _ _ _ _ _ _ Hrun). exact Hinv.
Qed.
End Factory.

Lemma createAccount_keeps_first_owner_witness :
  let P := fixture_platform false in
  exists a c',
    @AccountFactory_createAccount P fixture_chain 0x1A9%N 0xFAC70%N "alice" 0x4E1A%N
    = Normal (a, c') /\
    owners c' !! a = Some 0x4E1A%N /\
    @AccountFactory_createAccount P c' 0x1A9%N 0xFAC70%N "alice" 0%N = Normal (a, c').
Proof.
  intros P.
  destruct (@AccountFactory_createAccount P fixture_chain 0x1A9%N 0xFAC70%N "alice" 0x4E1A%N)
    as [[a c']|e] eqn:Hrun; [|vm_compute in Hrun; discriminate Hrun].
  exists a, c'. split; [reflexivity|].
  destruct (@createAccount_keeps_first_owner P _ _ _ _ _ _ _ Hrun) as (Ha & _ & Hfresh & Hagain).
  split; [|apply Hagain].
  apply Hfresh. rewrite Ha. vm_compute. reflexivity.
Defined.

Lemma createAccount_touches_one_account_witness :
  let P := fixture_platform false in
  exists a c',
    @AccountFactory_createAccount P fixture_chain 0x1A9%N 0xFAC70%N "alice" 0x4E1A%N
    = Normal (a, c') /\
    code c' !! 0xFAC70%N = code fixture_chain !! 0xFAC70%N /\ mined c' = [].
Proof.
  intros P.
  destruct (@AccountFactory_createAccount P fixture_chain 0x1A9%N 0xFAC70%N "alice" 0x4E1A%N)
    as [[a c']|e] eqn:Hrun; [|vm_compute in Hrun; discriminate Hrun].
  exists a, c'. split; [reflexivity|].
  destruct (@createAccount_touches_one_account P _ _ _ _ _ _ _ Hrun) as (_ & _ & Hm & Hother).
  split; [|exact Hm]. apply Hother.
  vm_compute in Hrun. injection Hrun as <- _. discriminate.
Defined.

Lemma createAccount_reverts_on_zero_owner_only_witness :
  let P := fixture_platform false in
  is_throw (@AccountFactory_createAccount P fixture_chain 0x1A9%N 0xFAC70%N "alice" 0%N) = true.
Proof.
  intros P.
  apply (proj1 (@createAccount_reverts_on_zero_owner_only P fixture_chain 0x1A9%N 0xFAC70%N
                  "alice" 0%N ltac:(intros a o Ho; vm_compute in Ho; discriminate Ho))).
  split; vm_compute; reflexivity.
Defined.

(** ** What a run leaves behind *)

Section Preserves.
Context (R : World -> World -> Prop).
Hypothesis R_refl : forall w, R w w.
Hypothesis R_trans : forall w1 w2 w3, R w1 w2 -> R w2 w3 -> R w1 w3.

Lemma preserves_ret {A} (a : A) : preserves R (ret a).
Proof. intros w r w' [= _ <-]. apply R_refl. Qed.

Lemma preserves_throw {A} e : preserves R (@throw A e).
Proof. intros w r w' [= _ <-]. apply R_refl. Qed.

Lemma preserves_lift {A} (c : Completion A) : preserves R (lift c).
Proof. intros w r w' [= _ <-]. apply R_refl. Qed.

Lemma preserves_ident b name : preserves R (ident b name).
Proof. unfold ident. destruct b; [apply preserves_ret | apply preserves_throw]. Qed.

Lemma preserves_loadArtifact art : preserves R (loadArtifact art).
Proof. destruct art; [apply preserves_ret | apply preserves_throw]. Qed.

Lemma preserves_bind {A B} (m : Async A) (k : A -> Async B) :
  preserves R m -> (forall a, preserves R (k a)) -> preserves R (bind m k).
Proof.
  intros Hm Hk w r w'. unfold bind.
  destruct (m w) as [[a|e] w1] eqn:Hmw; intros Hrun.
  - eapply R_trans; [eapply Hm; exact Hmw | eapply Hk; exact Hrun].
  - injection Hrun as _ <-. eapply Hm; exact Hmw.
Qed.

Lemma preserves_try_catch {A} (m : Async A) h :
  preserves R m -> (forall e, preserves R (h e)) -> preserves R (try_catch m h).
Proof.
  intros Hm Hh w r w'. unfold try_catch.
  destruct (m w) as [[a|e] w1] eqn:Hmw; intros Hrun.
  - injection Hrun as _ <-. eapply Hm; exact Hmw.
  - eapply R_trans; [eapply Hm; exact Hmw | eapply Hh; exact Hrun].
Qed.

Lemma preserves_catch_500 m : preserves R m -> preserves R (catch_500 m).
Proof. intros Hm. apply preserves_try_catch; [exact Hm|]. intros e. apply preserves_ret. Qed.

Lemma preserves_as_address r : preserves R (as_address r).
Proof.
  destruct r as [[|[] [|]]|]; simpl; try apply preserves_throw. apply preserves_ret.
Qed.

Lemma preserves_as_tx r : preserves R (as_tx r).
Proof. destruct r; simpl; [apply preserves_throw | apply preserves_ret]. Qed.
End Preserves.

(** Handlers catch what their body throws: they always answer. *)
Lemma catch_500_answers m w : exists r w', catch_500 m w = (Normal r, w').
Proof.
  unfold catch_500, try_catch. destruct (m w) as [[a|e] w1]; [eauto|].
  unfold ret. eauto.
Qed.

Lemma only_node_reads_refl w : only_node_reads w w.
Proof. repeat split. Qed.

Lemma only_node_reads_trans w1 w2 w3 :
  only_node_reads w1 w2 -> only_node_reads w2 w3 -> only_node_reads w1 w3.
Proof.
  intros (A1 & B1 & C1 & D1) (A2 & B2 & C2 & D2).
  repeat split; congruence.
Qed.

Lemma only_fetches_refl w : only_fetches w w.
Proof. repeat split. Qed.

Lemma only_fetches_trans w1 w2 w3 :
  only_fetches w1 w2 -> only_fetches w2 w3 -> only_fetches w1 w3.
Proof.
  intros (A1 & B1 & C1 & D1) (A2 & B2 & C2 & D2).
  repeat split; congruence.
Qed.

Lemma chain_extends_refl c : chain_extends c c.
Proof. repeat split; trivial. exists []. reflexivity. Qed.

Lemma chain_extends_trans c1 c2 c3 :
  chain_extends c1 c2 -> chain_extends c2 c3 -> chain_extends c1 c3.
Proof.
  intros (F1 & G1 & (t1 & M1) & O1 & C1) (F2 & G2 & (t2 & M2) & O2 & C2).
  split; [congruence|]. split; [congruence|]. split; [|split].
  - exists (t2 ++ t1). rewrite M2, M1, app_assoc. reflexivity.
  - intros a o Ho. apply O2, O1, Ho.
  - intros a Ha. rewrite C2; [apply C1, Ha|]. rewrite C1; exact Ha.
Qed.

Lemma history_grows_refl w : history_grows w w.
Proof. split; [apply chain_extends_refl | trivial]. Qed.

Lemma history_grows_trans w1 w2 w3 :
  history_grows w1 w2 -> history_grows w2 w3 -> history_grows w1 w3.
Proof.
  intros [E1 I1] [E2 I2]. split; [eapply chain_extends_trans; eassumption | auto].
Qed.

Lemma only_node_reads_node_read {A} (f : Chain -> Completion A) :
  preserves only_node_reads (node_request (fun c => (f c, c))).
Proof.
  intros w r w'. rewrite node_request_run.
  destruct (node_env w (node_reqs w)); intros [= _ <-]; repeat split.
Qed.

Lemma only_fetches_fetch rq : preserves only_fetches (fetch rq).
Proof.
  intros w r w'. unfold fetch.
  destruct (http_env w (length (http_log w)) rq); intros [= _ <-]; repeat split.
Qed.

Lemma history_grows_same_chain w w' : chain w' = chain w -> history_grows w w'.
Proof.
  intros Hc. unfold history_grows. rewrite Hc. split; [apply chain_extends_refl | trivial].
Qed.

Lemma history_grows_node_read {A} (f : Chain -> Completion A) :
  preserves history_grows (node_request (fun c => (f c, c))).
Proof.
  intros w r w' Hrun. apply history_grows_same_chain.
  exact (reads_only_node_read f w r w' Hrun).
Qed.

Lemma history_grows_fetch rq : preserves history_grows (fetch rq).
Proof.
  intros w r w' Hrun. apply history_grows_same_chain.
  exact (reads_only_fetch rq w r w' Hrun).
Qed.

Lemma include_extends c tx : chain_extends c (include c tx).
Proof.
  repeat split; trivial. exists [tx]. reflexivity.
Qed.

Lemma include_accounts c tx : accounts_have_code c -> accounts_have_code (include c tx).
Proof. intros Hinv a o Ho. apply (Hinv a o Ho). Qed.

Lemma fetched_from_refl urls method w : fetched_from urls method w w.
Proof. split; [apply only_fetches_refl|]. exists []. split; [reflexivity | constructor]. Qed.

Lemma fetched_from_trans urls method w1 w2 w3 :
  fetched_from urls method w1 w2 -> fetched_from urls method w2 w3 ->
  fetched_from urls method w1 w3.
Proof.
  intros [F1 (r1 & L1 & A1)] [F2 (r2 & L2 & A2)].
  split; [eapply only_fetches_trans; eassumption|].
  exists (r2 ++ r1). split; [rewrite L2, L1, app_assoc; reflexivity|].
  apply Forall_app. split; assumption.
Qed.

Ltac pres_leaf :=
  first [ apply only_node_reads_refl | apply only_fetches_refl | apply history_grows_refl
        | apply fetched_from_refl
        | exact only_node_reads_trans | exact only_fetches_trans
        | exact history_grows_trans | exact (fetched_from_trans _ _) ].

(** One step through the syntax of a computation. *)
Ltac pres_step :=
  lazymatch goal with
  | |- preserves _ (bind _ _) => apply preserves_bind; [pres_leaf | | intros ?]
  | |- preserves _ (try_catch _ _) => apply preserves_try_catch; [pres_leaf | | intros ?]
  | |- preserves _ (catch_500 _) => apply preserves_catch_500; [pres_leaf | pres_leaf | ]
  | |- preserves _ (ret _) => apply preserves_ret; pres_leaf
  | |- preserves _ (throw _) => apply preserves_throw; pres_leaf
  | |- preserves _ (lift _) => apply preserves_lift; pres_leaf
  | |- preserves _ (ident _ _) => apply preserves_ident; pres_leaf
  | |- preserves _ (loadArtifact _) => apply preserves_loadArtifact; pres_leaf
  | |- preserves _ (as_address _) => apply preserves_as_address; pres_leaf
  | |- preserves _ (as_tx _) => apply preserves_as_tx; pres_leaf
  | |- preserves _ (if ?b then _ else _) => destruct b
  | |- preserves _ (match ?x with _ => _ end) => destruct x
  end.

Section Monotone.
Context `{Primitives}.

Lemma send_tx_extends from to call c :
  chain_extends c (snd (send_tx from to call c)) /\
  (accounts_have_code c -> accounts_have_code (snd (send_tx from to call c))).
Proof.
  assert (Hsame : chain_extends c c /\ (accounts_have_code c -> accounts_have_code c))
    by (split; [apply chain_extends_refl | trivial]).
  assert (Hincl : chain_extends c (include c (mkTx from to call)) /\
                  (accounts_have_code c ->
                   accounts_have_code (include c (mkTx from to call))))
    by (split; [apply include_extends | apply include_accounts]).
  unfold send_tx. destruct (factories c !! to) as [impl|].
  - destruct (String.eqb _ "createAccount(string,address)").
    + destruct (call_args call) as [|[| | | |u] [|[o| | | |] [|]]]; try exact Hsame.
      destruct (AccountFactory_createAccount c impl to u o) as [[a c']|e] eqn:Hrun;
        [|exact Hsame].
      cbn [snd]. destruct (createAccount_extends _ _ _ _ _ _ _ Hrun) as [Hext Hacc]. split.
      * eapply chain_extends_trans; [exact Hext | apply include_extends].
      * intros Hinv. apply include_accounts, Hacc, Hinv.
    + destruct (_ || _); [exact Hincl | exact Hsame].
  - destruct (foreign c !! to); [exact Hincl|].
    destruct (has_code (getCode c to)); [exact Hsame | exact Hincl].
Qed.

Lemma history_grows_send from to call :
  preserves history_grows (node_request (send_tx from to call)).
Proof.
  intros w r w'. rewrite node_request_run.
  destruct (node_env w (node_reqs w)); intros [= _ <-].
  - apply history_grows_same_chain. reflexivity.
  - exact (send_tx_extends from to call (chain w)).
Qed.

Lemma only_node_reads_invoke ct key args :
  c_signer ct = None -> preserves only_node_reads (invoke ct key args).
Proof.
  intros Hsigner. unfold invoke. pres_step; [pres_step|].
  do 3 pres_step.
  - pres_step; [apply only_node_reads_node_read|]. repeat pres_step.
  - rewrite Hsigner. pres_step.
Qed.

Lemma history_grows_invoke ct key args : preserves history_grows (invoke ct key args).
Proof.
  unfold invoke. pres_step; [pres_step|].
  do 3 pres_step.
  - pres_step; [apply history_grows_node_read|]. repeat pres_step.
  - pres_step; [|pres_step].
    pres_step; [apply history_grows_send | pres_step].
Qed.
End Monotone.

(** ** The resolver reads and nothing else *)

Section ResolverReads.
Context `{Primitives}.

Lemma only_node_reads_provider_call to call :
  preserves only_node_reads (provider_call to call).
Proof. exact (only_node_reads_node_read (fun c => eth_call c to call)). Qed.

Lemma only_node_reads_provider_getCode a : preserves only_node_reads (provider_getCode a).
Proof. exact (only_node_reads_node_read (fun c => Normal (getCode c a))). Qed.

Lemma only_node_reads_resolve_by_string ct userId :
  c_signer ct = None -> preserves only_node_reads (resolve_by_string ct userId).
Proof.
  intros Hsigner. unfold resolve_by_string. pres_step.
  { unfold contract_getAddress. pres_step; [pres_step|].
    apply only_node_reads_invoke. exact Hsigner. }
  pres_step; [pres_step|].
  pres_step; [apply only_node_reads_provider_getCode|].
  cbv zeta. pres_step; [|pres_step]. pres_step; pres_step.
Qed.

Lemma only_node_reads_resolve_by_bytes32 sc ct factoryAddr userId :
  preserves only_node_reads (resolve_by_bytes32 sc ct factoryAddr userId).
Proof.
  unfold resolve_by_bytes32. pres_step; [pres_step|].
  cbv zeta. pres_step; [pres_step|].
  pres_step; [pres_step; repeat pres_step|].
  pres_step; [pres_step|].
  pres_step; [apply only_node_reads_provider_call|].
  pres_step; [pres_step|].
  pres_step; [pres_step|].
  pres_step; [apply only_node_reads_provider_getCode|].
  pres_step; [|pres_step]. pres_step; pres_step.
Qed.

Lemma only_node_reads_getSenderAndInit sc env factoryAddr userId :
  preserves only_node_reads (getSenderAndInit sc env factoryAddr userId).
Proof.
  unfold getSenderAndInit, accountFactoryContract.
  destruct (artifact_AccountFactory env) as [abi|]; cbn [loadArtifact].
  - rewrite !bind_ret_l. pres_step.
    + apply only_node_reads_resolve_by_string. reflexivity.
    + apply only_node_reads_resolve_by_bytes32.
  - intros w r w' Hrun. cbv [bind throw] in Hrun. injection Hrun as _ <-.
    apply only_node_reads_refl.
Qed.


End ResolverReads.


(** ** Statuses *)

Lemma answers_ret (P : nat -> Prop) r : P (status r) -> answers P (ret r).
Proof. intros HP w r' w' [= <- _]. exact HP. Qed.

Lemma answers_throw (P : nat -> Prop) e : answers P (throw e).
Proof. intros w r w' Hrun. discriminate Hrun. Qed.

Lemma answers_bind {A} (P : nat -> Prop) (m : Async A) k :
  (forall a, answers P (k a)) -> answers P (bind m k).
Proof.
  intros Hk w r w' Hrun. apply bind_Normal_inv in Hrun as (a & w1 & _ & Hrun).
  exact (Hk a w1 r w' Hrun).
Qed.

Ltac ans_step :=
  lazymatch goal with
  | |- answers _ (bind _ _) => apply answers_bind; intros ?
  | |- answers _ (ret _) => apply answers_ret; cbn [status res_json res_status_json]; auto
  | |- answers _ (throw _) => apply answers_throw
  | |- answers _ (if ?b then _ else _) => destruct b
  | |- answers _ (match ?x with _ => _ end) => destruct x
  end.

(** A handler whose body answers 200 or 500 answers 200 or 500. *)
Lemma validates_accepted m :
  answers (fun s => s = 200%nat \/ s = 500%nat) m -> validates (catch_500 m) false.
Proof.
  intros Hm w. unfold catch_500, try_catch.
  destruct (m w) as [[r|e] w1] eqn:Hrun.
  - exists r, w1. split; [reflexivity|]. exact (Hm w r w1 Hrun).
  - eexists _, _. split; [reflexivity|]. right. reflexivity.
Qed.

Lemma validates_rejected msg :
  validates (catch_500 (ret (res_status_json 400 (error_body msg)))) true.
Proof. intros w. eexists _, _. split; [reflexivity|]. split; reflexivity. Qed.

Section Validation.
Context `{Primitives}.

(** X8: the account handlers validate before they act.  Each of
    [GET /api/aa/address], [GET /api/aa/create] and [POST /api/aa/deploy]
    always answers, with status 200, 400 or 500; the status is 400 exactly
    when the user id is missing or [AA_FACTORY] is not set, and in that
    case no request went to the node or the network. *)
Theorem account_handlers_validate sc env rq :
  validates (aa_address sc env rq)
            (String.eqb (query_or rq "user" "") "" || unset (AA_FACTORY env)) /\
  validates (aa_create env rq)
            (String.eqb (query_or rq "user" "") "" || unset (AA_FACTORY env)) /\
  validates (aa_deploy env rq)
            (String.eqb (query_or_body rq "user") "" || unset (AA_FACTORY env)).
Proof.
  split; [|split].
  - unfold aa_address. cbv zeta.
    destruct (String.eqb (query_or rq "user" "") ""); [apply validates_rejected|].
    destruct (AA_FACTORY env) as [factoryAddr|]; [|apply validates_rejected].
    apply validates_accepted. repeat ans_step.
  - unfold aa_create. cbv zeta.
    destruct (String.eqb (query_or rq "user" "") ""); [apply validates_rejected|].
    destruct (AA_FACTORY env) as [factoryAddr|]; [|apply validates_rejected].
    apply validates_accepted. repeat ans_step.
  - unfold aa_deploy. cbv zeta.
    destruct (String.eqb (query_or_body rq "user") ""); [apply validates_rejected|].
    destruct (AA_FACTORY env) as [factoryAddr|]; [|apply validates_rejected].
    apply validates_accepted. repeat ans_step.
Qed.
End Validation.

(** ** Deploying a fresh account *)

Section FreshDeployment.
Context `{Primitives}.

Lemma node_healthy_at n w k : node_healthy n w -> (k < n)%nat -> node_env w (k + node_reqs w) = None.
Proof. intros Hn Hk. exact (Hn k Hk). Qed.

End FreshDeployment.


(** ** Who owns a deployed account *)

Section DeployOwner.
Context `{Primitives}.

(** X10: the owner [POST /api/aa/deploy] passes on.  A successful call
    sends [createAccount(userId, owner)] from the relayer, where [owner] is
    the parsed [owner] parameter when one is given and the relayer's own
    address otherwise; the response echoes the parameter as given.  On an
    account without code that owner is recorded (and is not the zero
    address); on an account that already has code the owners are left as
    they were, whatever owner was asked for.  An [owner] parameter that is
    not an address makes the call fail before any transaction is sent. *)
Theorem aa_deploy_owner env rq w FACTORY impl :
  let userId := query_or_body rq "user" in
  let ownerStr := query_or_body rq "owner" in
  let account := AccountFactory_getAddress impl FACTORY userId in
  AA_FACTORY env = Some FACTORY ->
  artifact_AccountFactory env = Some AccountFactory_abi ->
  factories (chain w) !! FACTORY = Some impl ->
  (forall r w',
      aa_deploy env rq w = (Normal r, w') -> status r = 200%nat ->
      exists owner,
        (if String.eqb ownerStr "" then owner = relayer env
         else parse_address ownerStr = Some owner) /\
        mined (chain w')
          = mkTx (relayer env) FACTORY
                 (mkCall createAccount_fragment [VString userId; VAddress owner])
              :: mined (chain w) /\
        prop (payload r) "owner"
          = Some (if String.eqb ownerStr "" then json_address (relayer env)
                  else JStr ownerStr) /\
        (has_code (getCode (chain w) account) = false ->
         owners (chain w') !! account = Some owner /\ owner <> 0%N) /\
        (has_code (getCode (chain w) account) = true ->
         owners (chain w') = owners (chain w))) /\
  (ownerStr <> "" -> parse_address ownerStr = None ->
   forall r w',
     aa_deploy env rq w = (Normal r, w') -> status r <> 200%nat /\ chain w' = chain w).
Proof.
  intros userId ownerStr account Hfac Hart Hch.
  assert (Hok : forall r w',
             aa_deploy env rq w = (Normal r, w') -> status r = 200%nat ->
             exists owner,
               (if String.eqb ownerStr "" then owner = relayer env
                else parse_address ownerStr = Some owner) /\
               mined (chain w')
                 = mkTx (relayer env) FACTORY
                        (mkCall createAccount_fragment [VString userId; VAddress owner])
                     :: mined (chain w) /\
               prop (payload r) "owner"
                 = Some (if String.eqb ownerStr "" then json_address (relayer env)
                         else JStr ownerStr) /\
               (has_code (getCode (chain w) account) = false ->
                owners (chain w') !! account = Some owner /\ owner <> 0%N) /\
               (has_code (getCode (chain w) account) = true ->
                owners (chain w') = owners (chain w))).
  { intros r w' Hrun Hst. unfold aa_deploy in Hrun.
    apply catch_500_ok in Hrun; [|exact Hst]. cbv zeta in Hrun.
    fold userId ownerStr in Hrun.
    destruct (String.eqb userId "").
    { apply ret_inv in Hrun as [-> _]. discriminate Hst. }
    rewrite Hfac, Hart in Hrun. unfold loadArtifact, bind at 1, ret at 1 in Hrun.
    unfold bind at 1 in Hrun.
    rewrite (invoke_getAddress_string_run _ _ _ _ _ Hch) in Hrun.
    destruct (node_env w (node_reqs w)) as [e|] eqn:Hn1; [discriminate|].
    change (resolve_method AccountFactory_abi "createAccount(string,address)" 2)
      with (Normal createAccount_fragment) in Hrun.
    unfold bind at 1, lift at 1 in Hrun. unfold bind at 1 in Hrun.
    set (w1 := served w (chain w)) in *.
    destruct ((if String.eqb ownerStr "" then ret (relayer env)
               else match parse_address ownerStr with
                    | Some a => ret a
                    | None => throw (TypeError "invalid address")
                    end) w1) as [[owner|e] w2] eqn:Howner; [|discriminate].
    assert (Hwho : (if String.eqb ownerStr "" then owner = relayer env
                    else parse_address ownerStr = Some owner) /\ w2 = w1).
    { destruct (String.eqb ownerStr "").
      - apply ret_inv in Howner as [-> ->]. split; reflexivity.
      - destruct (parse_address ownerStr); [|discriminate].
        apply ret_inv in Howner as [-> ->]. split; reflexivity. }
    destruct Hwho as [Hwho ->].
    unfold bind at 1 in Hrun.
    destruct (N.lt_ge_cases owner (2 ^ 160)) as [Hown | Hown].
    2:{ rewrite invoke_createAccount_out_of_range in Hrun by (auto). discriminate. }
    rewrite (invoke_createAccount_run _ _ _ impl) in Hrun by (auto).
    subst w1. cbn [served node_env node_reqs chain fst snd] in Hrun.
    destruct (node_env w (S (node_reqs w))) as [e|] eqn:Hn2; [discriminate|].
    destruct (AccountFactory_createAccount (chain w) impl FACTORY userId owner)
      as [[a c']|e] eqn:Hcreate; [|discriminate].
    pose proof (createAccount_effect _ _ _ _ _ _ _ Hcreate) as (-> & Hdep & Hfacs & Hmined & Hnoop).
    unfold bind at 1 in Hrun. cbn [as_tx ret] in Hrun.
    unfold bind at 1, tx_wait in Hrun. rewrite node_request_run in Hrun.
    cbn [served node_env node_reqs chain fst snd] in Hrun.
    destruct (node_env w (S (S (node_reqs w)))) as [e|] eqn:Hn3; [discriminate|].
    unfold bind at 1 in Hrun. cbn [as_address ret] in Hrun.
    unfold bind at 1, provider_getCode in Hrun. rewrite node_request_run in Hrun.
    cbn [served node_env node_reqs chain fst snd] in Hrun.
    destruct (node_env w (S (S (S (node_reqs w))))) as [e|] eqn:Hn4; [discriminate|].
    rewrite getCode_include, Hdep in Hrun.
    apply ret_inv in Hrun as [-> ->]. cbn [chain served include mined owners].
    exists owner. split; [exact Hwho|]. split; [rewrite Hmined; reflexivity|].
    split; [destruct (String.eqb ownerStr ""); [rewrite Hwho|]; reflexivity|]. split.
    - intros Hfresh. fold account in Hcreate.
      rewrite (createAccount_fresh _ _ _ _ _ Hfresh) in Hcreate. fold account in Hcreate.
      destruct (owners (chain w) !! account); [discriminate|].
      destruct (owner =? 0)%N eqn:Hz; [discriminate|]. apply N.eqb_neq in Hz.
      injection Hcreate as <-. cbn [owners]. split; [apply lookup_insert_eq | exact Hz].
    - intros Hcode. rewrite (Hnoop Hcode). reflexivity. }
  split; [exact Hok|].
  intros Hgiven Hbad r w' Hrun. split.
  - intros Hst. destruct (Hok r w' Hrun Hst) as (owner & Hwho & _).
    apply String.eqb_neq in Hgiven. rewrite Hgiven in Hwho. congruence.
  - apply String.eqb_neq in Hgiven. unfold aa_deploy in Hrun. cbv zeta in Hrun.
    fold userId ownerStr in Hrun.
    destruct (String.eqb userId "").
    { cbv in Hrun. injection Hrun as _ <-. reflexivity. }
    rewrite Hfac, Hart, Hgiven, Hbad in Hrun.
    unfold catch_500, try_catch, loadArtifact in Hrun. rewrite bind_ret_l in Hrun.
    unfold bind at 1 in Hrun.
    rewrite (invoke_getAddress_string_run _ _ _ _ _ Hch) in Hrun.
    destruct (node_env w (node_reqs w)) as [e|].
    + cbv [ret] in Hrun. injection Hrun as _ <-. reflexivity.
    + change (resolve_method AccountFactory_abi "createAccount(string,address)" 2)
        with (Normal createAccount_fragment) in Hrun.
      cbv [bind lift throw ret] in Hrun. injection Hrun as _ <-. reflexivity.
Qed.
End DeployOwner.

Lemma aa_deploy_owner_witness :
  let P := fixture_platform false in
  let w := world_of fixture_chain flaky_http in
  let rq := mkReq [("user", "alice")]
                  [("owner", "0x00000000000000000000000000000000000000aa")] in
  exists r w',
    @aa_deploy P fixture_env rq w = (Normal r, w') /\
    owners (chain w') !! (@AccountFactory_getAddress P 0x1A9%N 0xFAC70%N "alice")
    = Some 0xaa%N /\
    (forall r2 w2,
        @aa_deploy P fixture_env (mkReq [("user", "alice")] [("owner", "0xzz")]) w
        = (Normal r2, w2) -> status r2 <> 200%nat /\ chain w2 = chain w).
Proof.
  intros P w rq.
  eassert (Hrun : @aa_deploy P fixture_env rq w = (Normal _, _)) by (vm_compute; reflexivity).
  match type of Hrun with
  | _ = (Normal ?r, ?w') => exists r, w'
  end.
  split; [exact Hrun|].
  destruct (@aa_deploy_owner P fixture_env rq w 0xFAC70%N 0x1A9%N eq_refl eq_refl eq_refl)
    as [Hok _].
  destruct (Hok _ _ Hrun eq_refl) as (owner & Hwho & _ & _ & Hfresh & _).
  split.
  - destruct (Hfresh ltac:(vm_compute; reflexivity)) as [Hown _].
    refine (eq_trans Hown _). vm_compute in Hwho. injection Hwho as <-. reflexivity.
  - apply (proj2 (@aa_deploy_owner P fixture_env
                    (mkReq [("user", "alice")] [("owner", "0xzz")]) w 0xFAC70%N 0x1A9%N
                    eq_refl eq_refl eq_refl)).
    + discriminate.
    + reflexivity.
Defined.

(** ** The gasless mint as written *)

Section GaslessAsWritten.
Context `{Primitives}.

(** X11: [GET /api/aa/gasless-mint/send], with the names the module
    binds, always answers and never gets as far as the bundler: no [fetch]
    is issued and the chain is left as it was, whatever the request.  The
    answer is a 400, with nothing requested at all, exactly when a
    parameter or a configuration variable is missing; otherwise it is a
    500. *)
Theorem gasless_mint_send_stops_before_bundler env rq w :
  exists r w',
    gasless_mint_send index_js_scope env rq w = (Normal r, w') /\
    only_node_reads w w' /\
    if gasless_rejected env rq then status r = 400%nat /\ w' = w
    else status r = 500%nat.
Proof.
  unfold gasless_mint_send, gasless_rejected, catch_500, try_catch. cbv zeta.
  pose proof (only_node_reads_refl w) as Hrefl.
  destruct (String.eqb (query_or rq "user" "") ""); [cbn; eauto 6|].
  destruct (startsWith_0x (query_or rq "to" "")); [|cbn; eauto 6].
  destruct (AA_FACTORY env) as [factoryAddr|]; [|cbn; eauto 6].
  destruct (REWARD_TOKEN env) as [tokenAddr|]; [|cbn; eauto 6].
  destruct (PAYMASTER env) as [paymasterAddr|]; [|cbn; eauto 6].
  destruct (ENTRYPOINT env) as [entryPoint|];
    [|destruct (Boolean_string (BUNDLER_URL env)); cbn; eauto 6].
  destruct (Boolean_string (BUNDLER_URL env)); [|cbn; eauto 6].
  cbn [negb orb unset]. unfold bind at 1.
  destruct (getSenderAndInit index_js_scope env factoryAddr (query_or rq "user" "") w)
    as [[si|e] w1] eqn:Hrun.
  - unfold bind at 1. rewrite encode_mint_call_throws.
    eexists _, _. split; [reflexivity|]. split; [|reflexivity].
    exact (only_node_reads_getSenderAndInit _ _ _ _ _ _ _ Hrun).
  - eexists _, _. split; [reflexivity|]. split; [|reflexivity].
    exact (only_node_reads_getSenderAndInit _ _ _ _ _ _ _ Hrun).
Qed.
End GaslessAsWritten.

(** ** Reads of the address handler *)

Lemma In_firstn {A} (x : A) k l : In x (firstn k l) -> In x l.
Proof.
  intros Hin. rewrite <- (firstn_skipn k l). apply in_or_app. left. exact Hin.
Qed.

Lemma rpc_fetched_from env method params :
  preserves (fetched_from (READS env) method) (rpc env method params).
Proof.
  intros w r w' Hrun.
  destruct (rpc_from_shape (READS env) None method params w) as (k & _ & Hlog & _).
  unfold rpc in Hrun. rewrite Hrun in Hlog. cbn [snd] in Hlog. subst w'.
  split; [repeat split|].
  exists (rev (requests method params (firstn k (READS env)))).
  split; [reflexivity|]. apply Forall_rev, List.Forall_forall.
  intros rq Hin. unfold requests in Hin. apply in_map_iff in Hin as (u & <- & Hu).
  split; [exact (In_firstn _ _ _ Hu) | reflexivity].
Qed.

Section AddressReads.
Context `{Primitives}.

Lemma safeCall_fetched_from env to data :
  preserves (fetched_from (READS env) "eth_call") (safeCall env to data).
Proof.
  unfold safeCall. pres_step; [|pres_step].
  pres_step; [apply rpc_fetched_from | pres_step].
Qed.

Lemma read_implementation_fetched_from env facIf factoryAddr :
  preserves (fetched_from (READS env) "eth_call") (read_implementation env facIf factoryAddr).
Proof.
  unfold read_implementation. pres_step; [|pres_step].
  pres_step; [pres_step|].
  pres_step; [apply rpc_fetched_from|].
  pres_step; pres_step.
Qed.

Lemma aa_address_fetched_from sc env rq :
  preserves (fetched_from (READS env) "eth_call") (aa_address sc env rq).
Proof.
  unfold aa_address. cbv zeta.
  repeat pres_step;
    first [apply safeCall_fetched_from | apply read_implementation_fetched_from].
Qed.

(** Computations that issue at most [n] [fetch] requests. *)
Lemma fetches_ret {A} n (a : A) w r w' :
  ret a w = (r, w') -> (length (http_log w') <= length (http_log w) + n)%nat.
Proof. intros [= _ <-]. lia. Qed.

Lemma fetches_bind {A B} a b n (m : Async A) (k : A -> Async B) :
  (a + b <= n)%nat ->
  (forall w r w', m w = (r, w') -> (length (http_log w') <= length (http_log w) + a)%nat) ->
  (forall x w r w', k x w = (r, w') -> (length (http_log w') <= length (http_log w) + b)%nat) ->
  forall w r w', bind m k w = (r, w') ->
                 (length (http_log w') <= length (http_log w) + n)%nat.
Proof.
  intros Hn Hm Hk w r w'. unfold bind.
  destruct (m w) as [[x|e] w1] eqn:Hmw; intros Hrun.
  - specialize (Hm _ _ _ Hmw). specialize (Hk _ _ _ _ Hrun). lia.
  - injection Hrun as _ <-. specialize (Hm _ _ _ Hmw). lia.
Qed.

Lemma fetches_rpc env method params w r w' :
  rpc env method params w = (r, w') ->
  (length (http_log w') <= length (http_log w) + 2)%nat.
Proof.
  intros Hrun.
  destruct (rpc_from_shape (READS env) None method params w) as (k & Hk & Hlog & _).
  unfold rpc in Hrun. rewrite Hrun in Hlog. cbn [snd] in Hlog. subst w'.
  assert (Hlen : (length (READS env) <= 2)%nat).
  { rewrite READS_cases.
    destruct (Boolean_string (READ_RPC_1 env)), (Boolean_string (READ_RPC_2 env));
      cbn; lia. }
  unfold attempted, requests. cbn [http_log].
  rewrite length_app, length_rev, length_map, length_firstn. lia.
Qed.

Lemma fetches_safeCall env to data w r w' :
  safeCall env to data w = (r, w') ->
  (length (http_log w') <= length (http_log w) + 2)%nat.
Proof.
  unfold safeCall, try_catch, bind.
  destruct (rpc env "eth_call" _ w) as [[x|e] w1] eqn:Hrpc; intros [= _ <-];
    exact (fetches_rpc _ _ _ _ _ _ Hrpc).
Qed.

Lemma fetches_read_implementation env facIf factoryAddr w r w' :
  read_implementation env facIf factoryAddr w = (r, w') ->
  (length (http_log w') <= length (http_log w) + 2)%nat.
Proof.
  unfold read_implementation, try_catch, bind, lift, ret.
  destruct (encodeCall facIf "implementation" []) as [implData|e]; [|intros [= _ <-]; lia].
  destruct (rpc env "eth_call" _ w) as [[x|e] w1] eqn:Hrpc.
  - destruct (decode_first facIf "implementation" x); intros [= _ <-];
      exact (fetches_rpc _ _ _ _ _ _ Hrpc).
  - intros [= _ <-]. exact (fetches_rpc _ _ _ _ _ _ Hrpc).
Qed.

Lemma aa_address_request_count sc env rq w :
  (length (http_log (snd (aa_address sc env rq w))) <= length (http_log w) + 6)%nat.
Proof.
  destruct (aa_address sc env rq w) as [r w'] eqn:Hrun. cbn [snd].
  revert w r w' Hrun. unfold aa_address, catch_500, try_catch. cbv zeta.
  assert (Hcatch : forall (m : Async Response),
             (forall w r w', m w = (r, w') ->
                             (length (http_log w') <= length (http_log w) + 6)%nat) ->
             forall w r w',
               match m w with
               | (Normal a, w1) => (Normal a, w1)
               | (Throw e, w1) => ret (res_status_json 500 (error_body (String_of_error e))) w1
               end = (r, w') ->
               (length (http_log w') <= length (http_log w) + 6)%nat).
  { intros m Hm w r w'. destruct (m w) as [[a|e] w1] eqn:Hmw; intros [= _ <-];
      exact (Hm _ _ _ Hmw). }
  apply Hcatch.
  destruct (String.eqb (query_or rq "user" "") ""); [apply fetches_ret|].
  destruct (AA_FACTORY env) as [factoryAddr|]; [|apply fetches_ret].
  apply (fetches_bind 0 6); [lia | intros w r w'; destruct (artifact_AccountFactory env);
                                   intros [= _ <-]; lia |].
  intros facIf. apply (fetches_bind 0 6); [lia | intros w r w' [= _ <-]; lia |].
  intros data. apply (fetches_bind 2 4); [lia | apply fetches_safeCall |].
  intros out. apply (fetches_bind 2 2); [lia | | ].
  - destruct (negb _); [|apply fetches_ret].
    apply (fetches_bind 0 2); [lia | intros w r w'; destruct (binds_keccak256 sc);
                                     intros [= _ <-]; lia |].
    intros _. apply (fetches_bind 0 2); [lia | intros w r w'; destruct (binds_toUtf8Bytes sc);
                                              intros [= _ <-]; lia |].
    intros _. apply (fetches_bind 0 2); [lia | intros w r w' [= _ <-]; lia |].
    intros data2. apply (fetches_bind 2 0); [lia | apply fetches_safeCall |].
    intros out2. destruct (truthy_opt out2); [|apply fetches_ret].
    destruct (decode_first altIf "getAddress" _); apply fetches_ret.
  - intros smartAccount. apply (fetches_bind 2 0); [lia | apply fetches_read_implementation |].
    intros implementation. destruct (negb _); [apply fetches_ret|].
    apply (fetches_bind 0 0); [lia | intros w r w' [= _ <-]; lia |].
    intros impl_. apply (fetches_bind 0 0); [lia | intros w r w' [= _ <-]; lia |].
    intros sa. apply fetches_ret.
Qed.

(** X12: [GET /api/aa/address] is a reader.  Whatever the request, the
    scope and the endpoints do, it leaves the chain alone, never uses the
    provider, and every request it issues is an [eth_call] to one of the
    configured read endpoints; there are at most six of them. *)
Theorem aa_address_reads_through_rpc sc env rq w :
  fetched_from (READS env) "eth_call" w (snd (aa_address sc env rq w)) /\
  (length (http_log (snd (aa_address sc env rq w))) <= length (http_log w) + 6)%nat.
Proof.
  split.
  - eapply aa_address_fetched_from. apply surjective_pairing.
  - apply aa_address_request_count.
Qed.
End AddressReads.

(** ** The address handler when the primary read answers *)

Lemma hex_digits_byte (x : Byte.byte) :
  hex_val (hex_digit (Byte.to_N x / 16)) = Some (Byte.to_N x / 16)%N /\
  hex_val (hex_digit (Byte.to_N x mod 16)) = Some (Byte.to_N x mod 16)%N /\
  byte_of_N (Byte.to_N x / 16 * 16 + Byte.to_N x mod 16) = x.
Proof. destruct x; repeat split. Qed.

Lemma parse_hex_body_hex_body (b : list Byte.byte) : parse_hex_body (hex_body b) = Some b.
Proof.
  induction b as [|x b IH]; [reflexivity|].
  cbn [hex_body parse_hex_body].
  destruct (hex_digits_byte x) as (-> & -> & ->). rewrite IH. reflexivity.
Qed.

(** Hex data survives the trip through JSON. *)
Lemma parse_hex_hexlify (b : list Byte.byte) : parse_hex (hexlify b) = Some b.
Proof. unfold hexlify. cbn. apply parse_hex_body_hex_body. Qed.

Lemma truthy_hexlify (b : list Byte.byte) : truthy (JStr (hexlify b)) = true.
Proof. reflexivity. Qed.

Lemma decode_single_address d vs :
  abi_decode [TAddress] d = Some vs -> exists i, vs = [VAddress i].
Proof.
  unfold abi_decode. cbn [abi_decode_from]. unfold decode_param.
  destruct (slice (32 * 0) 32 d) as [w|]; [|discriminate].
  destruct (be_value w <? 2 ^ 160)%N; [|discriminate].
  intros [= <-]. eauto.
Qed.

Section PrimaryPath.
Context `{Primitives}.

Lemma decode_first_getAddress_word a :
  (a < 2 ^ 160)%N ->
  decode_first AccountFactory_abi "getAddress" (JStr (hexlify (be_bytes 32 a)))
  = Normal (Some (VAddress a)).
Proof.
  intros Ha. unfold decode_first. rewrite parse_hex_hexlify.
  unfold decodeFunctionResult.
  change (getFunction AccountFactory_abi "getAddress") with (Normal (Some getAddress_fragment)).
  cbn [f_outputs getAddress_fragment]. rewrite <- abi_encode_address.
  rewrite decode_address_word by exact Ha. reflexivity.
Qed.

(** With the compiled ABI, step 3 yields an address or [null] and never
    fails the request. *)
Lemma read_implementation_repo env factoryAddr w :
  exists i w',
    read_implementation env AccountFactory_abi factoryAddr w
    = (Normal (Normal (Some (json_opt_address i))), w').
Proof.
  unfold read_implementation, try_catch.
  change (encodeCall AccountFactory_abi "implementation" [])
    with (Normal (mkCall (mkFragment "implementation" [] [TAddress] true) [])).
  rewrite bind_lift_l. unfold bind at 1.
  destruct (rpc env "eth_call" _ w) as [[implOut|e] w1].
  2:{ exists None, w1. reflexivity. }
  unfold bind, lift.
  destruct (decode_first AccountFactory_abi "implementation" implOut) as [v|e] eqn:Hdec.
  2:{ exists None, w1. reflexivity. }
  unfold decode_first in Hdec. destruct implOut as [| | |s| |]; try discriminate.
  destruct (parse_hex s) as [data|]; [|discriminate].
  unfold decodeFunctionResult in Hdec.
  change (getFunction AccountFactory_abi "implementation")
    with (Normal (Some (mkFragment "implementation" [] [TAddress] true))) in Hdec.
  cbn [f_outputs] in Hdec.
  destruct (abi_decode [TAddress] data) as [vs|] eqn:Habi; [|discriminate].
  apply decode_single_address in Habi as [i ->]. injection Hdec as <-.
  exists (Some i), w1. reflexivity.
Qed.

(** X13: [GET /api/aa/address] when the first read endpoint answers the
    [getAddress(string)] call with the word of an address.  Under any
    scope (the unbound names are never evaluated on this path) the handler
    answers 200 with that address as [smartAccount]; the [implementation]
    field is an address or [null], so a failing [implementation()] read
    does not fail the request. *)
Theorem aa_address_primary_path sc env rq w FACTORY u rest a :
  let user := query_or rq "user" "" in
  let params := [JObj [("to", json_address FACTORY);
                       ("data", json_hex (wire (mkCall getAddress_fragment [VString user])))];
                 JStr "latest"] in
  user <> "" ->
  AA_FACTORY env = Some FACTORY ->
  artifact_AccountFactory env = Some AccountFactory_abi ->
  READS env = u :: rest ->
  (a < 2 ^ 160)%N ->
  answer w 0 u "eth_call" params = Normal (JStr (hexlify (be_bytes 32 a))) ->
  exists r w' i,
    aa_address sc env rq w = (Normal r, w') /\
    status r = 200%nat /\
    payload r = JObj [ ("userId", JStr user); ("factory", json_address FACTORY);
                       ("implementation", json_opt_address i);
                       ("smartAccount", json_address a) ].
Proof.
  intros user params Huser Hfac Hart Hreads Ha Hans.
  apply String.eqb_neq in Huser.
  unfold aa_address. cbv zeta. fold user. rewrite Huser, Hfac, Hart.
  unfold catch_500, try_catch, loadArtifact. rewrite bind_ret_l.
  change (encodeCall AccountFactory_abi "getAddress" [VString user])
    with (Normal (mkCall getAddress_fragment [VString user])).
  rewrite bind_lift_l. unfold bind at 1.
  assert (Hsafe : safeCall env FACTORY (mkCall getAddress_fragment [VString user]) w
                  = (Normal (Some (JStr (hexlify (be_bytes 32 a)))),
                     attempted w [mkRequest u "eth_call" params])).
  { unfold safeCall, try_catch, bind, rpc. rewrite Hreads. cbn [rpc_from].
    unfold try_catch. rewrite rpcFetch_run. fold params. rewrite Hans. reflexivity. }
  rewrite Hsafe. cbn [truthy_opt]. rewrite truthy_hexlify.
  change (default JNull (Some (JStr (hexlify (be_bytes 32 a)))))
    with (JStr (hexlify (be_bytes 32 a))).
  rewrite (decode_first_getAddress_word a Ha). cbn [value_truthy abi_truthy negb].
  rewrite bind_ret_l. unfold bind at 1.
  destruct (read_implementation_repo env FACTORY (attempted w [mkRequest u "eth_call" params]))
    as (i & w' & ->).
  exists (res_json (JObj [ ("userId", JStr user); ("factory", json_address FACTORY);
                           ("implementation", json_opt_address i);
                           ("smartAccount", json_address a) ])), w', i.
  split; [reflexivity|]. split; reflexivity.
Qed.
End PrimaryPath.

Lemma aa_address_primary_path_witness :
  let P := fixture_platform false in
  let w := world_of fixture_chain (word_http 0xACC0%N) in
  exists r w' i,
    @aa_address P index_js_scope fixture_env alice_request w = (Normal r, w') /\
    status r = 200%nat /\
    payload r = JObj [ ("userId", JStr "alice"); ("factory", json_address 0xFAC70%N);
                       ("implementation", json_opt_address i);
                       ("smartAccount", json_address 0xACC0%N) ].
Proof.
  intros P w.
  apply (@aa_address_primary_path P index_js_scope fixture_env alice_request w 0xFAC70%N
           "http://a" ["http://b"] 0xACC0%N).
  - discriminate.
  - reflexivity.
  - reflexivity.
  - reflexivity.
  - reflexivity.
  - vm_compute. reflexivity.
Defined.

(** ** Preflight *)

Lemma preflight_run env w entrypoint url :
  ENTRYPOINT env = Some entrypoint -> BUNDLER_URL env = Some url -> url <> "" ->
  preflight env w =
  match node_env w (node_reqs w) with
  | Some e =>
      (Normal (res_status_json 500 (error_body (String_of_error e))), served w (chain w))
  | None =>
      let asked := mkRequest url "web3_clientVersion" [] in
      let w1 := attempted (served w (chain w)) [asked] in
      match http_env w (length (http_log w)) asked with
      | NetFailure e => (Normal (res_status_json 500 (error_body (String_of_error e))), w1)
      | HttpResponse st None =>
          (Normal (res_status_json 500
                     (error_body (String_of_error
                                    (mkError "SyntaxError" "Unexpected token in JSON")))), w1)
      | HttpResponse st (Some body) =>
          (Normal (res_json
                     (JObj [ ("entrypoint", json_address entrypoint);
                             ("entrypointHasCode",
                              JBool (has_code (getCode (chain w) entrypoint)));
                             ("bundlerUrl", JStr url);
                             ("bundlerClientVersion", result_or_null body) ])), w1)
      end
  end.
Proof.
  intros Hep Hurl Hne.
  assert (Hset : Boolean_string (BUNDLER_URL env) = true).
  { rewrite Hurl. cbn. apply String.eqb_neq in Hne. rewrite Hne. reflexivity. }
  unfold preflight, catch_500, try_catch. rewrite Hep, Hset, Hurl.
  cbv zeta. cbn [negb default from_option id].
  unfold bind, provider_getCode. rewrite node_request_run.
  destruct (node_env w (node_reqs w)) as [e|]; [reflexivity|].
  cbn [fst snd]. unfold fetch, attempted.
  cbn [served http_env http_log chain node_env node_reqs rev app].
  destruct (http_env w (length (http_log w)) _) as [e|st [body|]]; reflexivity.
Qed.

(** X14: [GET /api/4337/preflight].  It answers 400, with nothing
    requested, exactly when [ENTRYPOINT] or [BUNDLER_URL] is not set, and
    200 or 500 otherwise; it never changes the chain.  With both set, the
    answer is 200 exactly when the node answered the code query and the
    bundler's reply was JSON, whatever its HTTP status and even when it
    carries an error; the response then reports whether the entry point
    has code and the bundler's [result], or [null] when there is none. *)
Theorem preflight_reports env w :
  validates (preflight env) (unset (ENTRYPOINT env) || negb (Boolean_string (BUNDLER_URL env))) /\
  chain (snd (preflight env w)) = chain w /\
  forall entrypoint url,
    ENTRYPOINT env = Some entrypoint -> BUNDLER_URL env = Some url -> url <> "" ->
    let asked := mkRequest url "web3_clientVersion" [] in
    (forall r,
        fst (preflight env w) = Normal r -> status r = 200%nat ->
        node_env w (node_reqs w) = None /\
        exists st body, http_env w (length (http_log w)) asked = HttpResponse st (Some body)) /\
    (forall st body,
        node_env w (node_reqs w) = None ->
        http_env w (length (http_log w)) asked = HttpResponse st (Some body) ->
        fst (preflight env w)
        = Normal (res_json
                    (JObj [ ("entrypoint", json_address entrypoint);
                            ("entrypointHasCode",
                             JBool (has_code (getCode (chain w) entrypoint)));
                            ("bundlerUrl", JStr url);
                            ("bundlerClientVersion", result_or_null body) ])) /\
        http_log (snd (preflight env w)) = asked :: http_log w).
Proof.
  split; [|split].
  - unfold preflight.
    destruct (ENTRYPOINT env) as [entrypoint|]; [|apply validates_rejected].
    destruct (Boolean_string (BUNDLER_URL env)); [|apply validates_rejected].
    apply validates_accepted. cbv zeta. cbn [negb]. repeat ans_step.
  - unfold preflight, catch_500, try_catch.
    destruct (ENTRYPOINT env) as [entrypoint|]; [|reflexivity].
    destruct (negb (Boolean_string (BUNDLER_URL env))); [reflexivity|].
    cbv zeta. unfold bind at 1, provider_getCode. rewrite node_request_run.
    destruct (node_env w (node_reqs w)); [reflexivity|].
    cbn [fst snd]. unfold bind at 1, fetch.
    cbn [served http_env http_log chain node_env node_reqs].
    destruct (http_env w (length (http_log w)) _) as [e|st [body|]]; reflexivity.
  - intros entrypoint url Hep Hurl Hne asked.
    rewrite (preflight_run env w entrypoint url Hep Hurl Hne). cbv zeta. fold asked.
    destruct (node_env w (node_reqs w)) as [e|].
    { split; [intros r [= <-] Hst; discriminate Hst | intros st body Hn; discriminate Hn]. }
    destruct (http_env w (length (http_log w)) asked) as [e|st [body|]].
    + split; [intros r [= <-] Hst; discriminate Hst | intros st body _ Hn; discriminate Hn].
    + split.
      * intros r _ _. split; [reflexivity|]. eauto.
      * intros st' body' _ [= <- <-]. split; reflexivity.
    + split; [intros r [= <-] Hst; discriminate Hst | intros st' body _ Hn; discriminate Hn].
Qed.

Lemma preflight_reports_witness :
  let w := world_of fixture_chain unhelpful_bundler in
  fst (preflight fixture_env w)
  = Normal (res_json
              (JObj [ ("entrypoint", json_address 0xE9%N);
                      ("entrypointHasCode", JBool false);
                      ("bundlerUrl", JStr "http://bundler");
                      ("bundlerClientVersion", JNull) ])).
Proof.
  intros w.
  destruct (preflight_reports fixture_env w) as (_ & _ & Hset).
  destruct (Hset 0xE9%N "http://bundler" eq_refl eq_refl ltac:(discriminate)) as [_ Hok].
  exact (proj1 (Hok 404%nat _ eq_refl eq_refl)).
Defined.

(** ** What no handler undoes *)

Lemma history_grows_of_reads {A} (m : Async A) : reads_only m -> preserves history_grows m.
Proof. intros Hm w r w' Hrun. apply history_grows_same_chain. exact (Hm w r w' Hrun). Qed.

Section KeepAccounts.
Context `{Primitives}.

Lemma history_grows_provider_getCode a : preserves history_grows (provider_getCode a).
Proof. exact (history_grows_node_read (fun c => Normal (getCode c a))). Qed.

Lemma history_grows_tx_wait : preserves history_grows tx_wait.
Proof. exact (history_grows_node_read (fun c => Normal (length (mined c)))). Qed.

Lemma history_grows_getSenderAndInit sc env factoryAddr userId :
  preserves history_grows (getSenderAndInit sc env factoryAddr userId).
Proof.
  intros w r w' Hrun. apply history_grows_same_chain.
  exact (proj1 (only_node_reads_getSenderAndInit sc env factoryAddr userId w r w' Hrun)).
Qed.

Lemma history_grows_aa_address sc env rq : preserves history_grows (aa_address sc env rq).
Proof.
  intros w r w' Hrun. apply history_grows_same_chain.
  exact (proj1 (proj1 (aa_address_fetched_from sc env rq w r w' Hrun))).
Qed.

Ltac history_leaf :=
  first [ apply history_grows_invoke | apply history_grows_provider_getCode
        | apply history_grows_tx_wait | apply history_grows_fetch
        | apply history_grows_getSenderAndInit ].

(** X15: no handler undoes a deployment.  Whatever [GET /api/aa/address],
    [GET /api/aa/create], [POST /api/aa/deploy],
    [GET /api/aa/gasless-mint/send] and [GET /api/4337/preflight] are asked
    and however the node and the network behave, the chain afterwards
    extends the chain before: the factories are the same, transactions are
    only added, an account that has an owner keeps that owner, an address
    that has code keeps that code; and if every initialised account had
    code before, that still holds. *)
Theorem handlers_keep_accounts sc env rq :
  preserves history_grows (aa_address sc env rq) /\
  preserves history_grows (aa_create env rq) /\
  preserves history_grows (aa_deploy env rq) /\
  preserves history_grows (gasless_mint_send sc env rq) /\
  preserves history_grows (preflight env).
Proof.
  split; [apply history_grows_aa_address|]. split; [|split; [|split]].
  - unfold aa_create. cbv zeta. repeat pres_step; history_leaf.
  - unfold aa_deploy. cbv zeta. repeat pres_step; history_leaf.
  - unfold gasless_mint_send, encode_mint_call, submit_userOp. cbv zeta.
    repeat pres_step; history_leaf.
  - unfold preflight. cbv zeta. repeat pres_step; history_leaf.
Qed.
End KeepAccounts.

Lemma handlers_keep_accounts_witness :
  let P := fixture_platform false in
  let w := world_of fixture_chain flaky_http in
  let w1 := snd (@aa_create P fixture_env alice_request w) in
  let w2 := snd (@aa_deploy P fixture_env
                   (mkReq [("user", "alice")]
                          [("owner", "0x00000000000000000000000000000000000000aa")]) w1) in
  owners (chain w1) !! (@AccountFactory_getAddress P 0x1A9%N 0xFAC70%N "alice")
  = Some 0x4E1A%N /\
  owners (chain w2) !! (@AccountFactory_getAddress P 0x1A9%N 0xFAC70%N "alice")
  = Some 0x4E1A%N.
Proof.
  intros P w w1 w2.
  assert (H1 : owners (chain w1) !! (@AccountFactory_getAddress P 0x1A9%N 0xFAC70%N "alice")
               = Some 0x4E1A%N) by (vm_compute; reflexivity).
  split; [exact H1|].
  destruct (@handlers_keep_accounts P index_js_scope fixture_env
              (mkReq [("user", "alice")]
                     [("owner", "0x00000000000000000000000000000000000000aa")]))
    as (_ & _ & Hdeploy & _).
  destruct (Hdeploy w1 _ w2 (surjective_pairing _)) as [(_ & _ & _ & Hown & _) _].
  apply Hown. exact H1.
Defined.

(** ** The token contract *)

Lemma sum_balances_insert_fresh (b : gmap N N) i x :
  b !! i = None -> sum_balances (<[i := x]> b) = (x + sum_balances b)%N.
Proof.
  intros Hi. unfold sum_balances. apply map_fold_insert_L; [|exact Hi].
  intros. lia.
Qed.

Lemma sum_balances_split (b : gmap N N) i :
  sum_balances b = (mapping_get b i + sum_balances (delete i b))%N.
Proof.
  unfold mapping_get. destruct (b !! i) as [y|] eqn:Hi; cbn.
  - rewrite <- (insert_delete_id b i y Hi) at 1.
    apply sum_balances_insert_fresh, lookup_delete_eq.
  - rewrite delete_id by exact Hi. reflexivity.
Qed.

Lemma sum_balances_insert (b : gmap N N) i x :
  (sum_balances (<[i := x]> b) + mapping_get b i = x + sum_balances b)%N.
Proof.
  rewrite (sum_balances_split b i), <- (insert_delete_eq b i x).
  rewrite sum_balances_insert_fresh by apply lookup_delete_eq. lia.
Qed.

Lemma mapping_get_le_sum (b : gmap N N) i : (mapping_get b i <= sum_balances b)%N.
Proof. rewrite (sum_balances_split b i). lia. Qed.

Lemma mapping_get_insert_eq (m : gmap N N) k v : mapping_get (<[k := v]> m) k = v.
Proof. unfold mapping_get. rewrite lookup_insert_eq. reflexivity. Qed.

Lemma mapping_get_insert_ne (m : gmap N N) k k' v :
  k <> k' -> mapping_get (<[k := v]> m) k' = mapping_get m k'.
Proof. intros Hne. unfold mapping_get. rewrite lookup_insert_ne by exact Hne. reflexivity. Qed.

Lemma uint256_max_lt : (uint256_max < 2 ^ 256)%N.
Proof. reflexivity. Qed.

(** What a successful [_mint] does to a token whose supply is the sum of
    its balances: nothing wraps. *)
Lemma ERC20_mint_ok t to amount t' :
  supply_ok t ->
  ERC20_mint t to amount = Normal t' ->
  supply_ok t' /\
  to <> 0%N /\
  totalSupply t' = (totalSupply t + amount)%N /\
  mapping_get (balances t') to = (mapping_get (balances t) to + amount)%N /\
  (forall b, b <> to -> mapping_get (balances t') b = mapping_get (balances t) b) /\
  token_owner t' = token_owner t /\ pricePerTokenWei t' = pricePerTokenWei t /\
  minterAllowance t' = minterAllowance t /\ token_ether t' = token_ether t.
Proof.
  intros [Hsum Hmax]. unfold ERC20_mint.
  destruct (to =? 0)%N eqn:Hto; [discriminate|]. apply N.eqb_neq in Hto.
  destruct (uint256_max <? totalSupply t + amount)%N eqn:Hov; [discriminate|].
  apply N.ltb_ge in Hov. intros [= <-]. unfold supply_ok.
  cbn [balances totalSupply token_owner pricePerTokenWei minterAllowance token_ether].
  pose proof (mapping_get_le_sum (balances t) to) as Hle.
  pose proof uint256_max_lt as Hlt.
  assert (Hmod : ((mapping_get (balances t) to + amount) mod 2 ^ 256
                  = mapping_get (balances t) to + amount)%N).
  { apply N.mod_small. lia. }
  rewrite Hmod. split; [split|].
  - pose proof (sum_balances_insert (balances t) to
                  (mapping_get (balances t) to + amount)%N). lia.
  - exact Hov.
  - split; [exact Hto|]. split; [reflexivity|].
    split; [apply mapping_get_insert_eq|].
    split; [|repeat split].
    intros b Hb. apply mapping_get_insert_ne. congruence.
Qed.

Lemma Token_call_supply_ok t m c t' :
  supply_ok t -> Token_call t m c = Normal t' -> supply_ok t'.
Proof.
  intros Hok. unfold Token_call. destruct (negb (well_typed c)); [discriminate|].
  destruct c as [p|a n|a n|a n]; cbn.
  - unfold setPricePerTokenWei, nonpayable, onlyOwner.
    destruct (msg_value m =? 0)%N; [|discriminate].
    destruct (msg_sender m =? token_owner t)%N; [|discriminate].
    intros [= <-]. exact Hok.
  - unfold setMinterAllowance, nonpayable, onlyOwner.
    destruct (msg_value m =? 0)%N; [|discriminate].
    destruct (msg_sender m =? token_owner t)%N; [|discriminate].
    intros [= <-]. exact Hok.
  - unfold buy. destruct (a =? 0)%N; [discriminate|].
    destruct (negb (0 <? n)%N); [discriminate|].
    destruct (uint256_max <? pricePerTokenWei t * n)%N; [discriminate|].
    cbv zeta. destruct (negb _); [discriminate|].
    destruct (ERC20_mint t a n) as [t1|e] eqn:Hmint; [|discriminate].
    intros [= <-]. apply (ERC20_mint_ok _ _ _ _ Hok) in Hmint as [Hok1 _]. exact Hok1.
  - unfold mintTo, nonpayable. destruct (msg_value m =? 0)%N; [|discriminate].
    destruct (a =? 0)%N; [discriminate|].
    destruct (negb (0 <? n)%N); [discriminate|]. cbv zeta.
    destruct (negb (0 <? _)%N); [discriminate|].
    destruct (negb (_ =? uint256_max)%N).
    + destruct (negb (n <=? _)%N); [discriminate|].
      intros Hmint. eapply (ERC20_mint_ok _ _ _ _ _ Hmint).
    + intros Hmint. eapply (ERC20_mint_ok _ _ _ _ Hok Hmint).
  Unshelve. exact Hok.
Qed.

(** X16: the supply is what the holders hold.  After the constructor, and
    after any sequence of transactions calling the functions
    [RewardToken.sol] declares (reverted ones included), [totalSupply] is
    the sum of all balances and fits in 256 bits: minting never wraps a
    balance. *)
Theorem token_supply_is_sum_of_balances initialOwner txs :
  (forall t0, Token_constructor initialOwner = Normal t0 ->
              supply_ok t0 /\ supply_ok (Token_run t0 txs)) /\
  forall t, supply_ok t -> supply_ok (Token_run t txs).
Proof.
  assert (Hrun : forall t, supply_ok t -> supply_ok (Token_run t txs)).
  { unfold Token_run. induction txs as [|tx txs IH]; intros t Hok; [exact Hok|].
    cbn [fold_left]. apply IH. unfold Token_transact.
    destruct (Token_call t (fst tx) (snd tx)) as [t'|e] eqn:Hcall; [|exact Hok].
    exact (Token_call_supply_ok _ _ _ _ Hok Hcall). }
  split; [|exact Hrun].
  intros t0. unfold Token_constructor.
  destruct (initialOwner =? 0)%N; [discriminate|]. intros [= <-].
  assert (H0 : supply_ok (mkToken initialOwner 0 ∅ ∅ 0 0))
    by (split; [reflexivity | discriminate]).
  split; [exact H0 | apply Hrun, H0].
Qed.

Lemma token_supply_is_sum_of_balances_witness :
  exists t0,
    Token_constructor 0x4E1A%N = Normal t0 /\
    supply_ok (Token_run t0 [ (mkMsg 0x4E1A%N 0, SetMinterAllowance 0xB0B%N 100);
                              (mkMsg 0xB0B%N 0, MintTo 0xAA%N 30);
                              (mkMsg 0xC0DE%N 0, Buy 0xAA%N 12) ]).
Proof.
  eexists. split; [reflexivity|].
  apply (proj1 (token_supply_is_sum_of_balances 0x4E1A%N _)). reflexivity.
Defined.

Lemma mintTo_inv t m to amount t' :
  supply_ok t ->
  mintTo t m to amount = Normal t' ->
  let a := mapping_get (minterAllowance t) (msg_sender m) in
  supply_ok t' /\
  msg_value m = 0%N /\ to <> 0%N /\ (0 < amount)%N /\ (0 < a)%N /\
  (a <> uint256_max -> (amount <= a)%N) /\
  mapping_get (minterAllowance t') (msg_sender m)
    = (if (a =? uint256_max)%N then a else a - amount)%N /\
  (forall x, x <> msg_sender m ->
             mapping_get (minterAllowance t') x = mapping_get (minterAllowance t) x) /\
  totalSupply t' = (totalSupply t + amount)%N /\
  mapping_get (balances t') to = (mapping_get (balances t) to + amount)%N /\
  (forall b, b <> to -> mapping_get (balances t') b = mapping_get (balances t) b) /\
  token_owner t' = token_owner t /\ pricePerTokenWei t' = pricePerTokenWei t /\
  token_ether t' = token_ether t.
Proof.
  intros Hok. unfold mintTo, nonpayable.
  destruct (msg_value m =? 0)%N eqn:Hval; [|discriminate]. apply N.eqb_eq in Hval.
  destruct (to =? 0)%N eqn:Hto; [discriminate|].
  destruct (0 <? amount)%N eqn:Hamt; [|discriminate]. apply N.ltb_lt in Hamt.
  cbv zeta. set (a := mapping_get (minterAllowance t) (msg_sender m)).
  destruct (0 <? a)%N eqn:Ha; [|discriminate]. apply N.ltb_lt in Ha.
  cbn [negb]. destruct (a =? uint256_max)%N eqn:Hmax; cbn [negb].
  - intros Hmint. apply N.eqb_eq in Hmax.
    destruct (ERC20_mint_ok _ _ _ _ Hok Hmint)
      as (Hok' & Hto' & Hsup & Hbal & Hothers & Hown & Hprice & Hallow & Heth).
    rewrite Hallow. split; [exact Hok'|].
    repeat split; try assumption; try reflexivity.
    intros Hne. contradiction.
  - destruct (amount <=? a)%N eqn:Hle; [|discriminate]. apply N.leb_le in Hle.
    cbn [negb]. intros Hmint.
    assert (Hok1 : supply_ok (mkToken (token_owner t) (pricePerTokenWei t)
                                      (<[msg_sender m := (a - amount)%N]> (minterAllowance t))
                                      (balances t) (totalSupply t) (token_ether t)))
      by exact Hok.
    destruct (ERC20_mint_ok _ _ _ _ Hok1 Hmint)
      as (Hok' & Hto' & Hsup & Hbal & Hothers & Hown & Hprice & Hallow & Heth).
    cbn [token_owner pricePerTokenWei minterAllowance balances totalSupply token_ether] in *.
    rewrite Hallow. split; [exact Hok'|]. repeat split; try assumption.
    + intros _. exact Hle.
    + apply mapping_get_insert_eq.
    + intros x Hx. apply mapping_get_insert_ne. congruence.
Qed.

(** X17: what [mintTo] costs the minter.  On a token whose supply is the
    sum of its balances, a successful [mintTo] was sent without ether by
    an account with a non-zero allowance, to a non-zero address, for a
    non-zero amount; the recipient's balance and the supply grow by the
    amount; an allowance of [type(uint256).max] is left as it is and any
    other allowance covers the amount and shrinks by it; no other
    allowance or balance, nor the owner, the price or the ether held,
    changes. *)
Theorem mintTo_spends_allowance t m to amount t' :
  supply_ok t ->
  mintTo t m to amount = Normal t' ->
  let a := mapping_get (minterAllowance t) (msg_sender m) in
  msg_value m = 0%N /\ to <> 0%N /\ (0 < amount)%N /\ (0 < a)%N /\
  (a <> uint256_max -> (amount <= a)%N) /\
  mapping_get (minterAllowance t') (msg_sender m)
    = (if (a =? uint256_max)%N then a else a - amount)%N /\
  (forall x, x <> msg_sender m ->
             mapping_get (minterAllowance t') x = mapping_get (minterAllowance t) x) /\
  totalSupply t' = (totalSupply t + amount)%N /\
  mapping_get (balances t') to = (mapping_get (balances t) to + amount)%N /\
  (forall b, b <> to -> mapping_get (balances t') b = mapping_get (balances t) b) /\
  token_owner t' = token_owner t /\ pricePerTokenWei t' = pricePerTokenWei t /\
  token_ether t' = token_ether t.
Proof. intros Hok Hrun. exact (proj2 (mintTo_inv _ _ _ _ _ Hok Hrun)). Qed.

(** X18: a limited minter cannot mint more than its allowance.  Over any
    sequence of [mintTo] transactions sent by one account whose allowance
    is below [type(uint256).max], reverted ones included, the supply grows
    by exactly what the allowance loses: supply plus remaining allowance is
    constant. *)
Theorem limited_minter_budget t minter (mints : list (address * N)) :
  supply_ok t ->
  (mapping_get (minterAllowance t) minter < uint256_max)%N ->
  let t' := Token_run t (List.map (fun ta => (mkMsg minter 0, MintTo (fst ta) (snd ta))) mints) in
  (totalSupply t' + mapping_get (minterAllowance t') minter
   = totalSupply t + mapping_get (minterAllowance t) minter)%N /\
  (mapping_get (minterAllowance t') minter <= mapping_get (minterAllowance t) minter)%N.
Proof.
  intros Hok Hlim. cbv zeta. unfold Token_run.
  revert t Hok Hlim. induction mints as [|[to amount] mints IH]; intros t Hok Hlim.
  - cbn. split; lia.
  - cbn [List.map fold_left fst snd]. unfold Token_transact at 2 4 6. cbn [fst snd].
    unfold Token_call. destruct (negb (well_typed (MintTo to amount))); [apply IH; assumption|].
    destruct (mintTo t (mkMsg minter 0) to amount) as [t1|e] eqn:Hmint; [|apply IH; assumption].
    destruct (mintTo_inv _ _ _ _ _ Hok Hmint)
      as (Hok1 & _ & _ & _ & _ & Hle & Hallow & _ & Hsup & _).
    cbn [msg_sender] in *.
    assert (Hne : (mapping_get (minterAllowance t) minter =? uint256_max)%N = false)
      by (apply N.eqb_neq; lia).
    rewrite Hne in Hallow. apply N.eqb_neq in Hne. specialize (Hle Hne).
    assert (Hlim1 : (mapping_get (minterAllowance t1) minter < uint256_max)%N) by lia.
    destruct (IH t1 Hok1 Hlim1) as [Hsum Hmono]. split; lia.
Qed.

Lemma mintTo_spends_allowance_witness :
  exists t',
    mintTo fixture_token (mkMsg 0xB0B%N 0) 0xAA%N 30 = Normal t' /\
    mapping_get (minterAllowance t') 0xB0B%N = 70%N /\
    mapping_get (balances t') 0xAA%N = 30%N /\ totalSupply t' = 30%N.
Proof.
  destruct (mintTo fixture_token (mkMsg 0xB0B%N 0) 0xAA%N 30) as [t'|e] eqn:Hrun;
    [|vm_compute in Hrun; discriminate Hrun].
  exists t'. split; [reflexivity|].
  destruct (mintTo_spends_allowance fixture_token (mkMsg 0xB0B%N 0) 0xAA%N 30 t'
              ltac:(split; [reflexivity | discriminate]) Hrun)
    as (_ & _ & _ & _ & _ & Hallow & _ & Hsup & Hbal & _).
  split; [exact Hallow|]. split; [exact Hbal | exact Hsup].
Defined.

Lemma limited_minter_budget_witness :
  let t' := Token_run fixture_token
              [ (mkMsg 0xB0B%N 0, MintTo 0xAA%N 30); (mkMsg 0xB0B%N 0, MintTo 0xAA%N 80);
                (mkMsg 0xB0B%N 0, MintTo 0xBB%N 70) ] in
  (totalSupply t' + mapping_get (minterAllowance t') 0xB0B%N = 100)%N.
Proof.
  exact (proj1 (limited_minter_budget fixture_token 0xB0B%N
                  [(0xAA%N, 30%N); (0xAA%N, 80%N); (0xBB%N, 70%N)]
                  ltac:(split; [reflexivity | discriminate]) ltac:(reflexivity))).
Defined.

(** X19: [buy] takes exactly the price.  On a token whose supply is the
    sum of its balances, [buy(to, amount)] succeeds exactly when the
    recipient is not the zero address, the amount is not zero, the ether
    sent equals [pricePerTokenWei * amount] (a product that must fit in 256
    bits) and the new supply fits in 256 bits.  It then credits the amount
    to the recipient and the supply, keeps the ether, and touches no
    allowance: with the price at its initial zero, anyone mints for
    free. *)
Theorem buy_takes_exact_payment t m to amount :
  supply_ok t ->
  (is_throw (buy t m to amount) = false <->
   to <> 0%N /\ (0 < amount)%N /\ (pricePerTokenWei t * amount <= uint256_max)%N /\
   msg_value m = (pricePerTokenWei t * amount)%N /\
   (totalSupply t + amount <= uint256_max)%N) /\
  (forall t',
      buy t m to amount = Normal t' ->
      supply_ok t' /\
      totalSupply t' = (totalSupply t + amount)%N /\
      mapping_get (balances t') to = (mapping_get (balances t) to + amount)%N /\
      (forall b, b <> to -> mapping_get (balances t') b = mapping_get (balances t) b) /\
      token_ether t' = (token_ether t + pricePerTokenWei t * amount)%N /\
      minterAllowance t' = minterAllowance t /\
      token_owner t' = token_owner t /\ pricePerTokenWei t' = pricePerTokenWei t).
Proof.
  intros Hok. unfold buy.
  destruct (to =? 0)%N eqn:Hto.
  { apply N.eqb_eq in Hto. split; [|discriminate].
    cbn. split; [discriminate | intros (? & _); contradiction]. }
  destruct (0 <? amount)%N eqn:Hamt; cbn [negb].
  2:{ apply N.ltb_ge in Hamt. split; [|discriminate].
      cbn. split; [discriminate | intros (_ & ? & _); lia]. }
  apply N.ltb_lt in Hamt. apply N.eqb_neq in Hto.
  destruct (uint256_max <? pricePerTokenWei t * amount)%N eqn:Hmul.
  { apply N.ltb_lt in Hmul. split; [|discriminate].
    cbn. split; [discriminate | intros (_ & _ & ? & _); lia]. }
  apply N.ltb_ge in Hmul. cbv zeta.
  destruct (msg_value m =? pricePerTokenWei t * amount)%N eqn:Hval; cbn [negb].
  2:{ apply N.eqb_neq in Hval. split; [|discriminate].
      cbn. split; [discriminate | intros (_ & _ & _ & ? & _); contradiction]. }
  apply N.eqb_eq in Hval.
  destruct (ERC20_mint t to amount) as [t1|e] eqn:Hmint.
  - destruct (ERC20_mint_ok _ _ _ _ Hok Hmint)
      as (Hok1 & _ & Hsup & Hbal & Hothers & Hown & Hprice & Hallow & Heth).
    split.
    + cbn. split; [intros _|reflexivity].
      destruct Hok1 as [_ Hmax]. rewrite Hsup in Hmax. auto.
    + intros t' [= <-].
      cbn [token_owner pricePerTokenWei minterAllowance balances totalSupply token_ether].
      split; [exact Hok1|]. rewrite Heth, Hval. repeat split; assumption.
  - split; [|discriminate]. cbn. split; [discriminate|].
    intros (_ & _ & _ & _ & Hfit). exfalso.
    unfold ERC20_mint in Hmint. apply N.eqb_neq in Hto. rewrite Hto in Hmint.
    apply N.ltb_ge in Hfit. rewrite Hfit in Hmint. discriminate.
Qed.

Lemma buy_takes_exact_payment_witness :
  is_throw (buy fixture_token (mkMsg 0xC0DE%N 15) 0xAA%N 3) = false /\
  is_throw (buy (mkToken 0x4E1A%N 0 ∅ ∅ 0 0) (mkMsg 0xC0DE%N 0) 0xAA%N 1000) = false.
Proof.
  split.
  - apply (proj1 (buy_takes_exact_payment fixture_token (mkMsg 0xC0DE%N 15) 0xAA%N 3
                    ltac:(split; [reflexivity | discriminate]))).
    repeat split; try discriminate; reflexivity.
  - apply (proj1 (buy_takes_exact_payment (mkToken 0x4E1A%N 0 ∅ ∅ 0 0) (mkMsg 0xC0DE%N 0)
                    0xAA%N 1000 ltac:(split; [reflexivity | discriminate]))).
    repeat split; try discriminate; reflexivity.
Defined.

Lemma ERC20_mint_keeps t to amount t' :
  ERC20_mint t to amount = Normal t' ->
  token_owner t' = token_owner t /\ pricePerTokenWei t' = pricePerTokenWei t /\
  minterAllowance t' = minterAllowance t.
Proof.
  unfold ERC20_mint. destruct (to =? 0)%N; [discriminate|].
  destruct (uint256_max <? _)%N; [discriminate|]. intros [= <-]. repeat split.
Qed.

Lemma Token_call_not_owner t m c t' :
  msg_sender m <> token_owner t ->
  Token_call t m c = Normal t' ->
  token_owner t' = token_owner t /\ pricePerTokenWei t' = pricePerTokenWei t /\
  forall x, (mapping_get (minterAllowance t') x <= mapping_get (minterAllowance t) x)%N.
Proof.
  intros Hno. apply N.eqb_neq in Hno. unfold Token_call.
  destruct (negb (well_typed c)); [discriminate|].
  destruct c as [p|a n|a n|a n]; cbn.
  - unfold setPricePerTokenWei, nonpayable, onlyOwner. rewrite Hno.
    destruct (msg_value m =? 0)%N; discriminate.
  - unfold setMinterAllowance, nonpayable, onlyOwner. rewrite Hno.
    destruct (msg_value m =? 0)%N; discriminate.
  - unfold buy. destruct (a =? 0)%N; [discriminate|].
    destruct (negb (0 <? n)%N); [discriminate|].
    destruct (uint256_max <? pricePerTokenWei t * n)%N; [discriminate|].
    cbv zeta. destruct (negb _); [discriminate|].
    destruct (ERC20_mint t a n) as [t1|e] eqn:Hmint; [|discriminate].
    intros [= <-]. cbn [token_owner pricePerTokenWei minterAllowance].
    destruct (ERC20_mint_keeps _ _ _ _ Hmint) as (-> & -> & ->).
    repeat split. intros x. lia.
  - unfold mintTo, nonpayable. destruct (msg_value m =? 0)%N; [|discriminate].
    destruct (a =? 0)%N; [discriminate|].
    destruct (negb (0 <? n)%N); [discriminate|]. cbv zeta.
    destruct (negb (0 <? _)%N); [discriminate|].
    destruct (negb (_ =? uint256_max)%N).
    + destruct (n <=? _)%N eqn:Hle; [|discriminate]. cbn [negb].
      intros Hmint. destruct (ERC20_mint_keeps _ _ _ _ Hmint) as (-> & -> & ->).
      cbn [token_owner pricePerTokenWei minterAllowance]. repeat split.
      intros x. destruct (decide (msg_sender m = x)) as [<-|Hx].
      * rewrite mapping_get_insert_eq. lia.
      * rewrite mapping_get_insert_ne by exact Hx. lia.
    + intros Hmint. destruct (ERC20_mint_keeps _ _ _ _ Hmint) as (-> & -> & ->).
      repeat split. intros x. lia.
Qed.

(** X20: only the owner sets the price and grants allowances.  Over any
    sequence of transactions to the functions [RewardToken.sol] declares,
    none of them sent by the owner, the owner and the price stay as they
    were and no allowance grows. *)
Theorem only_owner_sets_price_and_allowances t txs :
  Forall (fun tx => msg_sender (fst tx) <> token_owner t) txs ->
  let t' := Token_run t txs in
  token_owner t' = token_owner t /\ pricePerTokenWei t' = pricePerTokenWei t /\
  forall x, (mapping_get (minterAllowance t') x <= mapping_get (minterAllowance t) x)%N.
Proof.
  intros Hall. cbv zeta. unfold Token_run. revert t Hall.
  induction txs as [|tx txs IH]; intros t Hall.
  - cbn. repeat split. intros x. lia.
  - cbn [fold_left]. apply Forall_cons in Hall as [Htx Hall].
    assert (Hstep : token_owner (Token_transact t tx) = token_owner t /\
                    pricePerTokenWei (Token_transact t tx) = pricePerTokenWei t /\
                    forall x, (mapping_get (minterAllowance (Token_transact t tx)) x
                               <= mapping_get (minterAllowance t) x)%N).
    { unfold Token_transact.
      destruct (Token_call t (fst tx) (snd tx)) as [t1|e] eqn:Hcall.
      - exact (Token_call_not_owner _ _ _ _ Htx Hcall).
      - repeat split. intros x. lia. }
    destruct Hstep as (Hown & Hprice & Hallow).
    destruct (IH (Token_transact t tx)) as (Hown' & Hprice' & Hallow').
    { rewrite Hown. exact Hall. }
    split; [congruence|]. split; [congruence|].
    intros x. specialize (Hallow x). specialize (Hallow' x). lia.
Qed.

Lemma only_owner_sets_price_and_allowances_witness :
  let t' := Token_run fixture_token
              [ (mkMsg 0xB0B%N 0, SetPricePerTokenWei 0);
                (mkMsg 0xB0B%N 0, SetMinterAllowance 0xB0B%N uint256_max);
                (mkMsg 0xB0B%N 0, MintTo 0xAA%N 30) ] in
  pricePerTokenWei t' = 5%N /\
  (mapping_get (minterAllowance t') 0xB0B%N <= 100)%N.
Proof.
  intros t'.
  destruct (only_owner_sets_price_and_allowances fixture_token
              [ (mkMsg 0xB0B%N 0, SetPricePerTokenWei 0);
                (mkMsg 0xB0B%N 0, SetMinterAllowance 0xB0B%N uint256_max);
                (mkMsg 0xB0B%N 0, MintTo 0xAA%N 30) ]
              ltac:(repeat constructor; discriminate))
    as (_ & Hprice & Hallow).
  split; [exact Hprice | exact (Hallow 0xB0B%N)].
Defined.

(** ** How often the resolver asks the node *)

Lemma asks_ret {A} n (a : A) : asks_at_most n (ret a).
Proof. intros w r w' [= _ <-]. lia. Qed.

Lemma asks_throw {A} n e : asks_at_most n (@throw A e).
Proof. intros w r w' [= _ <-]. lia. Qed.

Lemma asks_lift {A} n (c : Completion A) : asks_at_most n (lift c).
Proof. intros w r w' [= _ <-]. lia. Qed.

Lemma asks_ident n b name : asks_at_most n (ident b name).
Proof. unfold ident. destruct b; [apply asks_ret | apply asks_throw]. Qed.

Lemma asks_bind {A B} a b n (m : Async A) (k : A -> Async B) :
  (a + b <= n)%nat ->
  asks_at_most a m -> (forall x, asks_at_most b (k x)) -> asks_at_most n (bind m k).
Proof.
  intros Hn Hm Hk w r w'. unfold bind.
  destruct (m w) as [[x|e] w1] eqn:Hmw; intros Hrun.
  - specialize (Hm _ _ _ Hmw). specialize (Hk _ _ _ _ Hrun). lia.
  - injection Hrun as _ <-. specialize (Hm _ _ _ Hmw). lia.
Qed.

Lemma asks_try_catch {A} a b n (m : Async A) h :
  (a + b <= n)%nat ->
  asks_at_most a m -> (forall e, asks_at_most b (h e)) -> asks_at_most n (try_catch m h).
Proof.
  intros Hn Hm Hh w r w'. unfold try_catch.
  destruct (m w) as [[x|e] w1] eqn:Hmw; intros Hrun.
  - injection Hrun as _ <-. specialize (Hm _ _ _ Hmw). lia.
  - specialize (Hm _ _ _ Hmw). specialize (Hh _ _ _ _ Hrun). lia.
Qed.

Lemma asks_node_request {A} n (op : Chain -> Completion A * Chain) :
  (1 <= n)%nat -> asks_at_most n (node_request op).
Proof.
  intros Hn w r w'. rewrite node_request_run.
  destruct (node_env w (node_reqs w)); intros [= _ <-]; cbn; lia.
Qed.

Section ResolverRequests.
Context `{Primitives}.

Lemma asks_invoke ct key args : asks_at_most 1 (invoke ct key args).
Proof.
  unfold invoke. apply (asks_bind 0 1); [lia | apply asks_lift |].
  intros f. destruct (negb _); [apply asks_throw|].
  destruct (negb _); [apply asks_throw|].
  destruct (f_view f).
  - apply (asks_bind 1 0); [lia | apply asks_node_request; lia |].
    intros out. destruct (abi_decode _ out); [apply asks_ret | apply asks_throw].
  - destruct (c_signer ct); [|apply asks_throw].
    apply (asks_bind 1 0); [lia | apply asks_node_request; lia |].
    intros h. apply asks_ret.
Qed.

Lemma asks_as_address n r : asks_at_most n (as_address r).
Proof. destruct r as [[|[] [|]]|]; simpl; try apply asks_throw. apply asks_ret. Qed.

Lemma asks_resolve_by_string ct userId : asks_at_most 2 (resolve_by_string ct userId).
Proof.
  unfold resolve_by_string. apply (asks_bind 1 1); [lia | |].
  { unfold contract_getAddress. destruct own_getAddress; [apply asks_ret | apply asks_invoke]. }
  intros r. apply (asks_bind 0 1); [lia | apply asks_as_address |].
  intros a. apply (asks_bind 1 0); [lia | apply asks_node_request; lia |].
  intros code_. cbv zeta. apply (asks_bind 0 0); [lia | | intros; apply asks_ret].
  destruct (negb _); [apply asks_lift | apply asks_ret].
Qed.

Lemma asks_resolve_by_bytes32 sc ct factoryAddr userId :
  asks_at_most (if binds_ethers sc then 2 else 0)
               (resolve_by_bytes32 sc ct factoryAddr userId).
Proof.
  unfold resolve_by_bytes32. destruct (binds_ethers sc).
  2:{ intros w r w' Hrun. cbv [bind ident throw] in Hrun. injection Hrun as _ <-. lia. }
  apply (asks_bind 0 2); [lia | apply asks_ident |].
  intros _. cbv zeta. apply (asks_bind 0 2); [lia | apply asks_lift |].
  intros found. apply (asks_bind 0 2); [lia | |].
  { destruct found; [apply asks_ret|].
    apply (asks_bind 0 0); [lia | apply asks_ident | intros; apply asks_ret]. }
  intros iface. apply (asks_bind 0 2); [lia | apply asks_lift |].
  intros data. apply (asks_bind 1 1); [lia | apply asks_node_request; lia |].
  intros result. apply (asks_bind 0 1); [lia | apply asks_lift |].
  intros vs. apply (asks_bind 0 1); [lia | apply asks_as_address |].
  intros a. apply (asks_bind 1 0); [lia | apply asks_node_request; lia |].
  intros code_. apply (asks_bind 0 0); [lia | | intros; apply asks_ret].
  destruct (negb _); [apply asks_lift | apply asks_ret].
Qed.

Lemma asks_getSenderAndInit sc env factoryAddr userId :
  asks_at_most (if binds_ethers sc then 4 else 2)
               (getSenderAndInit sc env factoryAddr userId).
Proof.
  unfold getSenderAndInit, accountFactoryContract.
  apply (asks_bind 0 (if binds_ethers sc then 4 else 2)); [lia | |].
  { apply (asks_bind 0 0); [lia | | intros; apply asks_ret].
    destruct (artifact_AccountFactory env); [apply asks_ret | apply asks_throw]. }
  intros factory_.
  apply (asks_try_catch 2 (if binds_ethers sc then 2 else 0));
    [destruct (binds_ethers sc); lia | apply asks_resolve_by_string |].
  intros e. apply asks_resolve_by_bytes32.
Qed.

(** X6: resolving an account is read-only.  Whatever the scope, the
    configuration and the node do, and whether it returns or throws,
    [getSenderAndInit] leaves the chain as it was (no transaction, no
    deployment) and issues no [fetch]: it only queries the provider, at
    most four times, and at most twice with the names [index.js] binds,
    where the fallback stops before its first request. *)
Theorem getSenderAndInit_only_reads sc env factoryAddr userId :
  preserves only_node_reads (getSenderAndInit sc env factoryAddr userId) /\
  asks_at_most 4 (getSenderAndInit sc env factoryAddr userId) /\
  asks_at_most 2 (getSenderAndInit index_js_scope env factoryAddr userId).
Proof.
  split; [apply only_node_reads_getSenderAndInit|]. split.
  - intros w r w' Hrun.
    pose proof (asks_getSenderAndInit sc env factoryAddr userId w r w' Hrun) as Hn.
    destruct (binds_ethers sc); lia.
  - exact (asks_getSenderAndInit index_js_scope env factoryAddr userId).
Qed.
End ResolverRequests.

(** ** The token handlers *)

Lemma tbind_Normal_inv {A B} (m : TAsync A) (k : A -> TAsync B) tw b tw' :
  tbind m k tw = (Normal b, tw') ->
  exists a tw1, m tw = (Normal a, tw1) /\ k a tw1 = (Normal b, tw').
Proof.
  unfold tbind. destruct (m tw) as [[a|e] tw1]; intros Hk; [eauto | discriminate].
Qed.

Lemma tret_inv {A} (x : A) tw a tw' : tret x tw = (Normal a, tw') -> a = x /\ tw' = tw.
Proof. unfold tret. intros [= -> ->]. split; reflexivity. Qed.

Lemma tlift_Normal_inv {A} (c : Completion A) tw a tw' :
  tlift c tw = (Normal a, tw') -> c = Normal a /\ tw' = tw.
Proof. unfold tlift. intros [= -> ->]. split; reflexivity. Qed.

Lemma tcatch_500_ok (m : TAsync Response) tw r tw' :
  tcatch_500 m tw = (Normal r, tw') -> status r = 200%nat -> m tw = (Normal r, tw').
Proof.
  unfold tcatch_500. destruct (m tw) as [[a|e] tw1]; [trivial|].
  intros [= <- <-] Hst. discriminate Hst.
Qed.

Lemma of_world_token {A} (m : Async A) tw r tw' :
  of_world m tw = (r, tw') ->
  tw_token tw' = tw_token tw /\ tw_relayer_ether tw' = tw_relayer_ether tw /\
  m (tw_world tw) = (r, tw_world tw').
Proof.
  unfold of_world. destruct (m (tw_world tw)) as [r0 w']. intros [= <- <-].
  repeat split.
Qed.

Lemma token_request_run {A} (op : TokenWorld -> Completion A * TokenWorld) tw :
  (forall x, node_env (tw_world (snd (op x))) = node_env (tw_world x) /\
             node_reqs (tw_world (snd (op x))) = node_reqs (tw_world x) /\
             http_env (tw_world (snd (op x))) = http_env (tw_world x) /\
             http_log (tw_world (snd (op x))) = http_log (tw_world x)) ->
  token_request op tw =
  match node_env (tw_world tw) (node_reqs (tw_world tw)) with
  | Some e => (Throw e, tw_asked tw)
  | None => (fst (op tw), tw_asked (snd (op tw)))
  end.
Proof.
  intros Hop. unfold token_request, tw_asked, served. cbv zeta.
  destruct (node_env (tw_world tw) (node_reqs (tw_world tw))); [reflexivity|].
  destruct (Hop tw) as (H1 & H2 & H3 & H4).
  destruct (op tw) as [r x]. cbn [fst snd] in *. rewrite H1, H2, H3, H4. reflexivity.
Qed.

Section TokenRuns.
Context `{Primitives}.

Lemma token_send_world from tokenAddr value f args x :
  node_env (tw_world (snd (token_send from tokenAddr value f args x))) = node_env (tw_world x) /\
  node_reqs (tw_world (snd (token_send from tokenAddr value f args x)))
  = node_reqs (tw_world x) /\
  http_env (tw_world (snd (token_send from tokenAddr value f args x))) = http_env (tw_world x) /\
  http_log (tw_world (snd (token_send from tokenAddr value f args x))) = http_log (tw_world x).
Proof.
  unfold token_send. cbv zeta. destruct (_ <? _)%N; [repeat split|].
  destruct (TokenCall_of f args); [|repeat split].
  destruct (Token_call _ _ _); repeat split.
Qed.

(** The allowance read, as the handler issues it. *)
Lemma token_invoke_minterAllowance_run from tokenAddr a tw :
  (a < 2 ^ 160)%N ->
  token_invoke RewardToken_abi from tokenAddr 0 "minterAllowance" [VAddress a] tw =
  match node_env (tw_world tw) (node_reqs (tw_world tw)) with
  | Some e => (Throw e, tw_asked tw)
  | None =>
      (Normal (Returned [VUint (Z.of_N (mapping_get (minterAllowance (tw_token tw)) a))]),
       tw_asked tw)
  end.
Proof.
  intros Ha. apply N.ltb_lt in Ha. unfold token_invoke.
  change (resolve_method RewardToken_abi "minterAllowance" (length [VAddress a]))
    with (Normal (mkFragment "minterAllowance" [TAddress] [TUint256] true)).
  unfold tbind, tlift.
  cbn [negb Nat.eqb length f_inputs accepts_all accepts andb f_view]. rewrite Ha.
  cbn [negb andb]. rewrite token_request_run by (intros x; repeat split).
  destruct (node_env (tw_world tw) (node_reqs (tw_world tw))); reflexivity.
Qed.

Lemma token_invoke_pricePerTokenWei_run from tokenAddr tw :
  token_invoke RewardToken_abi from tokenAddr 0 "pricePerTokenWei" [] tw =
  match node_env (tw_world tw) (node_reqs (tw_world tw)) with
  | Some e => (Throw e, tw_asked tw)
  | None => (Normal (Returned [VUint (Z.of_N (pricePerTokenWei (tw_token tw)))]), tw_asked tw)
  end.
Proof.
  unfold token_invoke.
  change (resolve_method RewardToken_abi "pricePerTokenWei" (length []))
    with (Normal (mkFragment "pricePerTokenWei" [] [TUint256] true)).
  unfold tbind, tlift.
  cbn [negb Nat.eqb length f_inputs accepts_all accepts andb f_view].
  rewrite token_request_run by (intros x; repeat split).
  destruct (node_env (tw_world tw) (node_reqs (tw_world tw))); reflexivity.
Qed.

(** A transaction to one of the two-argument functions, as the handlers
    send it. *)
Lemma token_invoke_send_run key call from tokenAddr value a n tw :
  (key = "setMinterAllowance" /\ call = SetMinterAllowance a (Z.to_N n)) \/
  (key = "mintTo" /\ call = MintTo a (Z.to_N n)) \/
  (key = "buy" /\ call = Buy a (Z.to_N n)) ->
  token_invoke RewardToken_abi from tokenAddr value key [VAddress a; VUint n] tw =
  if negb ((a <? 2 ^ 160)%N && ((0 <=? n)%Z && (n <? 2 ^ 256)%Z))
  then (Throw (TypeError "invalid argument"), tw)
  else
    match node_env (tw_world tw) (node_reqs (tw_world tw)) with
    | Some e => (Throw e, tw_asked tw)
    | None =>
        if (tw_relayer_ether tw <? value)%N
        then (Throw (Error "insufficient funds for intrinsic transaction cost"), tw_asked tw)
        else
          match Token_call (tw_token tw) (mkMsg from value) call with
          | Throw e => (Throw e, tw_asked tw)
          | Normal t' =>
              (Normal (Sent (tx_hash from (length (mined (chain (tw_world tw)))))),
               tw_sent tw (mkTx from tokenAddr
                                (mkCall (mkFragment key [TAddress; TUint256] [] false)
                                        [VAddress a; VUint n])) t' value)
          end
    end.
Proof.
  intros Hkey. unfold token_invoke.
  assert (Hres : resolve_method RewardToken_abi key (length [VAddress a; VUint n])
                 = Normal (mkFragment key [TAddress; TUint256] [] false)).
  { destruct Hkey as [[-> _] | [[-> _] | [-> _]]]; reflexivity. }
  rewrite Hres. unfold tbind, tlift.
  cbn [negb Nat.eqb length f_inputs accepts_all accepts andb f_view].
  rewrite andb_true_r.
  destruct ((a <? 2 ^ 160)%N && ((0 <=? n)%Z && (n <? 2 ^ 256)%Z)); cbn [negb];
    [|reflexivity].
  rewrite token_request_run by apply token_send_world.
  destruct (node_env (tw_world tw) (node_reqs (tw_world tw))); [reflexivity|].
  unfold token_send. cbv zeta.
  destruct (tw_relayer_ether tw <? value)%N; [reflexivity|].
  assert (Hcall : TokenCall_of (mkFragment key [TAddress; TUint256] [] false)
                               [VAddress a; VUint n] = Some call).
  { destruct Hkey as [[-> ->] | [[-> ->] | [-> ->]]]; reflexivity. }
  rewrite Hcall.
  destruct (Token_call (tw_token tw) (mkMsg from value) call); reflexivity.
Qed.
End TokenRuns.

Lemma of_world_loadArtifact art tw abi tw' :
  of_world (loadArtifact art) tw = (Normal abi, tw') ->
  art = Some abi /\ tw_token tw' = tw_token tw /\
  tw_relayer_ether tw' = tw_relayer_ether tw /\ tw_world tw' = tw_world tw.
Proof.
  intros Hrun. apply of_world_token in Hrun as (Ht & He & Hw).
  destruct art as [abi0|]; [|discriminate Hw]. apply ret_inv in Hw as [-> Hw'].
  repeat split; congruence.
Qed.

Lemma of_world_same_token {A} (m : Async A) tw a tw' :
  of_world m tw = (Normal a, tw') ->
  tw_token tw' = tw_token tw /\ tw_relayer_ether tw' = tw_relayer_ether tw.
Proof. intros Hrun. apply of_world_token in Hrun as (Ht & He & _). split; assumption. Qed.

Lemma supply_ok_unlimited t minter : supply_ok t -> supply_ok (unlimited t minter).
Proof. intros Hok. exact Hok. Qed.

Lemma uint256_max_Z : Z.of_N uint256_max = (2 ^ 256 - 1)%Z.
Proof. reflexivity. Qed.

Lemma is_not_MAX_allowance a :
  is_not_MAX (Returned [VUint (Z.of_N a)]) = negb (a =? uint256_max)%N.
Proof.
  cbn [is_not_MAX]. f_equal. rewrite <- uint256_max_Z.
  destruct (a =? uint256_max)%N eqn:Ha.
  - apply N.eqb_eq in Ha. subst a. apply Z.eqb_refl.
  - apply N.eqb_neq in Ha. apply Z.eqb_neq. intros Heq. apply Ha, N2Z.inj, Heq.
Qed.

Section TokenMint.
Context `{Primitives}.

(** What the optional [setMinterAllowance] step leaves when it went
    through. *)
Lemma raise_step_inv rel tokenAddr tw u tw' :
  (rel < 2 ^ 160)%N ->
  (if negb (mapping_get (minterAllowance (tw_token tw)) rel =? uint256_max)%N
   then
     let+ txA := token_invoke RewardToken_abi rel tokenAddr 0 "setMinterAllowance"
                              [VAddress rel; VUint (2 ^ 256 - 1)] in
     let+ _ := of_world (as_tx txA) in
     let+ _ := of_world tx_wait in
     tret tt
   else tret tt) tw = (Normal u, tw') ->
  (mapping_get (minterAllowance (tw_token tw)) rel = uint256_max /\
   tw_token tw' = tw_token tw) \/
  (rel = token_owner (tw_token tw) /\ tw_token tw' = unlimited (tw_token tw) rel).
Proof.
  intros Hrel. apply N.ltb_lt in Hrel.
  destruct (mapping_get (minterAllowance (tw_token tw)) rel =? uint256_max)%N eqn:Hmax;
    cbn [negb].
  - intros Hrun. apply tret_inv in Hrun as [_ ->]. left. apply N.eqb_eq in Hmax. auto.
  - intros Hrun. right.
    apply tbind_Normal_inv in Hrun as (txA & tw1 & Hsend & Hrun).
    apply tbind_Normal_inv in Hrun as (h & tw2 & Hastx & Hrun).
    apply tbind_Normal_inv in Hrun as (n & tw3 & Hwait & Hrun).
    apply tret_inv in Hrun as [_ ->].
    apply of_world_same_token in Hastx as [Ht2 _].
    apply of_world_same_token in Hwait as [Ht3 _].
    rewrite Ht3, Ht2.
    rewrite (token_invoke_send_run "setMinterAllowance"
               (SetMinterAllowance rel (Z.to_N (2 ^ 256 - 1)))) in Hsend by auto.
    rewrite Hrel in Hsend. cbn [andb negb Z.leb Z.ltb] in Hsend.
    change ((0 <=? 2 ^ 256 - 1)%Z && (2 ^ 256 - 1 <? 2 ^ 256)%Z) with true in Hsend.
    cbn [negb] in Hsend.
    destruct (node_env (tw_world tw) (node_reqs (tw_world tw))); [discriminate|].
    destruct (tw_relayer_ether tw <? 0)%N; [discriminate|].
    unfold Token_call in Hsend.
    change (well_typed (SetMinterAllowance rel (Z.to_N (2 ^ 256 - 1))))
      with (is_address rel && true) in Hsend.
    unfold is_address in Hsend. rewrite Hrel in Hsend. cbn [andb negb] in Hsend.
    unfold setMinterAllowance, nonpayable, onlyOwner in Hsend. cbn [msg_value msg_sender] in Hsend.
    change (0 =? 0)%N with true in Hsend. cbv iota in Hsend.
    destruct (rel =? token_owner (tw_token tw))%N eqn:Hown; [|discriminate].
    apply N.eqb_eq in Hown. injection Hsend as _ <-. split; [exact Hown|]. reflexivity.
Qed.

(** X21: who can mint through [GET /api/token/mint].  A 200 means the
    relayer is the token's owner or already an unlimited minter; the
    recipient is then credited the amount scaled by [10^18], the supply
    grows by as much, and the relayer is left with an unlimited allowance.
    A relayer that is neither owner nor unlimited never gets a 200, even
    when its allowance would cover the amount: the handler first asks for
    an unlimited allowance, which only the owner may grant, so the token
    and the transaction history stay as they were. *)
Theorem token_mint_needs_owner_or_unlimited env rq tw tokenAddr r tw' :
  let rel := relayer env in
  let t := tw_token tw in
  let t' := tw_token tw' in
  REWARD_TOKEN env = Some tokenAddr ->
  artifact_RewardToken env = Some RewardToken_abi ->
  (rel < 2 ^ 160)%N ->
  supply_ok t ->
  token_mint env rq tw = (Normal r, tw') ->
  (status r = 200%nat ->
   (rel = token_owner t \/ mapping_get (minterAllowance t) rel = uint256_max) /\
   exists to amount,
     parse_address (query_or rq "wallet" "") = Some to /\
     parseUnits (query_or rq "amount" "10") 18 = Normal (Z.of_N amount) /\
     mapping_get (balances t') to = (mapping_get (balances t) to + amount)%N /\
     totalSupply t' = (totalSupply t + amount)%N /\
     mapping_get (minterAllowance t') rel = uint256_max) /\
  (rel <> token_owner t -> mapping_get (minterAllowance t) rel <> uint256_max ->
   status r <> 200%nat /\ t' = t /\
   mined (chain (tw_world tw')) = mined (chain (tw_world tw))).
Proof.
  intros rel t t' Htok Hart Hrel Hok Hrun. split.
  - intros Hst. unfold token_mint in Hrun. apply tcatch_500_ok in Hrun; [|exact Hst].
    rewrite Htok in Hrun. cbv zeta in Hrun.
    destruct (startsWith_0x (query_or rq "wallet" "")); cbn [negb] in Hrun.
    2:{ apply tret_inv in Hrun as [-> _]. discriminate Hst. }
    apply tbind_Normal_inv in Hrun as (abi & tw1 & Hload & Hrun).
    apply of_world_loadArtifact in Hload as (Habi & Ht1 & _ & Hw1).
    rewrite Hart in Habi. injection Habi as <-.
    apply tbind_Normal_inv in Hrun as (current & tw2 & Hread & Hrun).
    fold rel in Hread, Hrun.
    rewrite (token_invoke_minterAllowance_run _ _ _ _ Hrel) in Hread.
    destruct (node_env (tw_world tw1) (node_reqs (tw_world tw1))); [discriminate|].
    injection Hread as <- <-.
    apply tbind_Normal_inv in Hrun as (u & tw3 & Hraise & Hrun).
    rewrite is_not_MAX_allowance in Hraise.
    apply (raise_step_inv rel tokenAddr (tw_asked tw1) u tw3 Hrel) in Hraise.
    cbn [tw_asked tw_token] in Hraise. rewrite Ht1 in Hraise. fold t in Hraise.
    apply tbind_Normal_inv in Hrun as (amount & tw4 & Hamount & Hrun).
    apply tlift_Normal_inv in Hamount as [Hamount ->].
    apply tbind_Normal_inv in Hrun as (f & tw5 & Hres & Hrun).
    apply tlift_Normal_inv in Hres as [_ ->].
    apply tbind_Normal_inv in Hrun as (toAddr & tw6 & Hto & Hrun).
    unfold address_argument in Hto.
    destruct (parse_address (query_or rq "wallet" "")) as [to|] eqn:Hparse; [|discriminate].
    apply tret_inv in Hto as [-> ->].
    apply tbind_Normal_inv in Hrun as (tx & tw7 & Hsend & Hrun).
    apply tbind_Normal_inv in Hrun as (txh & tw8 & Hastx & Hrun).
    apply tbind_Normal_inv in Hrun as (n & tw9 & Hwait & Hrun).
    apply tret_inv in Hrun as [_ ->].
    apply of_world_same_token in Hastx as [Ht8 _].
    apply of_world_same_token in Hwait as [Ht9 _].
    rewrite (token_invoke_send_run "mintTo" (MintTo to (Z.to_N amount))) in Hsend by auto.
    destruct ((to <? 2 ^ 160)%N && ((0 <=? amount)%Z && (amount <? 2 ^ 256)%Z)) eqn:Hrange;
      cbn [negb] in Hsend; [|discriminate].
    apply andb_true_iff in Hrange as [_ Hrange]. apply andb_true_iff in Hrange as [Hpos _].
    apply Z.leb_le in Hpos.
    destruct (node_env (tw_world tw3) (node_reqs (tw_world tw3))); [discriminate|].
    destruct (tw_relayer_ether tw3 <? 0)%N; [discriminate|].
    destruct (Token_call (tw_token tw3) (mkMsg rel 0) (MintTo to (Z.to_N amount)))
      as [t7|e] eqn:Hcall; [|discriminate].
    injection Hsend as _ <-. unfold t'. rewrite Ht9, Ht8. cbn [tw_sent tw_token].
    unfold Token_call in Hcall.
    destruct (negb (well_typed (MintTo to (Z.to_N amount)))); [discriminate|].
    assert (Hcases : (rel = token_owner t \/ mapping_get (minterAllowance t) rel = uint256_max) /\
                     supply_ok (tw_token tw3) /\
                     mapping_get (minterAllowance (tw_token tw3)) rel = uint256_max /\
                     balances (tw_token tw3) = balances t /\
                     totalSupply (tw_token tw3) = totalSupply t).
    { destruct Hraise as [[Hmax ->] | [Hown ->]].
      - repeat split; auto; apply Hok.
      - repeat split; auto; try apply Hok. apply mapping_get_insert_eq. }
    destruct Hcases as (Hwho & Hok3 & Hmax3 & Hbal3 & Hsup3).
    destruct (mintTo_inv _ _ _ _ _ Hok3 Hcall)
      as (_ & _ & _ & _ & _ & _ & Hallow & _ & Hsup & Hbal & _).
    cbn [msg_sender] in Hallow. rewrite Hmax3 in Hallow.
    change (uint256_max =? uint256_max)%N with true in Hallow. cbv iota in Hallow.
    split; [exact Hwho|]. exists to, (Z.to_N amount).
    split; [reflexivity|]. split; [rewrite Z2N.id by exact Hpos; exact Hamount|].
    rewrite Hbal, Hsup, Hbal3, Hsup3, Hallow. repeat split.
  - intros Hnot Hlim. destruct tw as [w tok e]. cbn [tw_token tw_world] in *. subst t t'.
    unfold token_mint in Hrun. rewrite Htok, Hart in Hrun. cbv zeta in Hrun.
    unfold tcatch_500 in Hrun.
    destruct (startsWith_0x (query_or rq "wallet" "")); cbn [negb] in Hrun.
    2:{ cbv [tret] in Hrun. injection Hrun as <- <-.
        split; [discriminate|]. split; reflexivity. }
    unfold tbind at 1, of_world at 1, loadArtifact, ret in Hrun.
    cbn [tw_world tw_token tw_relayer_ether] in Hrun.
    fold rel in Hrun. unfold tbind at 1 in Hrun.
    rewrite (token_invoke_minterAllowance_run _ _ _ _ Hrel) in Hrun.
    cbn [tw_world] in Hrun.
    destruct (node_env w (node_reqs w)).
    { unfold tbind in Hrun. cbv beta iota in Hrun. injection Hrun as <- <-.
      split; [discriminate|]. split; reflexivity. }
    unfold tbind at 1 in Hrun. rewrite is_not_MAX_allowance in Hrun.
    cbn [tw_asked tw_token tw_world tw_relayer_ether] in Hrun.
    apply N.eqb_neq in Hlim. rewrite Hlim in Hrun. cbn [negb] in Hrun.
    unfold tbind at 1 in Hrun.
    rewrite (token_invoke_send_run "setMinterAllowance"
               (SetMinterAllowance rel (Z.to_N (2 ^ 256 - 1)))) in Hrun by auto.
    pose proof Hrel as Hrel'. apply N.ltb_lt in Hrel'. rewrite Hrel' in Hrun.
    change ((0 <=? 2 ^ 256 - 1)%Z && (2 ^ 256 - 1 <? 2 ^ 256)%Z) with true in Hrun.
    cbn [andb negb tw_world tw_token tw_relayer_ether tw_asked served node_env node_reqs
         chain] in Hrun.
    destruct (node_env w (S (node_reqs w))).
    { unfold tbind in Hrun. cbv beta iota in Hrun. injection Hrun as <- <-.
      split; [discriminate|]. split; reflexivity. }
    destruct (e <? 0)%N.
    { unfold tbind in Hrun. cbv beta iota in Hrun. injection Hrun as <- <-.
      split; [discriminate|]. split; reflexivity. }
    unfold Token_call in Hrun.
    change (well_typed (SetMinterAllowance rel (Z.to_N (2 ^ 256 - 1))))
      with (is_address rel && true) in Hrun.
    unfold is_address in Hrun. rewrite Hrel' in Hrun. cbn [andb negb] in Hrun.
    unfold setMinterAllowance, nonpayable, onlyOwner in Hrun.
    cbn [msg_value msg_sender] in Hrun.
    change (0 =? 0)%N with true in Hrun. cbv iota in Hrun.
    apply N.eqb_neq in Hnot. rewrite Hnot in Hrun.
    unfold tbind, revert in Hrun. cbv beta iota in Hrun. injection Hrun as <- <-.
    split; [discriminate|]. split; reflexivity.
Qed.
End TokenMint.

Lemma token_mint_needs_owner_or_unlimited_witness :
  let P := fixture_platform false in
  exists r tw',
    @token_mint P fixture_env mint_request fixture_token_world = (Normal r, tw') /\
    status r = 200%nat /\
    mapping_get (minterAllowance (tw_token tw')) 0x4E1A%N = uint256_max /\
    (forall r2 tw2,
        @token_mint P fixture_env_minter mint_request fixture_token_world = (Normal r2, tw2) ->
        status r2 <> 200%nat /\ tw_token tw2 = fixture_token).
Proof.
  intros P.
  eassert (Hrun : @token_mint P fixture_env mint_request fixture_token_world = (Normal _, _))
    by (vm_compute; reflexivity).
  match type of Hrun with
  | _ = (Normal ?r, ?tw') => exists r, tw'
  end.
  split; [exact Hrun|]. split; [reflexivity|].
  assert (Hok : supply_ok fixture_token) by (split; [reflexivity | discriminate]).
  split.
  - destruct (@token_mint_needs_owner_or_unlimited P fixture_env mint_request
                fixture_token_world 0x70CE%N _ _ eq_refl eq_refl eq_refl Hok Hrun)
      as [Hyes _].
    destruct (Hyes eq_refl) as (_ & to & amount & _ & _ & _ & _ & Hmax). exact Hmax.
  - intros r2 tw2 Hrun2.
    destruct (@token_mint_needs_owner_or_unlimited P fixture_env_minter mint_request
                fixture_token_world 0x70CE%N r2 tw2 eq_refl eq_refl eq_refl Hok Hrun2)
      as [_ Hno].
    destruct Hno as (Hst & Ht & _); [discriminate | discriminate |].
    split; [exact Hst | exact Ht].
Defined.

Lemma buy_inv t m to amount t' :
  supply_ok t ->
  buy t m to amount = Normal t' ->
  (0 < amount)%N /\ msg_value m = (pricePerTokenWei t * amount)%N /\
  totalSupply t' = (totalSupply t + amount)%N /\
  mapping_get (balances t') to = (mapping_get (balances t) to + amount)%N /\
  token_ether t' = (token_ether t + pricePerTokenWei t * amount)%N /\
  minterAllowance t' = minterAllowance t.
Proof.
  intros Hok. unfold buy. destruct (to =? 0)%N; [discriminate|].
  destruct (0 <? amount)%N eqn:Hamt; [|discriminate]. apply N.ltb_lt in Hamt.
  destruct (uint256_max <? pricePerTokenWei t * amount)%N; [discriminate|]. cbv zeta.
  destruct (msg_value m =? pricePerTokenWei t * amount)%N eqn:Hval; [|discriminate].
  apply N.eqb_eq in Hval. cbn [negb].
  destruct (ERC20_mint t to amount) as [t1|e] eqn:Hmint; [|discriminate].
  destruct (ERC20_mint_ok _ _ _ _ Hok Hmint)
    as (_ & _ & Hsup & Hbal & _ & _ & _ & Hallow & Heth).
  intros [= <-]. cbn [totalSupply balances token_ether minterAllowance].
  rewrite Heth, Hval. repeat split; assumption.
Qed.

Section TokenBuy.
Context `{Primitives}.
Variable BigInt_of_string : string -> option Z.

(** X22: what [GET /api/token/buy] buys.  A 200 means the [amount]
    parameter read as a [BigInt] was positive and was credited to the
    recipient as given, in base units (the mint route scales by [10^18],
    this one does not); the relayer paid exactly the price read at the
    start times the amount, which the token now holds, and the response
    reports that sum as [paidWei]; no allowance changed. *)
Theorem token_buy_pays_the_price env rq tw tokenAddr r tw' :
  let rel := relayer env in
  let t := tw_token tw in
  let t' := tw_token tw' in
  REWARD_TOKEN env = Some tokenAddr ->
  artifact_RewardToken env = Some RewardToken_abi ->
  supply_ok t ->
  token_buy BigInt_of_string env rq tw = (Normal r, tw') ->
  status r = 200%nat ->
  exists to amount,
    parse_address (query_or rq "wallet" "") = Some to /\
    BigInt_of_string (query_or rq "amount" "10") = Some (Z.of_N amount) /\
    (0 < amount)%N /\
    mapping_get (balances t') to = (mapping_get (balances t) to + amount)%N /\
    totalSupply t' = (totalSupply t + amount)%N /\
    (pricePerTokenWei t * amount <= tw_relayer_ether tw)%N /\
    tw_relayer_ether tw' = (tw_relayer_ether tw - pricePerTokenWei t * amount)%N /\
    token_ether t' = (token_ether t + pricePerTokenWei t * amount)%N /\
    minterAllowance t' = minterAllowance t /\
    prop (payload r) "amount" = Some (JStr (Z_to_string (Z.of_N amount))) /\
    prop (payload r) "paidWei"
    = Some (JStr (Z_to_string (Z.of_N (pricePerTokenWei t * amount)))).
Proof.
  intros rel t t' Htok Hart Hok Hrun Hst.
  unfold token_buy in Hrun. apply tcatch_500_ok in Hrun; [|exact Hst].
  rewrite Htok in Hrun. cbv zeta in Hrun.
  destruct (BigInt_of_string (query_or rq "amount" "10")) as [amount|] eqn:Hbig;
    [|discriminate].
  destruct (startsWith_0x (query_or rq "wallet" "")); cbn [negb] in Hrun.
  2:{ apply tret_inv in Hrun as [-> _]. discriminate Hst. }
  apply tbind_Normal_inv in Hrun as (abi & tw1 & Hload & Hrun).
  apply of_world_loadArtifact in Hload as (Habi & Ht1 & He1 & Hw1).
  rewrite Hart in Habi. injection Habi as <-.
  apply tbind_Normal_inv in Hrun as (p & tw2 & Hread & Hrun).
  fold rel in Hread, Hrun.
  rewrite token_invoke_pricePerTokenWei_run in Hread.
  destruct (node_env (tw_world tw1) (node_reqs (tw_world tw1))); [discriminate|].
  injection Hread as <- <-.
  apply tbind_Normal_inv in Hrun as (price & tw3 & Hprice & Hrun).
  apply tret_inv in Hprice as [-> ->].
  apply tbind_Normal_inv in Hrun as (f & tw5 & Hres & Hrun).
  apply tlift_Normal_inv in Hres as [_ ->].
  apply tbind_Normal_inv in Hrun as (toAddr & tw6 & Hto & Hrun).
  unfold address_argument in Hto.
  destruct (parse_address (query_or rq "wallet" "")) as [to|] eqn:Hparse; [|discriminate].
  apply tret_inv in Hto as [-> ->].
  apply tbind_Normal_inv in Hrun as (tx & tw7 & Hsend & Hrun).
  apply tbind_Normal_inv in Hrun as (txh & tw8 & Hastx & Hrun).
  apply tbind_Normal_inv in Hrun as (n & tw9 & Hwait & Hrun).
  apply tret_inv in Hrun as [-> ->].
  apply of_world_same_token in Hastx as [Ht8 He8].
  apply of_world_same_token in Hwait as [Ht9 He9].
  rewrite (token_invoke_send_run "buy" (Buy to (Z.to_N amount))) in Hsend by auto.
  destruct ((to <? 2 ^ 160)%N && ((0 <=? amount)%Z && (amount <? 2 ^ 256)%Z)) eqn:Hrange;
    cbn [negb] in Hsend; [|discriminate].
  apply andb_true_iff in Hrange as [_ Hrange]. apply andb_true_iff in Hrange as [Hpos _].
  apply Z.leb_le in Hpos.
  cbn [tw_asked tw_world tw_token tw_relayer_ether served node_env node_reqs chain] in Hsend.
  destruct (node_env (tw_world tw1) (S (node_reqs (tw_world tw1)))); [discriminate|].
  rewrite Ht1, He1 in Hsend. fold t in Hsend.
  assert (Hvalue : Z.to_N (Z.of_N (pricePerTokenWei t) * amount)
                   = (pricePerTokenWei t * Z.to_N amount)%N).
  { rewrite Z2N.inj_mul by lia. rewrite N2Z.id. reflexivity. }
  rewrite Hvalue in Hsend.
  destruct (tw_relayer_ether tw <? pricePerTokenWei t * Z.to_N amount)%N eqn:Hfunds;
    [discriminate|]. apply N.ltb_ge in Hfunds.
  destruct (Token_call t (mkMsg rel (pricePerTokenWei t * Z.to_N amount))
                       (Buy to (Z.to_N amount))) as [t7|e] eqn:Hcall; [|discriminate].
  injection Hsend as _ <-. unfold t'. rewrite Ht9, Ht8, He9, He8.
  cbn [tw_sent tw_token tw_relayer_ether].
  unfold Token_call in Hcall.
  destruct (negb (well_typed (Buy to (Z.to_N amount)))); [discriminate|].
  destruct (buy_inv _ _ _ _ _ Hok Hcall) as (Hamt & _ & Hsup & Hbal & Heth & Hallow).
  exists to, (Z.to_N amount). rewrite Z2N.id by exact Hpos.
  cbn [tw_asked tw_relayer_ether]. rewrite He1, Ht1. fold t.
  split; [reflexivity|]. split; [reflexivity|]. split; [exact Hamt|].
  split; [exact Hbal|]. split; [exact Hsup|]. split; [exact Hfunds|].
  split; [reflexivity|]. split; [exact Heth|]. split; [exact Hallow|].
  split; [reflexivity|].
  rewrite N2Z.inj_mul, Z2N.id by exact Hpos. reflexivity.
Qed.
End TokenBuy.

Lemma token_buy_pays_the_price_witness :
  let P := fixture_platform false in
  exists r tw',
    @token_buy P fixture_BigInt fixture_env mint_request fixture_token_world = (Normal r, tw') /\
    mapping_get (balances (tw_token tw')) 0xaa%N = 2%N /\
    tw_relayer_ether tw' = (10 ^ 18 - 10)%N /\
    prop (payload r) "paidWei" = Some (JStr "10").
Proof.
  intros P.
  eassert (Hrun : @token_buy P fixture_BigInt fixture_env mint_request fixture_token_world
                  = (Normal _, _)) by (vm_compute; reflexivity).
  match type of Hrun with
  | _ = (Normal ?r, ?tw') => exists r, tw'
  end.
  split; [exact Hrun|].
  destruct (@token_buy_pays_the_price P fixture_BigInt fixture_env mint_request
              fixture_token_world 0x70CE%N _ _ eq_refl eq_refl
              ltac:(split; [reflexivity | discriminate]) Hrun eq_refl)
    as (to & amount & Hto & Hamount & _ & Hbal & _ & _ & Hether & _ & _ & _ & Hpaid).
  vm_compute in Hto. injection Hto as <-.
  assert (Hv : fixture_BigInt (query_or mint_request "amount" "10") = Some 2%Z)
    by reflexivity.
  rewrite Hv in Hamount. injection Hamount as Hamount.
  assert (amount = 2%N) as -> by lia.
  split; [exact Hbal|]. split; [exact Hether | exact Hpaid].
Defined.

(** ** Token handlers: validation and reach *)

Lemma tanswers_ret (P : nat -> Prop) r : P (status r) -> tanswers P (tret r).
Proof. intros HP tw r' tw' [= <- _]. exact HP. Qed.

Lemma tanswers_throw (P : nat -> Prop) e : tanswers P (tthrow e).
Proof. intros tw r tw' Hrun. discriminate Hrun. Qed.

Lemma tanswers_bind {A} (P : nat -> Prop) (m : TAsync A) k :
  (forall a, tanswers P (k a)) -> tanswers P (tbind m k).
Proof.
  intros Hk tw r tw' Hrun. apply tbind_Normal_inv in Hrun as (a & tw1 & _ & Hrun).
  exact (Hk a tw1 r tw' Hrun).
Qed.

Ltac tans_step :=
  lazymatch goal with
  | |- tanswers _ (tbind _ _) => apply tanswers_bind; intros ?
  | |- tanswers _ (tret _) => apply tanswers_ret; cbn [status res_json res_status_json]; auto
  | |- tanswers _ (tthrow _) => apply tanswers_throw
  | |- tanswers _ (if ?b then _ else _) => destruct b
  | |- tanswers _ (match ?x with _ => _ end) => destruct x
  end.

Lemma tvalidates_accepted m :
  tanswers (fun s => s = 200%nat \/ s = 500%nat) m -> tvalidates (tcatch_500 m) false.
Proof.
  intros Hm tw. unfold tcatch_500.
  destruct (m tw) as [[r|e] tw1] eqn:Hrun.
  - exists r, tw1. split; [reflexivity|]. exact (Hm tw r tw1 Hrun).
  - eexists _, _. split; [reflexivity|]. right. reflexivity.
Qed.

Lemma tvalidates_rejected msg :
  tvalidates (tcatch_500 (tret (res_status_json 400 (error_body msg)))) true.
Proof. intros tw. eexists _, _. split; [reflexivity|]. split; reflexivity. Qed.

Section TokenValidation.
Context `{Primitives}.
Variables BigInt_of_string getBigInt : string -> option Z.

(** X23: the token handlers validate before they act.  Each of
    [/api/token/mint], [/api/token/buy], [/api/token/set-price] and
    [/api/token/set-minter] always answers, with 200, 400 or 500.  The
    status is 400, with nothing asked of the node, exactly when
    [REWARD_TOKEN] is not set or a parameter is missing or, for a wallet,
    does not start with [0x]; the buy route converts [amount] before it
    looks at the wallet, so an amount that is not a [BigInt] gives a 500
    whatever the wallet is, again with nothing asked. *)
Theorem token_handlers_validate env rq :
  tvalidates (token_mint env rq)
             (unset (REWARD_TOKEN env) || negb (startsWith_0x (query_or rq "wallet" ""))) /\
  tvalidates (token_buy BigInt_of_string env rq)
             (unset (REWARD_TOKEN env)
              || match BigInt_of_string (query_or rq "amount" "10") with
                 | Some _ => negb (startsWith_0x (query_or rq "wallet" ""))
                 | None => false
                 end) /\
  (unset (REWARD_TOKEN env) = false ->
   BigInt_of_string (query_or rq "amount" "10") = None ->
   forall tw, exists r, token_buy BigInt_of_string env rq tw = (Normal r, tw) /\
                        status r = 500%nat) /\
  tvalidates (token_set_price getBigInt env rq)
             (unset (REWARD_TOKEN env) || unset (query_given rq "wei")) /\
  tvalidates (token_set_minter getBigInt env rq)
             (unset (REWARD_TOKEN env) || unset (query_given rq "wallet")
              || unset (query_given rq "allowance")).
Proof.
  split; [|split; [|split; [|split]]].
  - unfold token_mint. cbv zeta.
    destruct (REWARD_TOKEN env) as [tokenAddr|]; [|apply tvalidates_rejected].
    destruct (startsWith_0x (query_or rq "wallet" "")); [|apply tvalidates_rejected].
    cbn [negb]. apply tvalidates_accepted. repeat tans_step.
  - unfold token_buy. cbv zeta.
    destruct (REWARD_TOKEN env) as [tokenAddr|]; [|apply tvalidates_rejected].
    destruct (BigInt_of_string (query_or rq "amount" "10")) as [amount|].
    + destruct (startsWith_0x (query_or rq "wallet" "")); [|apply tvalidates_rejected].
      cbn [negb]. apply tvalidates_accepted. repeat tans_step.
    + apply tvalidates_accepted. repeat tans_step.
  - intros Hset Hbad tw. unfold token_buy.
    destruct (REWARD_TOKEN env) as [tokenAddr|]; [|discriminate Hset].
    rewrite Hbad. eexists. split; reflexivity.
  - unfold token_set_price.
    destruct (REWARD_TOKEN env) as [tokenAddr|]; [|apply tvalidates_rejected].
    destruct (query_given rq "wei") as [wei|]; [|apply tvalidates_rejected].
    apply tvalidates_accepted. repeat tans_step.
  - unfold token_set_minter.
    destruct (REWARD_TOKEN env) as [tokenAddr|]; [|apply tvalidates_rejected].
    destruct (query_given rq "wallet") as [wallet|]; [|apply tvalidates_rejected].
    destruct (query_given rq "allowance") as [allowance|]; [|apply tvalidates_rejected].
    apply tvalidates_accepted. repeat tans_step.
Qed.
End TokenValidation.

(** ** Token handlers: the owner's routes *)

Section TokenSetters.
Context `{Primitives}.
Variable getBigInt : string -> option Z.

Lemma token_invoke_setPrice_run from tokenAddr n tw :
  token_invoke RewardToken_abi from tokenAddr 0 "setPricePerTokenWei" [VUint n] tw =
  if negb ((0 <=? n)%Z && (n <? 2 ^ 256)%Z)
  then (Throw (TypeError "invalid argument"), tw)
  else
    match node_env (tw_world tw) (node_reqs (tw_world tw)) with
    | Some e => (Throw e, tw_asked tw)
    | None =>
        match Token_call (tw_token tw) (mkMsg from 0) (SetPricePerTokenWei (Z.to_N n)) with
        | Throw e => (Throw e, tw_asked tw)
        | Normal t' =>
            (Normal (Sent (tx_hash from (length (mined (chain (tw_world tw)))))),
             tw_sent tw (mkTx from tokenAddr
                              (mkCall (mkFragment "setPricePerTokenWei" [TUint256] [] false)
                                      [VUint n])) t' 0)
        end
    end.
Proof.
  unfold token_invoke.
  change (resolve_method RewardToken_abi "setPricePerTokenWei" (length [VUint n]))
    with (Normal (mkFragment "setPricePerTokenWei" [TUint256] [] false)).
  unfold tbind, tlift.
  cbn [negb Nat.eqb length f_inputs accepts_all accepts andb f_view].
  rewrite andb_true_r.
  destruct ((0 <=? n)%Z && (n <? 2 ^ 256)%Z); cbn [negb]; [|reflexivity].
  rewrite token_request_run by apply token_send_world.
  destruct (node_env (tw_world tw) (node_reqs (tw_world tw))); [reflexivity|].
  unfold token_send. cbv zeta.
  assert (Hfunds : (tw_relayer_ether tw <? 0)%N = false) by (apply N.ltb_ge; lia).
  rewrite Hfunds.
  change (TokenCall_of (mkFragment "setPricePerTokenWei" [TUint256] [] false) [VUint n])
    with (Some (SetPricePerTokenWei (Z.to_N n))).
  cbv iota.
  destruct (Token_call (tw_token tw) (mkMsg from 0) (SetPricePerTokenWei (Z.to_N n)));
    reflexivity.
Qed.

(** What a setter call does, by who sends it. *)
Lemma Token_call_setter t from call :
  (exists p, call = SetPricePerTokenWei p) \/ (exists a n, call = SetMinterAllowance a n) ->
  match Token_call t (mkMsg from 0) call with
  | Normal t' =>
      from = token_owner t /\ balances t' = balances t /\ totalSupply t' = totalSupply t /\
      token_owner t' = token_owner t /\ token_ether t' = token_ether t /\
      match call with
      | SetPricePerTokenWei p =>
          pricePerTokenWei t' = p /\ minterAllowance t' = minterAllowance t
      | SetMinterAllowance a n =>
          pricePerTokenWei t' = pricePerTokenWei t /\
          minterAllowance t' = <[a := n]> (minterAllowance t)
      | _ => True
      end
  | Throw _ => True
  end.
Proof.
  intros [[p ->] | (a & n & ->)]; unfold Token_call;
    destruct (negb (well_typed _)); cbn [revert]; trivial;
    unfold setPricePerTokenWei, setMinterAllowance, nonpayable, onlyOwner;
    cbn [msg_value msg_sender]; change (0 =? 0)%N with true; cbv iota;
    destruct (from =? token_owner t)%N eqn:Hown; cbn [revert]; trivial;
    apply N.eqb_eq in Hown; repeat split; assumption.
Qed.

(** X24: the owner's routes.  A 200 from [GET /api/token/set-price] or
    [GET /api/token/set-minter] means the relayer is the token's owner and
    the value given, read as an unsigned 256-bit integer, is now the price,
    respectively the allowance of the wallet given; balances, supply and
    everything else in the token are as before. *)
Theorem token_setters_need_owner env rq tw tokenAddr r tw' :
  let rel := relayer env in
  let t := tw_token tw in
  let t' := tw_token tw' in
  REWARD_TOKEN env = Some tokenAddr ->
  artifact_RewardToken env = Some RewardToken_abi ->
  status r = 200%nat ->
  (token_set_price getBigInt env rq tw = (Normal r, tw') ->
   rel = token_owner t /\
   exists wei p,
     query_given rq "wei" = Some wei /\ getBigInt wei = Some (Z.of_N p) /\
     pricePerTokenWei t' = p /\ minterAllowance t' = minterAllowance t /\
     balances t' = balances t /\ totalSupply t' = totalSupply t /\
     token_owner t' = token_owner t) /\
  (token_set_minter getBigInt env rq tw = (Normal r, tw') ->
   rel = token_owner t /\
   exists wallet allowance a n,
     query_given rq "wallet" = Some wallet /\ parse_address wallet = Some a /\
     query_given rq "allowance" = Some allowance /\ getBigInt allowance = Some (Z.of_N n) /\
     minterAllowance t' = <[a := n]> (minterAllowance t) /\
     pricePerTokenWei t' = pricePerTokenWei t /\
     balances t' = balances t /\ totalSupply t' = totalSupply t /\
     token_owner t' = token_owner t).
Proof.
  intros rel t t' Htok Hart Hst. split.
  - intros Hrun. unfold token_set_price in Hrun.
    apply tcatch_500_ok in Hrun; [|exact Hst]. rewrite Htok in Hrun.
    destruct (query_given rq "wei") as [wei|].
    2:{ apply tret_inv in Hrun as [-> _]. discriminate Hst. }
    apply tbind_Normal_inv in Hrun as (abi & tw1 & Hload & Hrun).
    apply of_world_loadArtifact in Hload as (Habi & Ht1 & _ & _).
    rewrite Hart in Habi. injection Habi as <-.
    apply tbind_Normal_inv in Hrun as (f & tw2 & Hres & Hrun).
    apply tlift_Normal_inv in Hres as [_ ->].
    apply tbind_Normal_inv in Hrun as (z & tw3 & Hz & Hrun).
    unfold uint_argument in Hz. destruct (getBigInt wei) as [z'|] eqn:Hbig; [|discriminate].
    apply tret_inv in Hz as [-> ->].
    apply tbind_Normal_inv in Hrun as (tx & tw4 & Hsend & Hrun).
    apply tbind_Normal_inv in Hrun as (txh & tw5 & Hastx & Hrun).
    apply tbind_Normal_inv in Hrun as (n & tw6 & Hwait & Hrun).
    apply tret_inv in Hrun as [_ ->].
    apply of_world_same_token in Hastx as [Ht5 _].
    apply of_world_same_token in Hwait as [Ht6 _].
    fold rel in Hsend. rewrite token_invoke_setPrice_run in Hsend.
    destruct ((0 <=? z')%Z && (z' <? 2 ^ 256)%Z) eqn:Hrange; cbn [negb] in Hsend;
      [|discriminate].
    apply andb_true_iff in Hrange as [Hpos _]. apply Z.leb_le in Hpos.
    destruct (node_env (tw_world tw1) (node_reqs (tw_world tw1))); [discriminate|].
    pose proof (Token_call_setter (tw_token tw1) rel (SetPricePerTokenWei (Z.to_N z'))
                  ltac:(left; eauto)) as Hset.
    destruct (Token_call (tw_token tw1) (mkMsg rel 0) (SetPricePerTokenWei (Z.to_N z')))
      as [t4|e]; [|discriminate].
    injection Hsend as _ <-. unfold t'. rewrite Ht6, Ht5. cbn [tw_sent tw_token].
    rewrite Ht1 in Hset. fold t in Hset.
    destruct Hset as (Hown & Hbal & Hsup & Howner & _ & Hprice & Hallow).
    split; [exact Hown|]. exists wei, (Z.to_N z').
    rewrite Z2N.id by exact Hpos. repeat split; assumption.
  - intros Hrun. unfold token_set_minter in Hrun.
    apply tcatch_500_ok in Hrun; [|exact Hst]. rewrite Htok in Hrun.
    destruct (query_given rq "wallet") as [wallet|].
    2:{ apply tret_inv in Hrun as [-> _]. discriminate Hst. }
    destruct (query_given rq "allowance") as [allowance|].
    2:{ apply tret_inv in Hrun as [-> _]. discriminate Hst. }
    apply tbind_Normal_inv in Hrun as (abi & tw1 & Hload & Hrun).
    apply of_world_loadArtifact in Hload as (Habi & Ht1 & _ & _).
    rewrite Hart in Habi. injection Habi as <-.
    apply tbind_Normal_inv in Hrun as (f & tw2 & Hres & Hrun).
    apply tlift_Normal_inv in Hres as [_ ->].
    apply tbind_Normal_inv in Hrun as (a & tw3 & Ha & Hrun).
    unfold address_argument in Ha.
    destruct (parse_address wallet) as [a'|] eqn:Hparse; [|discriminate].
    apply tret_inv in Ha as [-> ->].
    apply tbind_Normal_inv in Hrun as (z & tw4 & Hz & Hrun).
    unfold uint_argument in Hz.
    destruct (getBigInt allowance) as [z'|] eqn:Hbig; [|discriminate].
    apply tret_inv in Hz as [-> ->].
    apply tbind_Normal_inv in Hrun as (tx & tw5 & Hsend & Hrun).
    apply tbind_Normal_inv in Hrun as (txh & tw6 & Hastx & Hrun).
    apply tbind_Normal_inv in Hrun as (n & tw7 & Hwait & Hrun).
    apply tret_inv in Hrun as [_ ->].
    apply of_world_same_token in Hastx as [Ht6 _].
    apply of_world_same_token in Hwait as [Ht7 _].
    fold rel in Hsend.
    rewrite (token_invoke_send_run "setMinterAllowance"
               (SetMinterAllowance a' (Z.to_N z'))) in Hsend by auto.
    destruct ((a' <? 2 ^ 160)%N && ((0 <=? z')%Z && (z' <? 2 ^ 256)%Z)) eqn:Hrange;
      cbn [negb] in Hsend; [|discriminate].
    apply andb_true_iff in Hrange as [_ Hrange]. apply andb_true_iff in Hrange as [Hpos _].
    apply Z.leb_le in Hpos.
    destruct (node_env (tw_world tw1) (node_reqs (tw_world tw1))); [discriminate|].
    destruct (tw_relayer_ether tw1 <? 0)%N; [discriminate|].
    pose proof (Token_call_setter (tw_token tw1) rel (SetMinterAllowance a' (Z.to_N z'))
                  ltac:(right; eauto)) as Hset.
    destruct (Token_call (tw_token tw1) (mkMsg rel 0) (SetMinterAllowance a' (Z.to_N z')))
      as [t5|e]; [|discriminate].
    injection Hsend as _ <-. unfold t'. rewrite Ht7, Ht6. cbn [tw_sent tw_token].
    rewrite Ht1 in Hset. fold t in Hset.
    destruct Hset as (Hown & Hbal & Hsup & Howner & _ & Hprice & Hallow).
    split; [exact Hown|]. exists wallet, allowance, a', (Z.to_N z').
    rewrite Z2N.id by exact Hpos. repeat split; assumption.
Qed.
End TokenSetters.

Lemma token_setters_need_owner_witness :
  let P := fixture_platform false in
  let rq := mkReq [("wei", "7"); ("wallet", "0x00000000000000000000000000000000000000aa");
                   ("allowance", "50")] [] in
  exists r1 tw1 r2 tw2,
    @token_set_price P fixture_BigInt fixture_env rq fixture_token_world = (Normal r1, tw1) /\
    pricePerTokenWei (tw_token tw1) = 7%N /\
    @token_set_minter P fixture_BigInt fixture_env rq tw1 = (Normal r2, tw2) /\
    mapping_get (minterAllowance (tw_token tw2)) 0xaa%N = 50%N.
Proof.
  intros P rq.
  eassert (Hrun1 : @token_set_price P fixture_BigInt fixture_env rq fixture_token_world
                   = (Normal _, _)) by (vm_compute; reflexivity).
  match type of Hrun1 with
  | _ = (Normal ?r1, ?tw1) =>
      eassert (Hrun2 : @token_set_minter P fixture_BigInt fixture_env rq tw1 = (Normal _, _))
        by (vm_compute; reflexivity);
      match type of Hrun2 with
      | _ = (Normal ?r2, ?tw2) =>
          exists r1, tw1, r2, tw2;
          destruct (proj1 (@token_setters_need_owner P fixture_BigInt fixture_env rq
                             fixture_token_world 0x70CE%N r1 tw1 eq_refl eq_refl eq_refl)
                          Hrun1)
            as (_ & wei & p & Hwei & Hp & Hprice & _);
          destruct (proj2 (@token_setters_need_owner P fixture_BigInt fixture_env rq
                             tw1 0x70CE%N r2 tw2 eq_refl eq_refl eq_refl)
                          Hrun2)
            as (_ & wallet & allowance & a & n & Hw & Ha & Hal & Hn & Hallow & _)
      end
  end.
  split; [exact Hrun1|]. split.
  - rewrite Hprice. injection Hwei as <-.
    assert (Hv : fixture_BigInt "7" = Some 7%Z) by reflexivity.
    rewrite Hv in Hp. injection Hp as Hp. lia.
  - split; [exact Hrun2|]. rewrite Hallow.
    injection Hw as <-. injection Hal as <-.
    assert (Ha' : @parse_address P "0x00000000000000000000000000000000000000aa" = Some 0xaa%N)
      by reflexivity.
    rewrite Ha' in Ha. injection Ha as <-.
    assert (Hv : fixture_BigInt "50" = Some 50%Z) by reflexivity.
    rewrite Hv in Hn. injection Hn as Hn.
    rewrite mapping_get_insert_eq. lia.
Defined.

(** ** Token handlers: what they leave alone *)

Section TPreserves.
Context (R : TokenWorld -> TokenWorld -> Prop).
Hypothesis R_refl : forall tw, R tw tw.
Hypothesis R_trans : forall a b c, R a b -> R b c -> R a c.

Lemma tpreserves_ret {A} (a : A) : tpreserves R (tret a).
Proof. intros tw r tw' [= _ <-]. apply R_refl. Qed.

Lemma tpreserves_throw {A} e : tpreserves R (@tthrow A e).
Proof. intros tw r tw' [= _ <-]. apply R_refl. Qed.

Lemma tpreserves_lift {A} (c : Completion A) : tpreserves R (tlift c).
Proof. intros tw r tw' [= _ <-]. apply R_refl. Qed.

Lemma tpreserves_bind {A B} (m : TAsync A) (k : A -> TAsync B) :
  tpreserves R m -> (forall a, tpreserves R (k a)) -> tpreserves R (tbind m k).
Proof.
  intros Hm Hk tw r tw'. unfold tbind.
  destruct (m tw) as [[a|e] tw1] eqn:Hmw; intros Hrun.
  - eapply R_trans; [eapply Hm; exact Hmw | eapply Hk; exact Hrun].
  - injection Hrun as _ <-. eapply Hm; exact Hmw.
Qed.

Lemma tpreserves_catch_500 m : tpreserves R m -> tpreserves R (tcatch_500 m).
Proof.
  intros Hm tw r tw'. unfold tcatch_500.
  destruct (m tw) as [[a|e] tw1] eqn:Hmw; intros [= _ <-]; eapply Hm; exact Hmw.
Qed.
End TPreserves.

Lemma same_accounts_refl tw : same_accounts tw tw.
Proof. repeat split. Qed.

Lemma keeps_to_token_refl tw : keeps_to_token tw tw.
Proof. split; [apply same_accounts_refl | trivial]. Qed.

Lemma keeps_to_token_trans a b c :
  keeps_to_token a b -> keeps_to_token b c -> keeps_to_token a c.
Proof.
  intros [(A1 & B1 & C1 & D1) S1] [(A2 & B2 & C2 & D2) S2].
  split; [repeat split; congruence | auto].
Qed.

Lemma keeps_to_token_of_world {A} (m : Async A) :
  preserves only_node_reads m -> tpreserves keeps_to_token (of_world m).
Proof.
  intros Hm tw r tw'. unfold of_world.
  destruct (m (tw_world tw)) as [r0 w'] eqn:Hrun. intros [= _ <-].
  destruct (Hm _ _ _ Hrun) as (Hc & Hl & _).
  unfold keeps_to_token, same_accounts. cbn [tw_world tw_token].
  rewrite Hc, Hl. split; [repeat split | trivial].
Qed.

Ltac tpres_step :=
  lazymatch goal with
  | |- tpreserves _ (tbind _ _) =>
      apply tpreserves_bind; [exact keeps_to_token_trans | | intros ?]
  | |- tpreserves _ (tcatch_500 _) => apply tpreserves_catch_500
  | |- tpreserves _ (tret _) => apply tpreserves_ret; exact keeps_to_token_refl
  | |- tpreserves _ (tthrow _) => apply tpreserves_throw; exact keeps_to_token_refl
  | |- tpreserves _ (tlift _) => apply tpreserves_lift; exact keeps_to_token_refl
  | |- tpreserves _ (if ?b then _ else _) => destruct b
  | |- tpreserves _ (match ?x with _ => _ end) => destruct x
  end.

Section TokenReach.
Context `{Primitives}.
Variables BigInt_of_string getBigInt : string -> option Z.

Lemma keeps_to_token_request {A} (op : TokenWorld -> Completion A * TokenWorld) :
  (forall x, keeps_to_token x (snd (op x))) -> tpreserves keeps_to_token (token_request op).
Proof.
  intros Hop tw r tw'. unfold token_request. cbv zeta.
  destruct (node_env (tw_world tw) (node_reqs (tw_world tw))).
  - intros [= _ <-]. split; [repeat split | trivial].
  - specialize (Hop tw). destruct (op tw) as [r0 x]. cbn [snd] in Hop.
    intros [= _ <-]. destruct Hop as [(Hc & Ho & Hf & Hl) Hs].
    unfold keeps_to_token, same_accounts. cbn [tw_world tw_token chain http_log].
    split; [repeat split; assumption | exact Hs].
Qed.

Lemma keeps_to_token_send from tokenAddr value f args x :
  keeps_to_token x (snd (token_send from tokenAddr value f args x)).
Proof.
  unfold token_send. cbv zeta. destruct (_ <? _)%N; [apply keeps_to_token_refl|].
  destruct (TokenCall_of f args) as [call|]; [|apply keeps_to_token_refl].
  destruct (Token_call _ _ _) as [t'|e] eqn:Hcall; [|apply keeps_to_token_refl].
  split; [repeat split|]. cbn [snd tw_token]. intros Hok.
  exact (Token_call_supply_ok _ _ _ _ Hok Hcall).
Qed.

Lemma keeps_to_token_invoke abi from tokenAddr value key args :
  tpreserves keeps_to_token (token_invoke abi from tokenAddr value key args).
Proof.
  unfold token_invoke. repeat tpres_step.
  - apply keeps_to_token_request. intros x. apply keeps_to_token_refl.
  - apply keeps_to_token_request. intros x. apply keeps_to_token_send.
Qed.

Lemma keeps_to_token_tx_wait : tpreserves keeps_to_token (of_world tx_wait).
Proof.
  apply keeps_to_token_of_world.
  exact (only_node_reads_node_read (fun c => Normal (length (mined c)))).
Qed.

Lemma keeps_to_token_as_tx r : tpreserves keeps_to_token (of_world (as_tx r)).
Proof.
  apply keeps_to_token_of_world. apply preserves_as_tx. exact only_node_reads_refl.
Qed.

Lemma keeps_to_token_loadArtifact art :
  tpreserves keeps_to_token (of_world (loadArtifact art)).
Proof.
  apply keeps_to_token_of_world. apply preserves_loadArtifact. exact only_node_reads_refl.
Qed.

Ltac token_leaf :=
  first [ apply keeps_to_token_invoke | apply keeps_to_token_tx_wait
        | apply keeps_to_token_as_tx | apply keeps_to_token_loadArtifact ].

(** X25: the token handlers keep to the token.  Whatever
    [/api/token/mint], [/api/token/buy], [/api/token/set-price] and
    [/api/token/set-minter] are asked and however the node behaves, the
    code, the owners and the factories of the chain are as before, no
    [fetch] is issued, and a token whose supply was the sum of its balances
    is still such a token. *)
Theorem token_handlers_keep_to_token env rq :
  tpreserves keeps_to_token (token_mint env rq) /\
  tpreserves keeps_to_token (token_buy BigInt_of_string env rq) /\
  tpreserves keeps_to_token (token_set_price getBigInt env rq) /\
  tpreserves keeps_to_token (token_set_minter getBigInt env rq).
Proof.
  split; [|split; [|split]].
  - unfold token_mint, address_argument. cbv zeta. repeat tpres_step; token_leaf.
  - unfold token_buy, address_argument, as_bigint. cbv zeta. repeat tpres_step; token_leaf.
  - unfold token_set_price, uint_argument. repeat tpres_step; token_leaf.
  - unfold token_set_minter, address_argument, uint_argument.
    repeat tpres_step; token_leaf.
Qed.
End TokenReach.

Lemma token_handlers_keep_to_token_witness :
  let P := fixture_platform false in
  let tw1 := snd (@token_mint P fixture_env mint_request fixture_token_world) in
  let tw2 := snd (@token_buy P fixture_BigInt fixture_env mint_request tw1) in
  supply_ok (tw_token tw2) /\ totalSupply (tw_token tw2) = (2 * 10 ^ 18 + 2)%N.
Proof.
  intros P tw1 tw2.
  assert (Hok : supply_ok fixture_token) by (split; [reflexivity | discriminate]).
  destruct (@token_handlers_keep_to_token P fixture_BigInt fixture_BigInt fixture_env
              mint_request) as (Hmint & Hbuy & _).
  split.
  - apply (Hbuy tw1 _ tw2 (surjective_pairing _)).
    apply (Hmint fixture_token_world _ tw1 (surjective_pairing _)). exact Hok.
  - vm_compute. reflexivity.
Defined.

(** ** Who may act through an account *)

Section AccountGuard.
Context `{Primitives}.

(** X26: an account answers to its first owner only.  Once
    [createAccount] has deployed an account for an owner, then on every
    later chain (whatever transactions and handler runs extended it)
    [MinimalAccount.execute] on that account goes through exactly when the
    caller is that owner and the inner call succeeds; it then returns what
    the inner call returned. *)
Theorem account_obeys_first_owner c impl this u o a c1 c2 sender inner :
  AccountFactory_createAccount c impl this u o = Normal (a, c1) ->
  has_code (getCode c a) = false ->
  chain_extends c1 c2 ->
  (is_throw (MinimalAccount_execute c2 a sender inner) = false <->
   sender = o /\ is_throw inner = false) /\
  (sender = o -> forall ret, inner = Normal ret ->
                             MinimalAccount_execute c2 a sender inner = Normal ret).
Proof.
  intros Hrun Hfresh Hext.
  assert (Ha : a = AccountFactory_getAddress impl this u).
  { unfold AccountFactory_createAccount in Hrun.
    destruct (has_code _); [injection Hrun as <- _; reflexivity|].
    destruct (MinimalAccount_initialize _ _ _); [|discriminate].
    injection Hrun as <- _. reflexivity. }
  subst a. rewrite (createAccount_fresh _ _ _ _ _ Hfresh) in Hrun.
  destruct (owners c !! _); [discriminate|].
  destruct (o =? 0)%N; [discriminate|]. injection Hrun as <-.
  destruct Hext as (_ & _ & _ & Hown & _).
  specialize (Hown (AccountFactory_getAddress impl this u) o).
  cbn [owners] in Hown. rewrite lookup_insert_eq in Hown. specialize (Hown eq_refl).
  unfold MinimalAccount_execute, MinimalAccount_owner. rewrite Hown.
  change (default 0%N (Some o)) with o.
  destruct (sender =? o)%N eqn:Hs; cbn [negb].
  - apply N.eqb_eq in Hs. split.
    + destruct inner as [ret|e]; cbn.
      * split; [intros _; split; [exact Hs | reflexivity] | intros _; reflexivity].
      * split; [discriminate | intros [_ Hf]; discriminate Hf].
    + intros _ ret ->. reflexivity.
  - apply N.eqb_neq in Hs. split.
    + cbn. split; [discriminate | intros [? _]; contradiction].
    + intros ?. contradiction.
Qed.
End AccountGuard.

Lemma account_obeys_first_owner_witness :
  let P := fixture_platform false in
  exists a c1,
    @AccountFactory_createAccount P fixture_chain 0x1A9%N 0xFAC70%N "alice" 0x4E1A%N
    = Normal (a, c1) /\
    MinimalAccount_execute c1 a 0x4E1A%N (Normal []) = Normal [] /\
    (is_throw (MinimalAccount_execute c1 a 0xaa%N (Normal [])) = false -> False).
Proof.
  intros P.
  destruct (@AccountFactory_createAccount P fixture_chain 0x1A9%N 0xFAC70%N "alice" 0x4E1A%N)
    as [[a c1]|e] eqn:Hrun; [|vm_compute in Hrun; discriminate Hrun].
  exists a, c1. split; [reflexivity|].
  assert (Hfresh : has_code (getCode fixture_chain a) = false).
  { vm_compute in Hrun. injection Hrun as <- _. vm_compute. reflexivity. }
  split.
  - apply (proj2 (@account_obeys_first_owner P fixture_chain 0x1A9%N 0xFAC70%N "alice"
                    0x4E1A%N a c1 c1 0x4E1A%N (Normal []) Hrun Hfresh (chain_extends_refl c1))
                 eq_refl).
    reflexivity.
  - intros Hgo.
    destruct (proj1 (proj1 (@account_obeys_first_owner P fixture_chain 0x1A9%N 0xFAC70%N
                              "alice" 0x4E1A%N a c1 c1 0xaa%N (Normal []) Hrun Hfresh
                              (chain_extends_refl c1))) Hgo) as [Hsame _].
    discriminate Hsame.
Defined.

(** ** Retrying a deployment *)

Section Retry.
Context `{Primitives}.


End Retry.


(** ** The order of the mint route *)

Section MintOrder.
Context `{Primitives}.

(** X28: [GET /api/token/mint] raises the allowance before it looks at
    the amount.  When the relayer owns the token and is not yet an
    unlimited minter, a request whose [amount] cannot be parsed still gets
    the relayer's allowance set to [type(uint256).max], in a transaction
    of its own, before the handler answers 500 with the parse error;
    nothing is minted. *)
Theorem token_mint_raises_allowance_first env rq tw tokenAddr e :
  let rel := relayer env in
  let t := tw_token tw in
  REWARD_TOKEN env = Some tokenAddr ->
  artifact_RewardToken env = Some RewardToken_abi ->
  startsWith_0x (query_or rq "wallet" "") = true ->
  parseUnits (query_or rq "amount" "10") 18 = Throw e ->
  (rel < 2 ^ 160)%N ->
  rel = token_owner t ->
  mapping_get (minterAllowance t) rel <> uint256_max ->
  node_healthy 3 (tw_world tw) ->
  exists tw',
    token_mint env rq tw
    = (Normal (res_status_json 500 (error_body (String_of_error e))), tw') /\
    tw_token tw' = unlimited t rel /\
    length (mined (chain (tw_world tw'))) = S (length (mined (chain (tw_world tw)))) /\
    totalSupply (tw_token tw') = totalSupply t.
Proof.
  intros rel t Htok Hart Hwallet Hparse Hrel Hown Hlim Hnode.
  destruct tw as [w tok eth]. cbn [tw_token tw_world] in *. subst t.
  pose proof (node_healthy_at 3 w 0 Hnode ltac:(lia)) as Hn0.
  pose proof (node_healthy_at 3 w 1 Hnode ltac:(lia)) as Hn1.
  pose proof (node_healthy_at 3 w 2 Hnode ltac:(lia)) as Hn2.
  cbn [Nat.add] in Hn0, Hn1, Hn2.
  unfold token_mint. rewrite Htok, Hart, Hwallet, Hparse. cbv zeta. cbn [negb].
  unfold tcatch_500.
  unfold tbind at 1, of_world at 1, loadArtifact, ret.
  cbn [tw_world tw_token tw_relayer_ether].
  fold rel. unfold tbind at 1.
  rewrite (token_invoke_minterAllowance_run _ _ _ _ Hrel).
  cbn [tw_world]. rewrite Hn0.
  unfold tbind at 1. rewrite is_not_MAX_allowance.
  cbn [tw_asked tw_token tw_world tw_relayer_ether].
  apply N.eqb_neq in Hlim. rewrite Hlim. cbn [negb].
  unfold tbind at 1. unfold tbind at 1.
  rewrite (token_invoke_send_run "setMinterAllowance"
             (SetMinterAllowance rel (Z.to_N (2 ^ 256 - 1)))) by auto.
  pose proof Hrel as Hrel'. apply N.ltb_lt in Hrel'. rewrite Hrel'.
  change ((0 <=? 2 ^ 256 - 1)%Z && (2 ^ 256 - 1 <? 2 ^ 256)%Z) with true.
  cbn [andb negb tw_world tw_token tw_relayer_ether tw_asked served node_env node_reqs chain].
  rewrite Hn1.
  assert (Hfunds : (eth <? 0)%N = false) by (apply N.ltb_ge; lia). rewrite Hfunds.
  unfold Token_call.
  change (well_typed (SetMinterAllowance rel (Z.to_N (2 ^ 256 - 1))))
    with (is_address rel && true).
  unfold is_address. rewrite Hrel'. cbn [andb negb].
  unfold setMinterAllowance, nonpayable, onlyOwner. cbn [msg_value msg_sender].
  change (0 =? 0)%N with true. cbv iota.
  assert (Hme : (rel =? token_owner tok)%N = true) by (apply N.eqb_eq; exact Hown).
  rewrite Hme.
  unfold tbind, of_world, as_tx, ret, tx_wait, tret, tlift.
  cbn [tw_sent tw_world tw_token tw_relayer_ether].
  rewrite node_request_run.
  cbn [served node_env node_reqs chain fst snd tw_asked tw_world tw_token tw_relayer_ether].
  rewrite Hn2.
  cbv beta iota. eexists. split; [reflexivity|].
  cbn [tw_token tw_world chain served include mined length totalSupply].
  repeat split.
Qed.
End MintOrder.

Lemma token_mint_raises_allowance_first_witness :
  let P := fixture_platform false in
  let rq := mkReq [("wallet", "0x00000000000000000000000000000000000000aa");
                   ("amount", "ten")] [] in
  exists r tw',
    @token_mint P fixture_env rq fixture_token_world = (Normal r, tw') /\
    status r = 500%nat /\
    mapping_get (minterAllowance (tw_token tw')) 0x4E1A%N = uint256_max /\
    totalSupply (tw_token tw') = 0%N.
Proof.
  intros P rq.
  destruct (@token_mint_raises_allowance_first P fixture_env rq fixture_token_world 0x70CE%N
              (TypeError "invalid FixedNumber string value")
              eq_refl eq_refl eq_refl eq_refl eq_refl eq_refl ltac:(discriminate)
              ltac:(intros k _; reflexivity))
    as (tw' & Hrun & Htoken & _ & Hsupply).
  eexists _, tw'. split; [exact Hrun|]. split; [reflexivity|].
  split; [rewrite Htoken; reflexivity | exact Hsupply].
Defined.
